(** * media_checker: a shallow embedding of [media_checker.py]

    The development follows the source file top-down: Python values
    (strings, floats, exceptions), file discovery ([get_video_files]), the
    per-file probe ([analyze_video]), the progress record ([save_progress],
    [load_progress]) and the driver ([main]).  Definitions come first, the
    theorems about them afterwards.

    Of the program's prints, the one inside the probe's [try] (line 55) is
    part of the model, since a failure to print it changes the verdict;
    standard output encodes as UTF-8.  The driver's own messages to the
    terminal are not modelled. *)

From Stdlib Require Import ZArith NArith Lia Bool Ascii String SpecFloat DecimalString.
From stdpp Require Import base tactics option list sorting gmap.

Local Open Scope Z_scope.

(** ** Python values *)

(** A Python [str] is a sequence of Unicode code points. *)
Definition char : Type := N.
Definition str : Type := list char.

(** ASCII literals of the source, as code points. *)
Definition lit (s : string) : str :=
  map N_of_ascii (list_ascii_of_string s).

Definition LF : char := 10%N.
Definition CR : char := 13%N.

(** [f"{z}"] for an [int]: its decimal rendering. *)
Definition str_of_int (z : Z) : str :=
  lit (NilZero.string_of_int (Z.to_int z)).

(** Exceptions that can travel through the program.  All of them are
    subclasses of [Exception], so [except Exception] catches each. *)
Inductive exn : Type :=
| BackendError (msg : str)        (* raised inside the decode backend (cv2.error, ...) *)
| ValueError (msg : str)
| OverflowError (msg : str)
| ZeroDivisionError (msg : str)
| UnboundLocalError (var : str)
| UnicodeEncodeError (c : char)
| OSError (msg : str).             (* FileNotFoundError, PermissionError, ... *)

(** [str(e)] *)
Definition py_str (e : exn) : str :=
  match e with
  | BackendError msg | ValueError msg | OverflowError msg | ZeroDivisionError msg
  | OSError msg => msg
  | UnboundLocalError var =>
      lit "cannot access local variable '" ++ var ++
      lit "' where it is not associated with a value"
  | UnicodeEncodeError _ => lit "'utf-8' codec can't encode character: surrogates not allowed"
  end.

(** Results of fallible pure computations. *)
Inductive result (A : Type) : Type :=
| Ok (a : A)
| Err (e : exn).
Arguments Ok {A} a.
Arguments Err {A} e.

#[global] Instance result_ret : MRet result := fun _ a => Ok a.
#[global] Instance result_bind : MBind result := fun _ _ k r =>
  match r with
  | Ok a => k a
  | Err e => Err e
  end.

Fixpoint mapE {A B} (f : A -> result B) (l : list A) : result (list B) :=
  match l with
  | [] => Ok []
  | a :: l' =>
      b ← f a;
      bs ← mapE f l';
      Ok (b :: bs)
  end.

(** ** Python floats: IEEE 754 binary64 *)

Module PyFloat.

Definition prec : Z := 53.
Definition emax : Z := 1024.

Abbreviation float := spec_float.

(** [float(n)] for an [int]: correctly rounded (ties to even);
    [OverflowError] when the value does not fit. *)
Definition of_int (n : Z) : result float :=
  match binary_normalize prec emax n 0 false with
  | S754_infinity _ => Err (OverflowError (lit "int too large to convert to float"))
  | x => Ok x
  end.

(** [int(x)] for a [float]: truncation towards zero. *)
Definition to_int (x : float) : result Z :=
  match x with
  | S754_nan => Err (ValueError (lit "cannot convert float NaN to integer"))
  | S754_infinity _ => Err (OverflowError (lit "cannot convert float infinity to integer"))
  | S754_zero _ => Ok 0
  | S754_finite s m e => Ok (cond_Zopp s (Z.shiftl (Z.pos m) e))
  end.

Definition mul (x y : float) : float := SFmul prec emax x y.

(** [a / b] on two [int]s.  The operands in this program stay below
    [2^53], where the correctly rounded quotient of the integers is the
    binary64 quotient of their conversions. *)
Definition int_truediv (a b : Z) : result float :=
  if b =? 0 then Err (ZeroDivisionError (lit "division by zero"))
  else
    x ← of_int a;
    y ← of_int b;
    Ok (SFdiv prec emax x y).

(** [n * x] for an [int] and a [float]. *)
Definition int_mul (n : Z) (x : float) : result float :=
  fn ← of_int n;
  Ok (mul fn x).

End PyFloat.

(** ** The probe's arithmetic *)

(** [int(total_frames * (i/20))] *)
Definition check_point (total_frames i : Z) : result Z :=
  frac ← PyFloat.int_truediv i 20;
  pos ← PyFloat.int_mul total_frames frac;
  PyFloat.to_int pos.

(** [range(a, b)] as the list it iterates over. *)
Definition py_range (a b : Z) : list Z := seqZ a (b - a).

(** Lines 48-50: the comprehension over [range(0, 20)], [list(set(...))],
    [sort()]. *)
Definition check_points (total_frames : Z) : result (list Z) :=
  raw ← mapE (check_point total_frames) (py_range 0 20);
  Ok (merge_sort Z.le (elements (list_to_set raw : gset Z))).

(** Lines 58-63: the bounds of [frames_to_check]. *)
Definition frames_to_check (total_frames point : Z) : Z * Z :=
  if point =? 0 then (0, Z.min 5 total_frames)
  else if point =? total_frames - 1 then (Z.max 0 (total_frames - 5), total_frames)
  else (Z.max 0 (point - 2), Z.min (point + 3) total_frames).

Definition window (total_frames point : Z) : list Z :=
  let '(a, b) := frames_to_check total_frames point in py_range a b.

(** The specification's wording of the checkpoints, in exact arithmetic:
    [floor(total_frames * i / 20)] for [i] in 0..19, deduplicated and
    sorted. *)
Definition spec_check_point (total_frames i : Z) : Z := total_frames * i / 20.

Definition spec_check_points (total_frames : Z) : list Z :=
  merge_sort Z.le
    (elements (list_to_set (map (spec_check_point total_frames) (py_range 0 20))
               : gset Z)).


(** ** The decode backend *)

(** What [cv2.VideoCapture] offers to the probe.  [W] is whatever state the
    backend keeps; every call may change it, and every call but [release]
    may raise.  A frame is [None] or an array, of which only [.size] is
    looked at. *)
Record Backend (W : Type) : Type := {
  VideoCapture : str -> W -> result unit * W;
  isOpened : W -> result bool * W;
  get_frame_count : W -> result PyFloat.float * W;
  set_pos_frames : Z -> W -> result unit * W;
  read : W -> result (bool * option Z) * W;
  release : W -> W
}.
Arguments VideoCapture {W} _ _ _.
Arguments isOpened {W} _ _.
Arguments get_frame_count {W} _ _.
Arguments set_pos_frames {W} _ _ _.
Arguments read {W} _ _.
Arguments release {W} _ _.

(** The calls made on the backend, in order (instrumentation: the source
    keeps no such record). *)
Inductive call : Type :=
| CallVideoCapture (video_path : str)
| CallIsOpened
| CallGet
| CallSet (frame_idx : Z)
| CallRead
| CallRelease.

(** ** The step log *)

(** One constructor per string the probe appends to [step_log]; [render]
    gives the string itself.  [LogAttempt i f ok] carries the [enumerate]
    index [i] of the checkpoint. *)
Inductive log_entry : Type :=
| LogOpenFailed
| LogOpenOk
| LogNoFrameCount
| LogAttempt (i : Z) (frame_idx : Z) (ok : bool)
| LogAllFailed (point : Z)
| LogException (e : exn).

Definition render (entry : log_entry) : str :=
  match entry with
  | LogOpenFailed => [25171; 24320; 65306; 22833; 36133]%N
  | LogOpenOk => [25171; 24320; 65306; 25104; 21151]%N
  | LogNoFrameCount => [33719; 21462; 24635; 24103; 25968; 22833; 36133]%N
  | LogAttempt i frame_idx ok =>
      [91; 31532]%N ++ str_of_int (i + 1) ++
      [27425; 93; 23581; 35797; 25235; 21462; 31532]%N ++ str_of_int frame_idx ++
      [24103]%N ++
      (if ok then [65306; 25104; 21151]%N else [65306; 22833; 36133]%N)
  | LogAllFailed point =>
      [26816; 27979; 28857]%N ++ str_of_int point ++
      [21608; 22260; 53; 24103; 20840; 37096; 22833; 36133]%N
  | LogException e => [24322; 24120; 25429; 33719; 65306]%N ++ py_str e
  end.

(** [error_type]: 0 intact, 1 cannot be opened, 2 cannot be decoded. *)
Definition OK : Z := 0.
Definition OpenFailure : Z := 1.
Definition DecodeFailure : Z := 2.

(** ** Text that leaves the program *)

Definition is_surrogate (c : char) : bool := ((55296 <=? c) && (c <=? 57343))%N.

(** Encoding a text as UTF-8, as [f.write(s)] does at once on a file
    opened with [encoding='utf-8'] and as [print(s)] does on a standard
    output that encodes as UTF-8 (error handler [strict]): it fails on a
    lone surrogate. *)
Definition encode (s : str) : result unit :=
  match List.find is_surrogate s with
  | Some c => Err (UnicodeEncodeError c)
  | None => Ok tt
  end.

(** [os.path.basename(p)] (POSIX): what follows the last slash. *)
Fixpoint basename_from (cur p : str) : str :=
  match p with
  | [] => cur
  | c :: rest =>
      if (c =? 47)%N then basename_from [] rest
      else basename_from (cur ++ [c]) rest
  end.

Definition basename (p : str) : str := basename_from [] p.

(** [str(b)] for a [bool]. *)
Definition py_bool (b : bool) : str := if b then lit "True" else lit "False".

(** The text of line 55,
    [f"\r正在处理: {os.path.basename(video_path)} - 检测点 {i+1}/{len(check_points)} | 已发现损坏: {error_type != 0}"]. *)
Definition checkpoint_notice (video_path : str) (i n error_type : Z) : str :=
  [13; 27491; 22312; 22788; 29702; 58; 32]%N ++ basename video_path ++
  [32; 45; 32; 26816; 27979; 28857; 32]%N ++ str_of_int (i + 1) ++
  lit "/" ++ str_of_int n ++
  [32; 124; 32; 24050; 21457; 29616; 25439; 22351; 58; 32]%N ++
  py_bool (negb (error_type =? 0)).

(** ** The probe as a state machine with early exits *)

(** The locals of [analyze_video] and the backend behind them. *)
Record machine (W : Type) : Type := {
  world : W;
  error_type : Z;
  step_log : list log_entry;
  cap_bound : bool;
  calls : list call
}.
Arguments world {W} _.
Arguments error_type {W} _.
Arguments step_log {W} _.
Arguments cap_bound {W} _.
Arguments calls {W} _.

(** How a block of statements ends. *)
Inductive ctl (A : Type) : Type :=
| Next (a : A)
| Return_ (v : Z * list log_entry)
| Raise (e : exn).
Arguments Next {A} a.
Arguments Return_ {A} v.
Arguments Raise {A} e.

(** What the caller of [analyze_video] sees. *)
Inductive outcome : Type :=
| Returned (error_type : Z) (step_log : list log_entry)
| Propagated (e : exn).

Definition M (W A : Type) : Type := machine W -> ctl A * machine W.

#[global] Instance M_ret {W} : MRet (M W) := fun _ a m => (Next a, m).
#[global] Instance M_bind {W} : MBind (M W) := fun _ _ k c m =>
  match c m with
  | (Next a, m') => k a m'
  | (Return_ v, m') => (Return_ v, m')
  | (Raise e, m') => (Raise e, m')
  end.

Section Probe.
Context {W : Type} (cv2 : Backend W).

Definition raise {A} (e : exn) : M W A := fun m => (Raise e, m).

(** [return error_type, step_log] *)
Definition return_ {A} : M W A := fun m => (Return_ (error_type m, step_log m), m).

Definition lift {A} (r : result A) : M W A :=
  match r with
  | Ok a => mret a
  | Err e => raise e
  end.

Definition set_error_type (v : Z) : M W unit := fun m =>
  (Next tt, {| world := world m; error_type := v; step_log := step_log m;
               cap_bound := cap_bound m; calls := calls m |}).

(** [step_log.append(entry)] *)
Definition append (entry : log_entry) : M W unit := fun m =>
  (Next tt, {| world := world m; error_type := error_type m;
               step_log := step_log m ++ [entry];
               cap_bound := cap_bound m; calls := calls m |}).

(** A backend call: recorded, run on the backend's state, and an error
    of the backend raised as an exception. *)
Definition invoke {A} (c : call) (op : W -> result A * W) : M W A := fun m =>
  let '(r, w') := op (world m) in
  let m' := {| world := w'; error_type := error_type m; step_log := step_log m;
               cap_bound := cap_bound m; calls := calls m ++ [c] |} in
  match r with
  | Ok a => (Next a, m')
  | Err e => (Raise e, m')
  end.

(** Reading the local [cap]. *)
Definition cap : M W unit := fun m =>
  if cap_bound m then (Next tt, m) else (Raise (UnboundLocalError (lit "cap")), m).

Definition bind_cap : M W unit := fun m =>
  (Next tt, {| world := world m; error_type := error_type m;
               step_log := step_log m; cap_bound := true; calls := calls m |}).

(** [cap = cv2.VideoCapture(video_path)]: the name is bound only once the
    constructor has returned. *)
Definition cap_assign (video_path : str) : M W unit :=
  invoke (CallVideoCapture video_path) (VideoCapture cv2 video_path);;
  bind_cap.

Definition cap_isOpened : M W bool := cap;; invoke CallIsOpened (isOpened cv2).
Definition cap_get : M W PyFloat.float := cap;; invoke CallGet (get_frame_count cv2).
Definition cap_set (frame_idx : Z) : M W unit :=
  cap;; invoke (CallSet frame_idx) (set_pos_frames cv2 frame_idx).
Definition cap_read : M W (bool * option Z) := cap;; invoke CallRead (read cv2).
Definition cap_release : M W unit :=
  cap;; invoke CallRelease (fun w => (Ok tt, release cv2 w)).

(** Lines 68-77: one frame of a window. *)
Definition attempt (i frame_idx : Z) : M W bool :=
  cap_set frame_idx;;
  r ← cap_read;
  let ret := fst (r : bool * option Z) in
  let frame := snd r in
  if ret && match frame with Some size => 0 <? size | None => false end
  then append (LogAttempt i frame_idx true);; mret true
  else append (LogAttempt i frame_idx false);; mret false.

(** Lines 66-77: the inner [for], giving the final value of [success];
    a success leaves the loop ([break]). *)
Fixpoint scan_frames (i : Z) (frames : list Z) : M W bool :=
  match frames with
  | [] => mret false
  | frame_idx :: rest =>
      success ← attempt i frame_idx;
      if (success : bool) then mret true else scan_frames i rest
  end.

(** [print(text)]: the text is encoded for the terminal, which raises when
    it cannot be; what reaches the terminal is not kept. *)
Definition py_print (text : str) : M W unit := lift (encode text).

(** Line 55: the print at the head of each turn of the loop over the
    checkpoints, [n] being [len(check_points)]. *)
Definition print_notice (video_path : str) (i n : Z) : M W unit := fun m =>
  py_print (checkpoint_notice video_path i n (error_type m)) m.

(** Lines 57-83: one checkpoint once its notice is printed, [next] being
    the turns of the loop that follow. *)
Definition check_window (total_frames i point : Z) (next : M W unit)
    : M W unit :=
  success ← scan_frames i (window total_frames point);
  if (success : bool) then next
  else
    set_error_type DecodeFailure;;
    append (LogAllFailed point);;
    cap_release;;
    return_.

(** Lines 53-83: the [for i, point in enumerate(check_points)] loop, from
    index [i] on. *)
Fixpoint check_loop (video_path : str) (n total_frames i : Z)
    (points : list Z) : M W unit :=
  match points with
  | [] => mret tt
  | point :: rest =>
      print_notice video_path i n;;
      check_window total_frames i point
        (check_loop video_path n total_frames (i + 1) rest)
  end.

(** Lines 32-83: the body of the [try]. *)
Definition try_body (video_path : str) : M W unit :=
  cap_assign video_path;;
  opened ← cap_isOpened;
  if negb opened then
    set_error_type OpenFailure;;
    append LogOpenFailed;;
    return_
  else
    append LogOpenOk;;
    count ← cap_get;
    total_frames ← lift (PyFloat.to_int count);
    if total_frames <=? 0 then
      set_error_type DecodeFailure;;
      append LogNoFrameCount;;
      cap_release;;
      return_
    else
      points ← lift (check_points total_frames);
      check_loop video_path (Z.of_nat (length points)) total_frames 0 points.

(** Lines 85-87: [except Exception as e]. *)
Definition handler (e : exn) : M W unit :=
  set_error_type DecodeFailure;;
  append (LogException e).

(** [try: body except Exception as e: handler(e) finally: final].  The
    [finally] block runs on every way out of the other two; when it
    completes, a pending [return] or exception goes on, and when it does
    not, its own exception replaces them. *)
Definition try_except_finally
    (body : M W unit) (handler : exn -> M W unit) (final : M W unit) : M W unit :=
  fun m =>
    let pending :=
      match body m with
      | (Raise e, m1) => handler e m1
      | r => r
      end in
    match final (pending.2) with
    | (Next _, m3) => (pending.1, m3)
    | r => r
    end.

Definition initial (w : W) : machine W :=
  {| world := w; error_type := 0; step_log := []; cap_bound := false; calls := [] |}.

(** Lines 25-91, run to its end from the backend state [w]. *)
Definition run_analyze_video (video_path : str) (w : W) : ctl unit * machine W :=
  (try_except_finally (try_body video_path) handler cap_release;;
   return_) (initial w).

Definition analyze_video (video_path : str) (w : W) : outcome * W :=
  let '(r, m) := run_analyze_video video_path w in
  (match r with
   | Return_ (et, log) => Returned et log
   | Raise e => Propagated e
   | Next _ => Returned (error_type m) (step_log m)
   end, world m).

End Probe.


(** ** String methods used by the program *)

(** [str.isspace] on one code point. *)
Definition isspace (c : char) : bool :=
  ((9 <=? c) && (c <=? 13) || (28 <=? c) && (c <=? 32) ||
   (c =? 133) || (c =? 160) || (c =? 5760) ||
   (8192 <=? c) && (c <=? 8202) ||
   (c =? 8232) || (c =? 8233) || (c =? 8239) || (c =? 8287) || (c =? 12288))%N.

Fixpoint lstrip (s : str) : str :=
  match s with
  | [] => []
  | c :: s' => if isspace c then lstrip s' else s
  end.

Definition rstrip (s : str) : str := reverse (lstrip (reverse s)).

(** [s.strip()] *)
Definition strip (s : str) : str := rstrip (lstrip s).

(** [s.endswith(suffix)] *)
Definition endswith (s suffix : str) : bool :=
  bool_decide (drop (length s - length suffix) s = suffix).

(** [os.path.join(a, b)] (POSIX). *)
Definition path_join (a b : str) : str :=
  if bool_decide (take 1 b = lit "/") then b
  else if bool_decide (a = []) || endswith a (lit "/") then a ++ b
  else a ++ lit "/" ++ b.

(** ** Text files *)

(** The files of the working directory the run reads and writes, by name,
    with their text. *)
Abbreviation files := (gmap str str).

(** [for line in f] on a file opened for reading in text mode: universal
    newlines, so a line ends at LF, CR or CR LF, each handed over as LF;
    the last line may come without one. *)
Fixpoint readlines_from (cur : str) (text : str) : list str :=
  match text with
  | [] => match cur with [] => [] | _ => [cur] end
  | c :: rest =>
      if (c =? LF)%N then (cur ++ [LF]) :: readlines_from [] rest
      else if (c =? CR)%N then
        match rest with
        | c' :: rest' =>
            if (c' =? LF)%N then (cur ++ [LF]) :: readlines_from [] rest'
            else (cur ++ [LF]) :: readlines_from [] rest
        | [] => (cur ++ [LF]) :: readlines_from [] rest
        end
      else readlines_from (cur ++ [c]) rest
  end.

Definition readlines (text : str) : list str := readlines_from [] text.

(** ** The progress record *)

(** The body of [save_progress]'s loop: what reaches the file, and the
    exception that cut the loop short, if any. *)
Fixpoint write_paths (paths : list str) (written : str) : result unit * str :=
  match paths with
  | [] => (Ok tt, written)
  | path :: rest =>
      match encode (path ++ [LF]) with
      | Ok _ => write_paths rest (written ++ path ++ [LF])
      | Err e => (Err e, written)
      end
  end.

(** What the program meets outside itself when it writes: whether a name
    can be opened for writing, and the order in which a [set] hands over
    its elements.
    - [refuses name] is the exception [open(name, 'w')] or
      [open(name, 'a')] raises (a missing directory, a name that is a
      directory, no permission, the empty name), none when the file opens;
      it is taken not to change while the program runs.
    - [set_order s] is the order of [for path in s]; Python promises
      nothing about it but that each element comes once. *)
Record Host : Type := {
  refuses : str -> option exn;
  set_order : gset str -> list str;
  set_order_perm : forall s, set_order s ≡ₚ elements s
}.

(** Lines 93-97.  Opening with ['w'] empties or creates the file, or
    raises; leaving the [with] block closes it with whatever was
    written. *)
Definition save_progress (h : Host) (progress_file : str)
    (processed_files : gset str) (fs : files) : result unit * files :=
  match refuses h progress_file with
  | Some e => (Err e, fs)
  | None =>
      let '(r, text) := write_paths (set_order h processed_files) [] in
      (r, <[progress_file := text]> fs)
  end.

(** Lines 99-105. *)
Definition load_progress (progress_file : str) (fs : files) : gset str :=
  match fs !! progress_file with
  | Some text => list_to_set (map strip (readlines text))
  | None => ∅
  end.

(** ** File discovery *)

Definition VIDEO_EXTENSIONS : list str :=
  map lit
    [".mp4"; ".avi"; ".mov"; ".mkv"; ".flv"; ".wmv"; ".webm";
     ".m4v"; ".mpeg"; ".mpg"; ".3gp"; ".ts"; ".mts"; ".m2ts";
     ".vob"; ".ogv"; ".drc"; ".mxf"; ".rmvb"; ".swf"; ".divx"]%string.

(** What a path of the scanned tree leads to. *)
#[local] Set Warnings "-register-all".
Inductive node : Type :=
| File
| Dir (entries : list (str * node)).
#[local] Set Warnings "register-all".

Definition is_dir (n : node) : bool :=
  match n with
  | Dir _ => true
  | File => false
  end.

(** [os.walk(top)], top-down, for a [top] that leads to [n].  Listing
    something that is not a directory fails inside [os.walk], which was
    given no [onerror] and so passes over it in silence. *)
Fixpoint walk (top : str) (n : node) : list (str * list str * list str) :=
  match n with
  | File => []
  | Dir entries =>
      (top,
       map fst (List.filter (fun e => is_dir e.2) entries),
       map fst (List.filter (fun e => negb (is_dir e.2)) entries))
      :: (fix below (es : list (str * node)) :=
            match es with
            | [] => []
            | (name, child) :: es' =>
                (if is_dir child then walk (path_join top name) child else [])
                ++ below es'
            end) entries
  end.

Definition os_walk (lookup : str -> option node) (top : str)
    : list (str * list str * list str) :=
  match lookup top with
  | Some n => walk top n
  | None => []
  end.

Section Discovery.
(** [str.lower], which Python defines over all of Unicode. *)
Variable lower : str -> str.

Definition is_video (file : str) : bool :=
  existsb (fun ext => endswith (lower file) ext) VIDEO_EXTENSIONS.

(** Lines 16-23. *)
Definition get_video_files (lookup : str -> option node) (directory : str)
    : list str :=
  flat_map
    (fun '(root, dirs, files) =>
       map (path_join root) (List.filter is_video files))
    (os_walk lookup directory).
End Discovery.

(** [str.lower] on the ASCII letters, other code points left alone. *)
Definition ascii_lower (s : str) : str :=
  map (fun c => if ((65 <=? c) && (c <=? 90))%N then (c + 32)%N else c) s.

(** ** The driver *)

Record datetime : Type := {
  year : Z; month : Z; day : Z; hour : Z; minute : Z; second : Z
}.

Definition pad2 (z : Z) : str :=
  if z <? 10 then lit "0" ++ str_of_int z else str_of_int z.

(** [now.strftime("%Y%m%d-%H%M%S")] *)
Definition strftime (now : datetime) : str :=
  str_of_int (year now) ++ pad2 (month now) ++ pad2 (day now) ++ lit "-" ++
  pad2 (hour now) ++ pad2 (minute now) ++ pad2 (second now).

(** The parsed command line. *)
Record arguments : Type := {
  directory : str;
  output : str;
  resume : bool
}.

(** [f"{args.output}_{timestamp}.txt"] *)
Definition log_filename_of (args : arguments) (timestamp : str) : str :=
  output args ++ lit "_" ++ timestamp ++ lit ".txt".

(** [f".{args.output}_progress_{timestamp}.txt"] *)
Definition progress_file_of (args : arguments) (timestamp : str) : str :=
  lit "." ++ output args ++ lit "_progress_" ++ timestamp ++ lit ".txt".

(** [f"{video_path} | 类型{error_type}错误\n"], lines 156-158. *)
Definition report_line (video_path : str) (error_type : Z) : str :=
  video_path ++ [32; 124; 32]%N ++
  [31867; 22411]%N ++ str_of_int error_type ++ [38169; 35823]%N ++ [LF].

(** [open(name, 'a')] followed by one [write]: opening raises or creates
    the file when missing, and the file gets the text when it can be
    encoded. *)
Definition append_text (h : Host) (name text : str) (fs : files)
    : result unit * files :=
  match refuses h name with
  | Some e => (Err e, fs)
  | None =>
      let old := default [] (fs !! name) in
      match encode text with
      | Ok _ => (Ok tt, <[name := old ++ text]> fs)
      | Err e => (Err e, <[name := old]> fs)
      end
  end.

(** Places in the loop of [main] at which the process can be stopped, each
    with the file it is working on. *)
Inductive place : Type :=
| Saved (video_path : str)      (* line 138 done, the probe not begun *)
| Probed (video_path : str)     (* line 146 done *)
| Recorded (video_path : str).  (* the loop body done *)

(** The state [main] carries around its loop.  [observed] and [probed] are
    instrumentation: the files as they stood at each place passed, and the
    paths handed to [analyze_video]. *)
Record scan (W : Type) : Type := {
  fs : files;
  backend : W;
  processed_files : gset str;
  processed_count : Z;
  corrupted_count : Z;
  probed : list str;
  observed : list (place * files)
}.
Arguments fs {W} _.
Arguments backend {W} _.
Arguments processed_files {W} _.
Arguments processed_count {W} _.
Arguments corrupted_count {W} _.
Arguments probed {W} _.
Arguments observed {W} _.

Section Main.
Context {W : Type} (cv2 : Backend W) (lower : str -> str) (h : Host).

(** Lines 136-158: one turn of the loop. *)
Definition process_one (log_filename progress_file video_path : str)
    (s : scan W) : result unit * scan W :=
  let processed := {[video_path]} ∪ processed_files s in
  let '(saved, fs1) := save_progress h progress_file processed (fs s) in
  let s1 := {| fs := fs1; backend := backend s; processed_files := processed;
               processed_count := processed_count s + 1;
               corrupted_count := corrupted_count s;
               probed := probed s;
               observed := observed s |} in
  match saved with
  | Err e => (Err e, s1)
  | Ok _ =>
      let '(res, w2) := analyze_video cv2 video_path (backend s) in
      let s2 := {| fs := fs1; backend := w2; processed_files := processed;
                   processed_count := processed_count s + 1;
                   corrupted_count := corrupted_count s;
                   probed := probed s ++ [video_path];
                   observed := observed s ++ [(Saved video_path, fs1)] |} in
      match res with
      | Propagated e => (Err e, s2)
      | Returned error_type step_log =>
          let '(reported, fs3, corrupted) :=
            if error_type =? 0 then (Ok tt, fs1, corrupted_count s)
            else
              let '(r, fs3) :=
                append_text h log_filename (report_line video_path error_type) fs1 in
              (r, fs3, corrupted_count s + 1) in
          (reported,
           {| fs := fs3; backend := w2; processed_files := processed;
              processed_count := processed_count s + 1;
              corrupted_count := corrupted;
              probed := probed s ++ [video_path];
              observed := observed s ++
                [(Saved video_path, fs1); (Probed video_path, fs1)] ++
                match reported with
                | Ok _ => [(Recorded video_path, fs3)]
                | Err _ => []
                end |})
      end
  end.

(** Lines 135-158: the loop over [video_files]; an exception ends it. *)
Fixpoint process_all (log_filename progress_file : str)
    (video_files : list str) (s : scan W) : result unit * scan W :=
  match video_files with
  | [] => (Ok tt, s)
  | video_path :: rest =>
      match process_one log_filename progress_file video_path s with
      | (Ok _, s') => process_all log_filename progress_file rest s'
      | (Err e, s') => (Err e, s')
      end
  end.

(** What a finished process leaves behind. *)
Record run : Type := {
  exit_status : Z;
  uncaught : option exn;
  final : scan W
}.

(** Lines 121-125: the files to check, those already processed left out
    when resuming. *)
Definition pending (lookup : str -> option node) (args : arguments)
    (processed : gset str) : list str :=
  let video_files := get_video_files lower lookup (directory args) in
  if resume args
  then List.filter (fun f => bool_decide (f ∉ processed)) video_files
  else video_files.

(** Lines 107-166.  [lookup] is the tree being scanned, [now] the clock
    at start, [fs0] the working directory and [w] the backend's state. *)
Definition main (lookup : str -> option node) (now : datetime)
    (args : arguments) (fs0 : files) (w : W) : run :=
  let timestamp := strftime now in
  let log_filename := log_filename_of args timestamp in
  let progress_file := progress_file_of args timestamp in
  let processed := load_progress progress_file fs0 in
  let video_files := pending lookup args processed in
  let s0 := {| fs := fs0; backend := w; processed_files := processed;
               processed_count := 0; corrupted_count := 0;
               probed := []; observed := [] |} in
  match process_all log_filename progress_file video_files s0 with
  | (Err e, s) => {| exit_status := 1; uncaught := Some e; final := s |}
  | (Ok _, s) =>
      {| exit_status := 0; uncaught := None;
         final := {| fs := delete progress_file (fs s); backend := backend s;
                     processed_files := processed_files s;
                     processed_count := processed_count s;
                     corrupted_count := corrupted_count s;
                     probed := probed s; observed := observed s |} |}
  end.
End Main.

(** ** Frames that decode, frames that do not *)

Section Frames.
Context {W : Type} (cv2 : Backend W).

(** [live] singles out the backend states in which the handle of the file
    under test is open; the file's frames are described over those. *)
Variable live : W -> Prop.

(** Line 72: [ret and frame is not None and frame.size > 0]. *)
Definition usable (r : bool * option Z) : bool :=
  r.1 && match r.2 with Some size => 0 <? size | None => false end.

(** Seeking to the frame and reading it gives a usable frame. *)
Definition decodes (frame_idx : Z) : Prop :=
  forall w, live w ->
    exists w1 w2 r,
      set_pos_frames cv2 frame_idx w = (Ok tt, w1) /\
      read cv2 w1 = (Ok r, w2) /\ usable r = true /\ live w2.

(** Seeking to the frame and reading it gives nothing usable, without an
    exception. *)
Definition fails_to_decode (frame_idx : Z) : Prop :=
  forall w, live w ->
    exists w1 w2 r,
      set_pos_frames cv2 frame_idx w = (Ok tt, w1) /\
      read cv2 w1 = (Ok r, w2) /\ usable r = false /\ live w2.

(** A window yields a success: some frame of it decodes, the ones before
    it having failed. *)
Definition yields_success (frames : list Z) : Prop :=
  exists before frame_idx after,
    frames = before ++ frame_idx :: after /\
    Forall fails_to_decode before /\ decodes frame_idx.

(** The file opens and reports [total_frames] frames, leaving the backend
    in [w3]: the constructor returns, [isOpened()] is true, and the frame
    count is a binary64 number whose integer part is [total_frames]. *)
Definition opens_with (video_path : str) (w : W) (total_frames : Z) (w3 : W)
    : Prop :=
  exists w1 w2 count,
    VideoCapture cv2 video_path w = (Ok tt, w1) /\
    isOpened cv2 w1 = (Ok true, w2) /\
    get_frame_count cv2 w2 = (Ok count, w3) /\
    valid_binary PyFloat.prec PyFloat.emax count = true /\
    PyFloat.to_int count = Ok total_frames.

(** The file does not open: the constructor returns and [isOpened()] is
    false. *)
Definition does_not_open (video_path : str) (w : W) (w2 : W) : Prop :=
  exists w1,
    VideoCapture cv2 video_path w = (Ok tt, w1) /\
    isOpened cv2 w1 = (Ok false, w2).
End Frames.

(** The calls one attempt makes. *)
Definition attempt_calls (frame_idx : Z) : list call :=
  [CallSet frame_idx; CallRead].

(** The log and the calls of a run of failed attempts. *)
Definition failures (i : Z) (frames : list Z) : list log_entry :=
  map (fun frame_idx => LogAttempt i frame_idx false) frames.

Definition attempts_calls (frames : list Z) : list call :=
  flat_map attempt_calls frames.

(** The machine once the file has opened and told its frame count. *)
Definition opened_machine {W} (video_path : str) (w3 : W) : machine W :=
  {| world := w3; error_type := 0; step_log := [LogOpenOk]; cap_bound := true;
     calls := [CallVideoCapture video_path; CallIsOpened; CallGet] |}.

(** A machine that differs from [m] in the backend state, the log and the
    calls only. *)
Definition advance {W} (m : machine W) (w : W) (entries : list log_entry)
    (cs : list call) : machine W :=
  {| world := w; error_type := error_type m;
     step_log := step_log m ++ entries;
     cap_bound := cap_bound m; calls := calls m ++ cs |}.

(** [m] with [error_type] set. *)
Definition classified {W} (v : Z) (m : machine W) : machine W :=
  {| world := world m; error_type := v; step_log := step_log m;
     cap_bound := cap_bound m; calls := calls m |}.

(** The calls that probe a frame. *)
Definition is_probe_call (c : call) : Prop :=
  match c with
  | CallSet _ | CallRead => True
  | _ => False
  end.

(** An attempt entry of a checkpoint numbered from [lo] up to, not
    including, [hi]. *)
Definition attempt_between (lo hi : Z) (entry : log_entry) : Prop :=
  match entry with
  | LogAttempt i _ _ => lo <= i < hi
  | _ => False
  end.

(** A block that keeps [cap] bound, leaves [error_type] alone when it
    falls through, and returns a failure class when it returns. *)
Definition tame {W A} (c : M W A) : Prop :=
  forall m r m', cap_bound m = true -> c m = (r, m') ->
    cap_bound m' = true /\
    match r with
    | Next _ => error_type m' = error_type m
    | Return_ v => v.1 = OpenFailure \/ v.1 = DecodeFailure
    | Raise _ => True
    end.

(** ** Example backends *)

(** Ten frames, as [cap.get] reports them: the binary64 number 10.0. *)
Definition ten_frames : PyFloat.float := S754_finite false 5629499534213120 (-49).

(** Every file opens, has ten frames, and every frame decodes. *)
Definition sound_backend : Backend unit := {|
  VideoCapture := fun _ w => (Ok tt, w);
  isOpened := fun w => (Ok true, w);
  get_frame_count := fun w => (Ok ten_frames, w);
  set_pos_frames := fun _ w => (Ok tt, w);
  read := fun w => (Ok (true, Some 6220800), w);
  release := fun w => w
|}.

(** The constructor raises. *)
Definition raising_backend : Backend unit := {|
  VideoCapture := fun _ w => (Err (BackendError (lit "Overload resolution failed")), w);
  isOpened := fun w => (Ok false, w);
  get_frame_count := fun w => (Ok (S754_zero false), w);
  set_pos_frames := fun _ w => (Ok tt, w);
  read := fun w => (Ok (false, None), w);
  release := fun w => w
|}.

(** Nothing opens. *)
Definition closed_backend : Backend unit := {|
  VideoCapture := fun _ w => (Ok tt, w);
  isOpened := fun w => (Ok false, w);
  get_frame_count := fun w => (Ok (S754_zero false), w);
  set_pos_frames := fun _ w => (Ok tt, w);
  read := fun w => (Ok (false, None), w);
  release := fun w => w
|}.

(** A file of ten frames of which those listed in [bad] do not decode.
    The state is the position of the handle. *)
Definition damaged_backend (bad : list Z) : Backend Z := {|
  VideoCapture := fun _ _ => (Ok tt, 0);
  isOpened := fun w => (Ok true, w);
  get_frame_count := fun w => (Ok ten_frames, w);
  set_pos_frames := fun frame_idx _ => (Ok tt, frame_idx);
  read := fun w =>
    (Ok (if bool_decide (w ∈ bad) then (false, None) else (true, Some 6220800)),
     w + 1);
  release := fun w => w
|}.

Definition anywhere {W} (w : W) : Prop := True.

(** ** Auxiliary definitions for the rounding proofs *)

Module PyFloatAux.
Import PyFloat.

(** The second half of [binary_round_aux]: after rounding to nearest
    even, one more alignment and the overflow test. *)
Definition stage2 (s : bool) (m1 e1 : Z) : spec_float :=
  let '(mrs, e) := shr_fexp prec emax m1 e1 loc_Exact in
  match shr_m mrs with
  | Z0 => S754_zero s
  | Z.pos m => if e <=? emax - prec then S754_finite s m e else S754_infinity s
  | Z.neg _ => S754_nan
  end.

(** The mantissa of [19/20]. *)
Definition m19 : Z := 8556839292003942.

(** What each of the twenty fractions [i/20] is checked to be: zero, or
    a normal number below one whose value is at most that of [19/20]. *)
Definition frac_ok (r : result float) : bool :=
  match r with
  | Ok (S754_zero false) => true
  | Ok (S754_finite false mi ei) =>
      (2 ^ 52 <=? Z.pos mi) && (Z.pos mi <? 2 ^ 53) &&
      (-57 <=? ei) && (ei <=? -53) &&
      (Z.pos mi * 2 ^ (ei + 57) <=? m19 * 16)
  | _ => false
  end.
End PyFloatAux.

(** ** Paths the progress record can hold *)

(** No whitespace at either end. *)
Definition trimmed (s : str) : Prop :=
  (forall c, head s = Some c -> isspace c = false) /\
  (forall c, last s = Some c -> isspace c = false).

(** No lone surrogate: the text can be written as UTF-8. *)
Definition encodable (s : str) : Prop :=
  Forall (fun c => is_surrogate c = false) s.

(** A path that survives being written to the progress file and read
    back: one line, nothing for [strip] to remove, nothing the codec
    refuses. *)
Definition storable (path : str) : Prop :=
  (LF ∉ path) /\ (CR ∉ path) /\ trimmed path /\ encodable path.

(** The text [save_progress] writes for the paths in this order. *)
Definition progress_text (paths : list str) : str :=
  concat (map (fun path => path ++ [LF]) paths).

(** ** Example runs *)

(** A working directory in which every name can be opened, and the
    elements of a set come in the order of [elements]. *)
Definition plain_host : Host :=
  {| refuses := fun _ => None;
     set_order := elements;
     set_order_perm := fun s => Permutation_refl (elements s) |}.

(** The same, with no directory [tmp] below it: a name in [tmp] cannot
    be created. *)
Definition bare_host : Host :=
  {| refuses := fun name =>
       if bool_decide (take 5 name = lit "./tmp")
       then Some (OSError (lit "[Errno 2] No such file or directory"))
       else None;
     set_order := elements;
     set_order_perm := fun s => Permutation_refl (elements s) |}.

(** A directory of four videos, and what the paths of the examples lead
    to. *)
Definition archive : node :=
  Dir [(lit "A.mp4", File); (lit "B.mp4", File);
       (lit "C.mp4", File); (lit "D.mp4", File)].

Definition disk (path : str) : option node :=
  if bool_decide (path = lit "/archive") then Some archive
  else if bool_decide (path = lit "/archive/A.mp4") then Some File
  else None.

Definition path_A : str := lit "/archive/A.mp4".
Definition path_B : str := lit "/archive/B.mp4".
Definition path_C : str := lit "/archive/C.mp4".
Definition path_D : str := lit "/archive/D.mp4".

(** Two starts of the program, five minutes apart. *)
Definition morning : datetime :=
  {| year := 2024; month := 1; day := 5; hour := 10; minute := 0; second := 0 |}.
Definition later : datetime :=
  {| year := 2024; month := 1; day := 5; hour := 10; minute := 5; second := 0 |}.

Definition fresh_args : arguments :=
  {| directory := lit "/archive"; output := lit "video_report"; resume := false |}.
Definition resume_args : arguments :=
  {| directory := lit "/archive"; output := lit "video_report"; resume := true |}.
Definition missing_args : arguments :=
  {| directory := lit "/nowhere"; output := lit "video_report"; resume := false |}.
Definition file_args : arguments :=
  {| directory := lit "/archive/A.mp4"; output := lit "video_report"; resume := false |}.
Definition tmp_args : arguments :=
  {| directory := lit "/archive"; output := lit "/tmp/report"; resume := false |}.

(** The first session, started in the morning on an empty working
    directory, and the files it leaves when it is stopped once B has been
    dealt with. *)
Definition first_session : run :=
  main sound_backend ascii_lower plain_host disk morning fresh_args ∅ tt.

(** The files as they stand at the [k]-th place the first session
    passes. *)
Definition snapshot (k : nat) : files :=
  default ∅ (snd <$> observed (final first_session) !! k).

Definition interrupted : files := snapshot 5.

(** ** Counting the probe's work *)

Definition is_read (c : call) : bool :=
  match c with
  | CallRead => true
  | _ => false
  end.

Definition is_seek (c : call) : bool :=
  match c with
  | CallSet _ => true
  | _ => false
  end.

(** How many frames were read, how many positions sought. *)
Definition reads (cs : list call) : nat := length (List.filter is_read cs).
Definition seeks (cs : list call) : nat := length (List.filter is_seek cs).

(** At most [kr] reads and [ks] seeks, and only positions that satisfy
    [P]. *)
Definition probes_within (kr ks : nat) (P : Z -> Prop) (cs : list call) : Prop :=
  (reads cs <= kr)%nat /\ (seeks cs <= ks)%nat /\
  forall frame_idx, CallSet frame_idx ∈ cs -> P frame_idx.

(** What a block adds to the calls, whatever the backend answers. *)
Definition emits {W A} (Q : list call -> Prop) (c : M W A) : Prop :=
  forall m r m', c m = (r, m') -> exists cs, calls m' = calls m ++ cs /\ Q cs.

(** A block that calls nothing. *)
Definition quiet {W A} (c : M W A) : Prop :=
  forall m r m', c m = (r, m') -> calls m' = calls m.

(** Seeking to the frame or reading it raises [e]. *)
Definition raises_on {W} (cv2 : Backend W) (live : W -> Prop)
    (frame_idx : Z) (e : exn) : Prop :=
  forall w, live w ->
    (exists w1, set_pos_frames cv2 frame_idx w = (Err e, w1)) \/
    (exists w1 w2, set_pos_frames cv2 frame_idx w = (Ok tt, w1) /\
                   read cv2 w1 = (Err e, w2)).

(** A file of ten frames in which reading frame [broken] raises. *)
Definition throwing_backend (broken : Z) : Backend Z := {|
  VideoCapture := fun _ _ => (Ok tt, 0);
  isOpened := fun w => (Ok true, w);
  get_frame_count := fun w => (Ok ten_frames, w);
  set_pos_frames := fun frame_idx _ => (Ok tt, frame_idx);
  read := fun w =>
    (if w =? broken then Err (BackendError (lit "Unknown C++ exception"))
     else Ok (true, Some 6220800), w + 1);
  release := fun w => w
|}.

(** A file that opens and reports the frame count [count]. *)
Definition counting_backend (count : PyFloat.float) : Backend unit := {|
  VideoCapture := fun _ w => (Ok tt, w);
  isOpened := fun w => (Ok true, w);
  get_frame_count := fun w => (Ok count, w);
  set_pos_frames := fun _ w => (Ok tt, w);
  read := fun w => (Ok (true, Some 6220800), w);
  release := fun w => w
|}.

(** The entries a probe logs while it passes the checkpoints [points],
    numbered from [i]: for each checkpoint, in order, one failed attempt
    for each frame of its window before the first that decodes, and the
    successful attempt on that one. *)
Fixpoint passed (total_frames i : Z) (points : list Z)
    (entries : list log_entry) : Prop :=
  match points with
  | [] => entries = []
  | point :: rest =>
      exists before frame_idx after tail,
        window total_frames point = before ++ frame_idx :: after /\
        entries = failures i before ++ [LogAttempt i frame_idx true] ++ tail /\
        passed total_frames (i + 1) rest tail
  end.

(** The entries that say why a file could not be decoded. *)
Definition names_cause (entry : log_entry) : bool :=
  match entry with
  | LogNoFrameCount | LogAllFailed _ | LogException _ => true
  | LogOpenFailed | LogOpenOk | LogAttempt _ _ _ => false
  end.

(** The returned log, when there is one. *)
Definition returned_log (o : outcome) : list log_entry :=
  match o with
  | Returned _ log => log
  | Propagated _ => []
  end.

(** ** What a run reports *)

(** The classes [analyze_video] returns for the files in this order, the
    backend going from one file to the next as in the loop of [main]; the
    list ends where a probe does not return. *)
Fixpoint verdicts {W} (cv2 : Backend W) (video_files : list str) (w : W)
    : list (str * Z) :=
  match video_files with
  | [] => []
  | video_path :: rest =>
      match analyze_video cv2 video_path w with
      | (Returned error_type _, w') =>
          (video_path, error_type) :: verdicts cv2 rest w'
      | (Propagated _, _) => []
      end
  end.

(** The files whose class is not 0. *)
Definition corrupted (vs : list (str * Z)) : list (str * Z) :=
  List.filter (fun v => negb (v.2 =? 0)) vs.

(** The report lines for these files. *)
Definition report_text (vs : list (str * Z)) : str :=
  concat (map (fun v => report_line v.1 v.2) vs).

(** A backend that cannot construct a handle for [unreadable], does not
    open [closed], and finds ten good frames in every other file.  The
    state is the path of the file last constructed. *)
Definition mixed_backend (closed unreadable : str) : Backend str := {|
  VideoCapture := fun video_path w =>
    if bool_decide (video_path = unreadable)
    then (Err (BackendError (lit "Overload resolution failed")), w)
    else (Ok tt, video_path);
  isOpened := fun w => (Ok (negb (bool_decide (w = closed))), w);
  get_frame_count := fun w => (Ok ten_frames, w);
  set_pos_frames := fun _ w => (Ok tt, w);
  read := fun w => (Ok (true, Some 6220800), w);
  release := fun w => w
|}.

(** A directory in which one file name could not be decoded, so that
    [os.walk] hands it over with a lone surrogate. *)
Definition odd_name : str := lit "B" ++ [56553%N] ++ lit ".mp4".

Definition odd_disk (path : str) : option node :=
  if bool_decide (path = lit "/archive")
  then Some (Dir [(lit "A.mp4", File); (odd_name, File); (lit "C.mp4", File)])
  else None.

(** ** Files of a tree *)

(** [file_in top n root name]: in the tree [n] reached at path [top], the
    directory reached at path [root] holds the plain file [name]. *)
Inductive file_in : str -> node -> str -> str -> Prop :=
| file_here top entries name :
    (name, File) ∈ entries -> file_in top (Dir entries) top name
| file_below top entries dir child root name :
    (dir, child) ∈ entries ->
    file_in (path_join top dir) child root name ->
    file_in top (Dir entries) root name.

(** A directory in which a file name holds a carriage return. *)
Definition cr_name : str := lit "a" ++ [CR] ++ lit "b.mp4".

Definition cr_disk (path : str) : option node :=
  if bool_decide (path = lit "/archive")
  then Some (Dir [(lit "A.mp4", File); (cr_name, File)])
  else None.

(** The calls made on an open handle, [release] apart. *)
Definition uses_handle (c : call) : Prop :=
  match c with
  | CallIsOpened | CallGet | CallSet _ | CallRead => True
  | CallVideoCapture _ | CallRelease => False
  end.

(** * Theorems *)

#[local] Set Warnings "-clear-no-such-hyp".

(** A code point that is none of those of a given text. *)
Ltac absent :=
  let H := fresh in
  intros H; apply list_elem_of_In in H; cbv in H; intuition discriminate.

(** ** Binary64 rounding *)

Module PyFloatFacts.
Import PyFloat PyFloatAux.

Lemma digits2_pos_size p : digits2_pos p = Pos.size p.
Proof. induction p; simpl; congruence. Qed.

Lemma Zdigits2_bounds (m : positive) :
2 ^ (Z.pos (digits2_pos m) - 1) <= Z.pos m < 2 ^ Z.pos (digits2_pos m).
Proof.
rewrite digits2_pos_size. split.
- pose proof (Pos.size_le m) as H.
  apply Pos2Z.pos_le_pos in H. rewrite Pos2Z.inj_pow in H.
  replace (Z.pos (Pos.size m)) with (Z.succ (Z.pos (Pos.size m) - 1)) in H by lia.
  rewrite Z.pow_succ_r in H by lia. lia.
- pose proof (Pos.size_gt m) as H.
  apply Pos2Z.pos_lt_pos in H. rewrite Pos2Z.inj_pow in H. exact H.
Qed.

(** shr_1 halves the mantissa. *)
Lemma shr_1_m mrs : 0 <= shr_m mrs -> shr_m (shr_1 mrs) = shr_m mrs / 2.
Proof.
destruct mrs as [m r s]. cbn [shr_m]. intros Hm.
destruct m as [|[p|p|]|p]; cbn [shr_1 shr_m]; try lia; try reflexivity.
- apply Z.div_unique with 1; lia.
- apply Z.div_unique with 0; lia.
Qed.

Lemma iter_pos_nat {A} (f : A -> A) p x :
SpecFloat.iter_pos f p x = Nat.iter (Pos.to_nat p) f x.
Proof.
revert x. induction p as [p IH|p IH|]; intros x; cbn [SpecFloat.iter_pos].
- rewrite !IH. rewrite <- Nat.iter_add. rewrite <- Nat.iter_succ_r.
  f_equal. lia.
- rewrite !IH. rewrite <- Nat.iter_add. f_equal. lia.
- reflexivity.
Qed.

Lemma shr_nat_m n mrs :
0 <= shr_m mrs ->
0 <= shr_m (Nat.iter n shr_1 mrs) /\
shr_m (Nat.iter n shr_1 mrs) = shr_m mrs / 2 ^ Z.of_nat n.
Proof.
intros Hm. induction n as [|n [IH0 IH]].
- simpl. rewrite Z.div_1_r. lia.
- simpl Nat.iter. rewrite shr_1_m by exact IH0. rewrite IH.
  rewrite Nat2Z.inj_succ, Z.pow_succ_r by lia.
  rewrite Z.div_div by lia. split.
  + apply Z.div_pos; lia.
  + f_equal. lia.
Qed.

Lemma shr_pos_m p mrs :
0 <= shr_m mrs ->
shr_m (SpecFloat.iter_pos shr_1 p mrs) = shr_m mrs / 2 ^ Z.pos p.
Proof.
intros Hm. rewrite iter_pos_nat.
destruct (shr_nat_m (Pos.to_nat p) mrs Hm) as [_ ->].
by rewrite positive_nat_Z.
Qed.

(** Shifting out zeros is exact. *)
Lemma shr_nat_exact n m :
0 <= m ->
Nat.iter n shr_1 (Build_shr_record (m * 2 ^ Z.of_nat n) false false) =
  Build_shr_record m false false.
Proof.
intros Hm. induction n as [|n IH].
- simpl. f_equal. lia.
- rewrite Nat.iter_succ_r.
  replace (m * 2 ^ Z.of_nat (S n)) with (2 * (m * 2 ^ Z.of_nat n))
    by (rewrite Nat2Z.inj_succ, Z.pow_succ_r; lia).
  assert (0 <= m * 2 ^ Z.of_nat n) as Hp by (apply Z.mul_nonneg_nonneg; lia).
  destruct (m * 2 ^ Z.of_nat n) as [|q|q] eqn:E; try lia; simpl shr_1; exact IH.
Qed.

Lemma shr_pos_exact p m :
0 <= m ->
SpecFloat.iter_pos shr_1 p (Build_shr_record (m * 2 ^ Z.pos p) false false) =
  Build_shr_record m false false.
Proof.
intros Hm. rewrite iter_pos_nat. rewrite <- (positive_nat_Z p).
by apply shr_nat_exact.
Qed.

Lemma round_nearest_even_bounds m l :
m <= round_nearest_even m l <= m + 1.
Proof.
destruct l as [|[]]; simpl; try lia. destruct (Z.even m); lia.
Qed.


Lemma binary_round_aux_stages s mx ex lx :
binary_round_aux prec emax s mx ex lx =
  let '(mrs, e) := shr_fexp prec emax mx ex lx in
  stage2 s (round_nearest_even (shr_m mrs) (loc_of_shr_record mrs)) e.
Proof. reflexivity. Qed.

Lemma fexp_eq e : fexp prec emax e = Z.max (e - 53) (-1074).
Proof. reflexivity. Qed.

Lemma Zdigits2_unique (m : positive) d :
2 ^ (d - 1) <= Z.pos m < 2 ^ d -> Z.pos (digits2_pos m) = d.
Proof.
intros [Hlo Hhi]. pose proof (Zdigits2_bounds m) as [Hlo' Hhi'].
assert (0 < d).
{ destruct (Z.lt_ge_cases 0 d) as [|Hd]; [done|].
  rewrite (Z.pow_neg_r 2 (d - 1)) in Hlo by lia.
  assert (2 ^ d <= 1); [|lia].
  destruct (Z.eq_dec d 0) as [->|]; [done|].
  rewrite Z.pow_neg_r by lia. lia. }
assert (d - 1 < Z.pos (digits2_pos m)).
{ apply (Z.pow_lt_mono_r_iff 2); lia. }
assert (Z.pos (digits2_pos m) - 1 < d).
{ apply (Z.pow_lt_mono_r_iff 2); lia. }
lia.
Qed.

(** No shift when the mantissa already fits. *)
Lemma shr_fexp_fits (m : positive) e :
fexp prec emax (Z.pos (digits2_pos m) + e) <= e ->
shr_fexp prec emax (Z.pos m) e loc_Exact =
  (Build_shr_record (Z.pos m) false false, e).
Proof.
intros H. unfold shr_fexp, shr. cbn [Zdigits2 shr_record_of_loc].
destruct (fexp prec emax (Z.pos (digits2_pos m) + e) - e) eqn:E; try done. lia.
Qed.

Lemma stage2_fits s (m : positive) e :
fexp prec emax (Z.pos (digits2_pos m) + e) <= e ->
stage2 s (Z.pos m) e =
  if e <=? emax - prec then S754_finite s m e else S754_infinity s.
Proof. intros H. unfold stage2. by rewrite shr_fexp_fits. Qed.

Lemma binary_round_aux_fits s (m : positive) e :
fexp prec emax (Z.pos (digits2_pos m) + e) <= e ->
binary_round_aux prec emax s (Z.pos m) e loc_Exact =
  if e <=? emax - prec then S754_finite s m e else S754_infinity s.
Proof.
intros H. rewrite binary_round_aux_stages, shr_fexp_fits by done.
cbn [shr_m loc_of_shr_record round_nearest_even]. by apply stage2_fits.
Qed.

(** A shift by [k > 0] places. *)
Lemma shr_fexp_shifts (m : positive) e k :
0 < k -> fexp prec emax (Z.pos (digits2_pos m) + e) = e + k ->
exists mrs,
  shr_fexp prec emax (Z.pos m) e loc_Exact = (mrs, e + k) /\
  shr_m mrs = Z.pos m / 2 ^ k /\
  (forall m', Z.pos m = m' * 2 ^ k -> 0 <= m' -> mrs = Build_shr_record m' false false).
Proof.
intros Hk H. unfold shr_fexp, shr. cbn [Zdigits2 shr_record_of_loc].
rewrite H. replace (e + k - e) with k by lia.
destruct k as [|p|p]; try lia.
eexists. split; [reflexivity|]. split.
- by rewrite shr_pos_m.
- intros m' -> Hm'. by apply shr_pos_exact.
Qed.

(** The carry out of rounding: [2^53] becomes [2^52] one exponent up. *)
Lemma stage2_carry s e :
-1074 <= e ->
stage2 s (2 ^ 53) e =
  if e + 1 <=? emax - prec then S754_finite s 4503599627370496%positive (e + 1)
  else S754_infinity s.
Proof.
intros He. unfold stage2, shr_fexp, shr.
change (Zdigits2 (2 ^ 53)) with 54. rewrite fexp_eq.
replace (Z.max (54 + e - 53) (-1074) - e) with 1 by lia.
reflexivity.
Qed.

(** Rounding a mantissa of 53 or 54 bits, after the first shift. *)
Lemma stage2_rounded s q l e :
2 ^ 52 <= q < 2 ^ 53 -> -1074 <= e ->
exists (m : positive) e',
  stage2 s (round_nearest_even q l) e =
    (if e' <=? emax - prec then S754_finite s m e' else S754_infinity s) /\
  e <= e' <= e + 1 /\
  Z.pos m * 2 ^ (e' - e) <= q + 1 /\
  (e' = e + 1 -> q = 2 ^ 53 - 1).
Proof.
intros Hq He. pose proof (round_nearest_even_bounds q l) as Hr.
destruct (Z.eq_dec (round_nearest_even q l) (2 ^ 53)) as [Heq|Hne].
- rewrite Heq in *. exists 4503599627370496%positive, (e + 1). rewrite stage2_carry by done.
  split; [done|]. replace (e + 1 - e) with 1 by lia.
  repeat split; lia.
- destruct (round_nearest_even q l) as [|m|m] eqn:E; try lia.
  exists m, e. rewrite stage2_fits.
  + split; [done|]. rewrite Z.sub_diag. repeat split; lia.
  + rewrite (Zdigits2_unique m 53) by (simpl; lia). rewrite fexp_eq. lia.
Qed.


Lemma mul_bound (mn mi : positive) en ei :
2 ^ 52 <= Z.pos mn < 2 ^ 53 -> 2 ^ 52 <= Z.pos mi < 2 ^ 53 ->
-52 <= en <= 971 -> -57 <= ei <= -53 ->
Z.pos mi * 2 ^ (ei + 57) <= m19 * 16 ->
exists (m : positive) e,
  SFmul prec emax (S754_finite false mn en) (S754_finite false mi ei) =
    S754_finite false m e /\
  en + ei < e /\
  Z.pos m * 2 ^ (e - (en + ei)) <= Z.pos mn * Z.pos mi + 2 ^ 53.
Proof.
intros Hmn Hmi Hen Hei Hub. cbn [SFmul xorb].
set (M := (mn * mi)%positive).
assert (Z.pos M = Z.pos mn * Z.pos mi) as HM by done.
assert (2 ^ 104 <= Z.pos M < 2 ^ 106) as HMb by (rewrite HM; nia).
pose proof (Zdigits2_bounds M) as [Hlo Hhi].
assert (Z.pos (digits2_pos M) = 105 \/ Z.pos (digits2_pos M) = 106) as Hd.
{ assert (104 < Z.pos (digits2_pos M)).
  { apply (Z.pow_lt_mono_r_iff 2); lia. }
  assert (Z.pos (digits2_pos M) - 1 < 106).
  { apply (Z.pow_lt_mono_r_iff 2); lia. }
  lia. }
rewrite binary_round_aux_stages.
destruct Hd as [Hd|Hd]; rewrite Hd in Hlo, Hhi.
- destruct (shr_fexp_shifts M (en + ei) 52) as (mrs & -> & Hq & _);
    [lia|rewrite Hd, fexp_eq; lia|].
  assert (2 ^ 52 <= shr_m mrs < 2 ^ 53) as Hqb.
  { rewrite Hq. split.
    - apply Z.div_le_lower_bound; lia.
    - apply Z.div_lt_upper_bound; lia. }
  destruct (stage2_rounded false (shr_m mrs) (loc_of_shr_record mrs)
              (en + ei + 52) Hqb ltac:(lia))
    as (m & e' & -> & He' & Hval & _).
  exists m, e'. destruct (Z.leb_spec e' (emax - prec)) as [_|Hbig];
    [|unfold emax, prec in Hbig; lia].
  split; [done|]. split; [lia|].
  replace (e' - (en + ei)) with ((e' - (en + ei + 52)) + 52) by lia.
  rewrite Z.pow_add_r by lia.
  pose proof (Z.mul_div_le (Z.pos M) (2 ^ 52) ltac:(lia)) as Hfl.
  rewrite <- Hq in Hfl. rewrite <- HM. nia.
- destruct (shr_fexp_shifts M (en + ei) 53) as (mrs & -> & Hq & _);
    [lia|rewrite Hd, fexp_eq; lia|].
  assert (2 ^ 52 <= shr_m mrs < 2 ^ 53) as Hqb.
  { rewrite Hq. split.
    - apply Z.div_le_lower_bound; lia.
    - apply Z.div_lt_upper_bound; lia. }
  destruct (stage2_rounded false (shr_m mrs) (loc_of_shr_record mrs)
              (en + ei + 53) Hqb ltac:(lia))
    as (m & e' & -> & He' & Hval & Hcarry).
  exists m, e'.
  assert (e' <= 971) as Hfin.
  { destruct (Z.eq_dec e' (en + ei + 54)) as [Hc|]; [|lia].
    destruct (Z.eq_dec ei (-53)) as [->|]; [|lia].
    exfalso. specialize (Hcarry ltac:(lia)).
    change (2 ^ (-53 + 57)) with 16 in Hub.
    assert (shr_m mrs < m19); [|unfold m19 in *; lia].
    rewrite Hq. apply Z.div_lt_upper_bound; [lia|].
    rewrite HM. unfold m19 in *. nia. }
  destruct (Z.leb_spec e' (emax - prec)) as [_|Hbig];
    [|unfold emax, prec in Hbig; lia].
  split; [done|]. split; [lia|].
  replace (e' - (en + ei)) with ((e' - (en + ei + 53)) + 53) by lia.
  rewrite Z.pow_add_r by lia.
  pose proof (Z.mul_div_le (Z.pos M) (2 ^ 53) ltac:(lia)) as Hfl.
  rewrite <- Hq in Hfl. rewrite <- HM. nia.
Qed.

Lemma pos_iter_xO (p k : positive) :
Z.pos (Pos.iter xO p k) = Z.pos p * 2 ^ Z.pos k.
Proof.
induction k as [|k IH] using Pos.peano_ind.
- simpl. lia.
- rewrite Pos.iter_succ, Pos2Z.inj_xO, IH, Pos2Z.inj_succ, Z.pow_succ_r; lia.
Qed.

(** [float(n)] is exact on the frame counts a binary64 number can give. *)
Lemma of_int_exact count n :
valid_binary prec emax count = true ->
to_int count = Ok n -> 0 < n ->
exists (mn : positive) en,
  of_int n = Ok (S754_finite false mn en) /\
  2 ^ 52 <= Z.pos mn < 2 ^ 53 /\ -52 <= en <= 971 /\
  n * 2 ^ 52 = Z.pos mn * 2 ^ (en + 52).
Proof.
intros Hvalid Hint Hpos.
destruct count as [| | |s mc ec]; simpl in Hint; try done;
  [injection Hint as <-; lia|].
injection Hint as Hn.
assert (0 <= Z.shiftl (Z.pos mc) ec) as Hsh by (apply Z.shiftl_nonneg; lia).
destruct s; simpl in Hn; [lia|].
destruct n as [|np|np]; try lia.
pose proof (Zdigits2_bounds np) as [Hlo Hhi].
unfold of_int, binary_normalize, binary_round.
destruct (Z.lt_ge_cases (Z.pos np) (2 ^ 53)) as [Hsmall|Hbig].
- (* below 2^53: the mantissa is padded, nothing is rounded *)
  assert (Z.pos (digits2_pos np) <= 53) as Hd.
  { assert (Z.pos (digits2_pos np) - 1 < 53); [|lia].
    apply (Z.pow_lt_mono_r_iff 2); lia. }
  rewrite fexp_eq, Z.add_0_r.
  replace (Z.max (Z.pos (digits2_pos np) - 53) (-1074))
    with (Z.pos (digits2_pos np) - 53) by lia.
  unfold shl_align. rewrite Z.sub_0_r.
  destruct (Z.pos (digits2_pos np) - 53) as [|k|k] eqn:Ek; try lia.
  + rewrite binary_round_aux_fits by (rewrite fexp_eq; lia).
    simpl. exists np, 0. repeat split; try lia.
    replace (Z.pos (digits2_pos np)) with 53 in Hlo by lia. exact Hlo.
  + assert (Z.pos (Pos.iter xO np k) = Z.pos np * 2 ^ Z.pos k) as Hmz
      by apply pos_iter_xO.
    assert (2 ^ 52 <= Z.pos (Pos.iter xO np k) < 2 ^ 53) as Hmzb.
    { rewrite Hmz.
      replace 52 with ((Z.pos (digits2_pos np) - 1) + Z.pos k) by lia.
      replace 53 with (Z.pos (digits2_pos np) + Z.pos k) by lia.
      rewrite !Z.pow_add_r by lia.
      assert (0 < 2 ^ Z.pos k) by (apply Z.pow_pos_nonneg; lia).
      nia. }
    rewrite binary_round_aux_fits; cycle 1.
    { rewrite (Zdigits2_unique _ 53) by (simpl; lia). rewrite fexp_eq. lia. }
    destruct (Z.leb_spec (Z.neg k) (emax - prec)) as [_|H];
      [|unfold emax, prec in H; lia].
    exists (Pos.iter xO np k), (Z.neg k). repeat split; try lia.
    rewrite Hmz.
    replace 52 with (Z.pos k + (Z.neg k + 52)) at 1 by lia.
    rewrite Z.pow_add_r by lia. lia.
- (* from 2^53 on: the count itself comes back *)
  simpl in Hvalid. unfold bounded, canonical_mantissa in Hvalid.
  apply andb_prop in Hvalid as [Hcan Hmax].
  apply Z.eqb_eq in Hcan. apply Z.leb_le in Hmax.
  rewrite fexp_eq in Hcan. unfold emax, prec in Hmax.
  pose proof (Zdigits2_bounds mc) as [Hclo Hchi].
  assert (Z.pos mc < 2 ^ 53) as Hmc.
  { eapply Z.lt_le_trans; [exact Hchi|].
    apply Z.pow_le_mono_r; lia. }
  assert (0 < ec) as Hec.
  { destruct (Z.lt_ge_cases 0 ec) as [|Hle]; [done|]. exfalso.
    rewrite Z.shiftl_div_pow2 in Hn by lia.
    assert (Z.pos mc / 2 ^ (- ec) <= Z.pos mc); [|lia].
    apply Z.div_le_upper_bound; [apply Z.pow_pos_nonneg; lia|].
    assert (0 < 2 ^ (- ec)) by (apply Z.pow_pos_nonneg; lia). nia. }
  assert (Z.pos (digits2_pos mc) = 53) as Hdc by lia.
  rewrite Hdc in Hclo.
  rewrite Z.shiftl_mul_pow2 in Hn by lia.
  assert (0 < 2 ^ ec) as Hp by (apply Z.pow_pos_nonneg; lia).
  assert (Z.pos (digits2_pos np) = 53 + ec) as Hdn.
  { apply Zdigits2_unique. rewrite <- Hn.
    replace (53 + ec - 1) with (52 + ec) by lia.
    rewrite !Z.pow_add_r by lia. nia. }
  rewrite Z.add_0_r, Hdn, fexp_eq.
  replace (Z.max (53 + ec - 53) (-1074)) with ec by lia.
  unfold shl_align. rewrite Z.sub_0_r.
  destruct ec as [|pe|pe] eqn:Eec; try lia.
  rewrite binary_round_aux_stages.
  destruct (shr_fexp_shifts np 0 (Z.pos pe)) as (mrs & Hshr & _ & Hexact);
    [lia|rewrite Hdn, fexp_eq; lia|].
  rewrite Z.add_0_l in Hshr. rewrite Hshr.
  rewrite (Hexact (Z.pos mc)) by lia.
  cbn [shr_m loc_of_shr_record round_nearest_even].
  rewrite stage2_fits by (rewrite Hdc, fexp_eq; lia).
  destruct (Z.leb_spec (Z.pos pe) (emax - prec)) as [_|H];
    [|unfold emax, prec in H; lia].
  exists mc, (Z.pos pe). repeat split; try lia.
  rewrite <- Hn. rewrite (Z.pow_add_r 2 (Z.pos pe) 52) by lia. lia.
Qed.


Lemma fractions_ok i : 0 <= i < 20 -> frac_ok (int_truediv i 20) = true.
Proof.
intros Hi.
assert (forallb (fun i => frac_ok (int_truediv i 20)) (seqZ 0 20) = true) as H
  by (vm_compute; reflexivity).
rewrite forallb_forall in H. apply H.
apply list_elem_of_In, elem_of_seqZ. lia.
Qed.

Lemma shiftl_scaled m e t :
0 <= m -> 0 <= t -> 0 <= e + t -> Z.shiftl m e * 2 ^ t <= m * 2 ^ (e + t).
Proof.
intros Hm Ht Het. destruct (Z.lt_ge_cases e 0) as [Hneg|Hnn].
- rewrite Z.shiftl_div_pow2 by lia.
  replace t with ((- e) + (e + t)) at 1 by lia.
  rewrite Z.pow_add_r by lia.
  assert (0 < 2 ^ (- e)) by (apply Z.pow_pos_nonneg; lia).
  assert (0 <= 2 ^ (e + t)) by (apply Z.pow_nonneg; lia).
  pose proof (Z.mul_div_le m (2 ^ (- e)) ltac:(lia)). nia.
- rewrite Z.shiftl_mul_pow2 by lia. rewrite Z.pow_add_r by lia. lia.
Qed.

(** Each position [int(total_frames * (i/20))] is computed without an
  exception and lies below the frame count. *)
Lemma check_point_range count n i :
valid_binary prec emax count = true ->
to_int count = Ok n -> 0 < n -> 0 <= i < 20 ->
exists v, check_point n i = Ok v /\ 0 <= v < n.
Proof.
intros Hvalid Hint Hpos Hi.
destruct (of_int_exact count n Hvalid Hint Hpos)
  as (mn & en & Hof & Hmn & Hen & Hval).
pose proof (fractions_ok i Hi) as Hfrac.
unfold check_point. destruct (int_truediv i 20) as [frac|]; [|done].
cbn [mbind result_bind]. unfold int_mul. rewrite Hof. cbn [mbind result_bind].
destruct frac as [[]| | |[] mi ei]; try done.
- exists 0. split; [done|lia].
- simpl in Hfrac.
  repeat (apply andb_prop in Hfrac as [Hfrac ?]).
  repeat match goal with
         | H : (_ <=? _) = true |- _ => apply Z.leb_le in H
         | H : (_ <? _) = true |- _ => apply Z.ltb_lt in H
         end.
  destruct (mul_bound mn mi en ei) as (m & e & Hmul & He & Hbound);
    try lia.
  unfold mul. rewrite Hmul. cbn [to_int cond_Zopp].
  eexists. split; [reflexivity|]. split; [apply Z.shiftl_nonneg; lia|].
  pose proof (shiftl_scaled (Z.pos m) e (52 - ei) ltac:(lia) ltac:(lia)
                ltac:(lia)) as Hsc.
  assert (Z.pos m * 2 ^ (e + (52 - ei)) < n * 2 ^ (52 - ei)) as Hlt.
  { replace (e + (52 - ei)) with ((e - (en + ei)) + (en + 52)) by lia.
    rewrite Z.pow_add_r by lia.
    replace (52 - ei) with (52 + (- ei)) by lia.
    rewrite (Z.pow_add_r 2 52) by lia.
    assert (0 < 2 ^ (en + 52)) as HB by (apply Z.pow_pos_nonneg; lia).
    assert (Z.pos mn * Z.pos mi + 2 ^ 53 < Z.pos mn * 2 ^ (- ei)) as Hfrac'.
    { assert (ei = -57 \/ ei = -56 \/ ei = -55 \/ ei = -54 \/ ei = -53)
        as Hcases by lia.
      unfold m19 in *.
      destruct Hcases as [->|[->|[->|[->| ->]]]]; simpl in *; nia. }
    apply Z.le_lt_trans
      with ((Z.pos mn * Z.pos mi + 2 ^ 53) * 2 ^ (en + 52)).
    - rewrite Z.mul_assoc. apply Z.mul_le_mono_nonneg_r; lia.
    - replace (n * (2 ^ 52 * 2 ^ (- ei)))
        with (Z.pos mn * 2 ^ (- ei) * 2 ^ (en + 52))
        by (rewrite Z.mul_assoc, Hval; lia).
      apply Z.mul_lt_mono_pos_r; lia. }
  assert (0 < 2 ^ (52 - ei)) by (apply Z.pow_pos_nonneg; lia).
  nia.
Qed.
End PyFloatFacts.


(** ** The window policy *)

Lemma py_range_elem a b x : x ∈ py_range a b <-> a <= x < b.
Proof. unfold py_range. rewrite elem_of_seqZ. lia. Qed.

(** C6: the bounds of the window are those of the first, last or interior
    case, as decided by the checkpoint; and for ten frames the checkpoints
    0, 9 and 5 give the frames [0,5), [5,10) and [3,8). *)
Theorem window_policy :
  (forall total_frames point,
     window total_frames point =
       py_range (frames_to_check total_frames point).1
                (frames_to_check total_frames point).2 /\
     (point = 0 ->
        frames_to_check total_frames point = (0, Z.min 5 total_frames)) /\
     (point = total_frames - 1 ->
        frames_to_check total_frames point =
          (Z.max 0 (total_frames - 5), total_frames)) /\
     (point <> 0 -> point <> total_frames - 1 ->
        frames_to_check total_frames point =
          (Z.max 0 (point - 2), Z.min (point + 3) total_frames))) /\
  frames_to_check 10 0 = (0, 5) /\ window 10 0 = [0; 1; 2; 3; 4] /\
  frames_to_check 10 9 = (5, 10) /\ window 10 9 = [5; 6; 7; 8; 9] /\
  frames_to_check 10 5 = (3, 8) /\ window 10 5 = [3; 4; 5; 6; 7].
Proof.
  split; [|by vm_compute].
  intros total_frames point. unfold window, frames_to_check.
  destruct (Z.eqb_spec point 0) as [->|H0];
    [|destruct (Z.eqb_spec point (total_frames - 1)) as [->|H1]].
  - repeat split; intros; try done; f_equal; lia.
  - repeat split; intros; try done; f_equal; lia.
  - repeat split; intros; done.
Qed.

Lemma window_policy_witness :
  frames_to_check 10 0 = (0, Z.min 5 10) /\
  frames_to_check 10 9 = (Z.max 0 (10 - 5), 10) /\
  frames_to_check 10 5 = (Z.max 0 (5 - 2), Z.min (5 + 3) 10).
Proof.
  split; [|split].
  - apply (proj1 window_policy 10 0). reflexivity.
  - apply (proj1 window_policy 10 9). reflexivity.
  - apply (proj1 window_policy 10 5); discriminate.
Defined.

(** ** Text that can be encoded *)

Lemma encode_encodable s : encodable s -> encode s = Ok tt.
Proof.
  unfold encodable, encode. intros H.
  destruct (List.find is_surrogate s) as [c|] eqn:E; [|done].
  apply find_some in E as [Hin Hc]. apply list_elem_of_In in Hin.
  rewrite Forall_forall in H. rewrite (H c Hin) in Hc. done.
Qed.

Lemma encode_surrogate s1 c s2 :
  encodable s1 -> is_surrogate c = true ->
  encode (s1 ++ c :: s2) = Err (UnicodeEncodeError c).
Proof.
  unfold encodable, encode. intros H Hc. induction H as [|c1 s1 Hc1 _ IH]; simpl.
  - by rewrite Hc.
  - rewrite Hc1. exact IH.
Qed.

Lemma first_surrogate (s : str) :
  ~ encodable s ->
  exists s1 c s2, s = s1 ++ c :: s2 /\ encodable s1 /\ is_surrogate c = true.
Proof.
  induction s as [|c s IH]; intros H.
  - destruct H. constructor.
  - destruct (is_surrogate c) eqn:Hc.
    + exists [], c, s. split; [done|]. split; [constructor|done].
    + destruct IH as (s1 & c' & s2 & -> & Hs1 & Hc').
      { intros Hs. apply H. by constructor. }
      exists (c :: s1), c', s2. split; [done|]. split; [by constructor|done].
Qed.

Lemma encodable_app (s1 s2 : str) :
  encodable s1 -> encodable s2 -> encodable (s1 ++ s2).
Proof. intros H1 H2. apply Forall_app. by split. Qed.

Lemma encodable_lit (s : string) : encodable (lit s).
Proof.
  unfold encodable, lit. apply Forall_map, Forall_true. intros a. simpl.
  pose proof (N_ascii_bounded a) as Ha. unfold is_surrogate.
  apply andb_false_intro1, N.leb_gt. lia.
Qed.

Lemma encodable_str_of_int (z : Z) : encodable (str_of_int z).
Proof. apply encodable_lit. Qed.

Lemma basename_from_elem (p : str) : forall cur c,
  c ∈ basename_from cur p -> c ∈ cur \/ c ∈ p.
Proof.
  induction p as [|d rest IH]; intros cur c Hc; simpl in Hc; [by left|].
  destruct (d =? 47)%N.
  - destruct (IH _ _ Hc) as [Hnil|Hrest]; [by apply elem_of_nil in Hnil|].
    right. set_solver.
  - destruct (IH _ _ Hc) as [Hcur|Hrest]; set_solver.
Qed.

(** The base name of a path that can be encoded can be encoded. *)
Lemma basename_encodable (p : str) : encodable p -> encodable (basename p).
Proof.
  unfold encodable. rewrite !Forall_forall. intros Hp c Hc.
  apply basename_from_elem in Hc as [Hnil|Hc]; [by apply elem_of_nil in Hnil|].
  by apply Hp.
Qed.

(** The notice of line 55 can be printed when the base name can, and
    only then. *)
Lemma checkpoint_notice_encodable video_path i n error_type :
  encodable (basename video_path) ->
  encodable (checkpoint_notice video_path i n error_type).
Proof.
  intros Hname. unfold checkpoint_notice.
  repeat (apply encodable_app); try done;
    try apply encodable_str_of_int; try apply encodable_lit;
    try (repeat constructor).
  unfold py_bool. destruct (negb _); apply encodable_lit.
Qed.


(** ** The probe, step by step *)

Section ProbeFacts.
Context {W : Type} (cv2 : Backend W) (live : W -> Prop).

Lemma bind_next {A B} (c : M W A) (k : A -> M W B) m a m' :
  c m = (Next a, m') -> (c ≫= k) m = k a m'.
Proof. intros H. unfold mbind, M_bind. by rewrite H. Qed.

Lemma bind_return {A B} (c : M W A) (k : A -> M W B) m v m' :
  c m = (Return_ v, m') -> (c ≫= k) m = (Return_ v, m').
Proof. intros H. unfold mbind, M_bind. by rewrite H. Qed.

Lemma bind_raise {A B} (c : M W A) (k : A -> M W B) m e m' :
  c m = (Raise e, m') -> (c ≫= k) m = (Raise e, m').
Proof. intros H. unfold mbind, M_bind. by rewrite H. Qed.

Lemma advance_advance (m : machine W) w1 l1 c1 w2 l2 c2 :
  advance (advance m w1 l1 c1) w2 l2 c2 = advance m w2 (l1 ++ l2) (c1 ++ c2).
Proof. unfold advance. simpl. by rewrite !app_assoc. Qed.

Lemma advance_id (m : machine W) : advance m (world m) [] [] = m.
Proof. destruct m. unfold advance. simpl. by rewrite !app_nil_r. Qed.

(** A call on a bound [cap], by what the backend answers. *)
Lemma invoke_ok {A} c (op : W -> result A * W) (m : machine W) a w :
  op (world m) = (Ok a, w) -> invoke c op m = (Next a, advance m w [] [c]).
Proof.
  intros H. unfold invoke, advance. rewrite H. by rewrite app_nil_r.
Qed.

Lemma invoke_err {A} c (op : W -> result A * W) (m : machine W) e w :
  op (world m) = (Err e, w) -> invoke c op m = (Raise e, advance m w [] [c]).
Proof.
  intros H. unfold invoke, advance. rewrite H. by rewrite app_nil_r.
Qed.

Lemma cap_bound_ok (m : machine W) : cap_bound m = true -> cap m = (Next tt, m).
Proof. intros H. unfold cap. by rewrite H. Qed.

Lemma append_advance entry (m : machine W) :
  append entry m = (Next tt, advance m (world m) [entry] []).
Proof. unfold append, advance. by rewrite app_nil_r. Qed.

(** One attempt, by what the frame does. *)
Lemma attempt_usable i frame_idx (m : machine W) w1 w2 r :
  cap_bound m = true ->
  set_pos_frames cv2 frame_idx (world m) = (Ok tt, w1) ->
  read cv2 w1 = (Ok r, w2) ->
  attempt cv2 i frame_idx m =
    (Next (usable r),
     advance m w2 [LogAttempt i frame_idx (usable r)] (attempt_calls frame_idx)).
Proof.
  intros Hcap Hset Hread. unfold attempt, cap_set, cap_read.
  rewrite (bind_next _ _ m tt (advance m w1 [] [CallSet frame_idx])); cycle 1.
  { rewrite (bind_next _ _ _ _ _ (cap_bound_ok _ Hcap)). by apply invoke_ok. }
  rewrite (bind_next _ _ _ r
             (advance (advance m w1 [] [CallSet frame_idx]) w2 [] [CallRead]));
    cycle 1.
  { rewrite (bind_next _ _ _ tt (advance m w1 [] [CallSet frame_idx]));
      [by apply invoke_ok | by apply cap_bound_ok]. }
  rewrite advance_advance. simpl. fold (usable r).
  destruct (usable r);
    (erewrite bind_next by apply append_advance);
    by rewrite advance_advance.
Qed.

Lemma attempt_decodes i frame_idx (m : machine W) :
  decodes cv2 live frame_idx -> live (world m) -> cap_bound m = true ->
  exists w, live w /\
    attempt cv2 i frame_idx m =
      (Next true,
       advance m w [LogAttempt i frame_idx true] (attempt_calls frame_idx)).
Proof.
  intros Hdec Hlive Hcap.
  destruct (Hdec _ Hlive) as (w1 & w2 & r & Hset & Hread & Hr & Hlive2).
  exists w2. split; [done|].
  rewrite (attempt_usable _ _ _ _ _ _ Hcap Hset Hread). by rewrite Hr.
Qed.

Lemma attempt_fails i frame_idx (m : machine W) :
  fails_to_decode cv2 live frame_idx -> live (world m) -> cap_bound m = true ->
  exists w, live w /\
    attempt cv2 i frame_idx m =
      (Next false,
       advance m w [LogAttempt i frame_idx false] (attempt_calls frame_idx)).
Proof.
  intros Hdec Hlive Hcap.
  destruct (Hdec _ Hlive) as (w1 & w2 & r & Hset & Hread & Hr & Hlive2).
  exists w2. split; [done|].
  rewrite (attempt_usable _ _ _ _ _ _ Hcap Hset Hread). by rewrite Hr.
Qed.

(** A window whose frames all fail is scanned to its end. *)
Lemma scan_frames_exhausted i frames (m : machine W) :
  Forall (fails_to_decode cv2 live) frames ->
  live (world m) -> cap_bound m = true ->
  exists w, live w /\
    scan_frames cv2 i frames m =
      (Next false, advance m w (failures i frames) (attempts_calls frames)).
Proof.
  intros Hall. revert m. induction Hall as [|frame_idx rest Hf _ IH];
    intros m Hlive Hcap.
  - exists (world m). split; [done|]. simpl. by rewrite advance_id.
  - destruct (attempt_fails i _ _ Hf Hlive Hcap) as (w1 & Hlive1 & Hatt).
    destruct (IH (advance m w1 [LogAttempt i frame_idx false]
                    (attempt_calls frame_idx)) Hlive1 Hcap)
      as (w2 & Hlive2 & Hscan).
    exists w2. split; [done|]. simpl scan_frames.
    rewrite (bind_next _ _ _ _ _ Hatt). simpl. rewrite Hscan.
    by rewrite advance_advance.
Qed.

(** A window that yields a success is scanned up to that success. *)
Lemma scan_frames_success i before frame_idx after (m : machine W) :
  Forall (fails_to_decode cv2 live) before ->
  decodes cv2 live frame_idx ->
  live (world m) -> cap_bound m = true ->
  exists w, live w /\
    scan_frames cv2 i (before ++ frame_idx :: after) m =
      (Next true,
       advance m w (failures i before ++ [LogAttempt i frame_idx true])
         (attempts_calls (before ++ [frame_idx]))).
Proof.
  intros Hall Hdec. revert m. induction Hall as [|g rest Hf _ IH];
    intros m Hlive Hcap.
  - destruct (attempt_decodes i _ _ Hdec Hlive Hcap) as (w1 & Hlive1 & Hatt).
    exists w1. split; [done|]. simpl scan_frames.
    rewrite (bind_next _ _ _ _ _ Hatt). done.
  - destruct (attempt_fails i _ _ Hf Hlive Hcap) as (w1 & Hlive1 & Hatt).
    destruct (IH (advance m w1 [LogAttempt i g false] (attempt_calls g))
                Hlive1 Hcap) as (w2 & Hlive2 & Hscan).
    exists w2. split; [done|]. simpl scan_frames.
    rewrite (bind_next _ _ _ _ _ Hatt). simpl. rewrite Hscan.
    by rewrite advance_advance.
Qed.

Lemma set_error_type_classified v (m : machine W) :
  set_error_type v m = (Next tt, classified v m).
Proof. done. Qed.

Lemma cap_release_bound (m : machine W) :
  cap_bound m = true ->
  cap_release cv2 m = (Next tt, advance m (release cv2 (world m)) [] [CallRelease]).
Proof.
  intros Hcap. unfold cap_release.
  rewrite (bind_next _ _ _ _ _ (cap_bound_ok _ Hcap)). by apply invoke_ok.
Qed.

Lemma cap_release_unbound (m : machine W) :
  cap_bound m = false ->
  cap_release cv2 m = (Raise (UnboundLocalError (lit "cap")), m).
Proof.
  intros Hcap. unfold cap_release. apply bind_raise. unfold cap. by rewrite Hcap.
Qed.

(** Line 55, by whether the base name can be printed. *)
Lemma print_notice_ok video_path i n (m : machine W) :
  encodable (basename video_path) ->
  print_notice video_path i n m = (Next tt, m).
Proof.
  intros Hname. unfold print_notice, py_print.
  by rewrite (encode_encodable _ (checkpoint_notice_encodable _ _ _ _ Hname)).
Qed.


(** Either way the notice leaves the machine as it is. *)
Lemma print_notice_cases video_path i n (m : machine W) r m' :
  print_notice video_path i n m = (r, m') ->
  m' = m /\ (r = Next tt \/ exists e, r = Raise e).
Proof.
  unfold print_notice, py_print.
  destruct (encode _) as [[]|e]; intros [= <- <-]; eauto.
Qed.

(** Lines 79-83: a window without a success ends the probe, whatever
    would follow. *)
Lemma check_window_exhausted total_frames i point next (m : machine W) :
  Forall (fails_to_decode cv2 live) (window total_frames point) ->
  live (world m) -> cap_bound m = true ->
  exists w,
    check_window cv2 total_frames i point next m =
      (Return_ (DecodeFailure,
                step_log m ++ failures i (window total_frames point)
                  ++ [LogAllFailed point]),
       classified DecodeFailure
         (advance m w
            (failures i (window total_frames point) ++ [LogAllFailed point])
            (attempts_calls (window total_frames point) ++ [CallRelease]))).
Proof.
  intros Hall Hlive Hcap.
  destruct (scan_frames_exhausted i _ m Hall Hlive Hcap) as (w1 & Hlive1 & Hscan).
  exists (release cv2 w1). unfold check_window.
  rewrite (bind_next _ _ _ _ _ Hscan). simpl.
  erewrite bind_next by apply set_error_type_classified.
  erewrite bind_next by apply append_advance.
  erewrite bind_next by (apply cap_release_bound; exact Hcap).
  unfold return_, classified, advance. simpl. by rewrite <- !app_assoc.
Qed.

(** Lines 53-83 at a checkpoint whose notice can be printed and whose
    window has no success. *)
Lemma check_loop_exhausted video_path n total_frames i point rest
    (m : machine W) :
  encodable (basename video_path) ->
  Forall (fails_to_decode cv2 live) (window total_frames point) ->
  live (world m) -> cap_bound m = true ->
  exists w,
    check_loop cv2 video_path n total_frames i (point :: rest) m =
      (Return_ (DecodeFailure,
                step_log m ++ failures i (window total_frames point)
                  ++ [LogAllFailed point]),
       classified DecodeFailure
         (advance m w
            (failures i (window total_frames point) ++ [LogAllFailed point])
            (attempts_calls (window total_frames point) ++ [CallRelease]))).
Proof.
  intros Hname Hall Hlive Hcap. simpl check_loop.
  rewrite (bind_next _ _ _ _ _ (print_notice_ok video_path i n m Hname)).
  by apply check_window_exhausted.
Qed.

(** Lines 57-77: a window that yields a success hands over to what
    follows. *)
Lemma check_window_passes total_frames i point next before frame_idx after
    (m : machine W) :
  window total_frames point = before ++ frame_idx :: after ->
  Forall (fails_to_decode cv2 live) before ->
  decodes cv2 live frame_idx ->
  live (world m) -> cap_bound m = true ->
  exists w,
    live w /\
    scan_frames cv2 i (window total_frames point) m =
      (Next true,
       advance m w (failures i before ++ [LogAttempt i frame_idx true])
         (attempts_calls (before ++ [frame_idx]))) /\
    check_window cv2 total_frames i point next m =
      next (advance m w (failures i before ++ [LogAttempt i frame_idx true])
              (attempts_calls (before ++ [frame_idx]))).
Proof.
  intros Hwin Hbefore Hdec Hlive Hcap.
  destruct (scan_frames_success i before frame_idx after m Hbefore Hdec Hlive Hcap)
    as (w1 & Hlive1 & Hscan).
  exists w1. split; [done|]. rewrite Hwin. split; [done|].
  unfold check_window. rewrite Hwin.
  by rewrite (bind_next _ _ _ _ _ Hscan).
Qed.

(** Lines 53-77: checkpoints whose notices can be printed and whose
    windows all yield a success are passed one after the other, and
    nothing but attempts is logged. *)
Lemma check_loop_passes video_path n total_frames points :
  forall i (m : machine W),
  encodable (basename video_path) ->
  Forall (fun point => yields_success cv2 live (window total_frames point)) points ->
  live (world m) -> cap_bound m = true ->
  exists w entries cs,
    check_loop cv2 video_path n total_frames i points m =
      (Next tt, advance m w entries cs) /\
    live w /\
    Forall (attempt_between i (i + Z.of_nat (length points))) entries /\
    Forall is_probe_call cs.
Proof.
  induction points as [|point rest IH]; intros i m Hname Hall Hlive Hcap.
  - exists (world m), [], []. rewrite advance_id. by repeat split.
  - apply Forall_cons in Hall as [Hpoint Hrest].
    destruct Hpoint as (before & frame_idx & after & Hwin & Hbefore & Hdec).
    destruct (check_window_passes total_frames i point
                (check_loop cv2 video_path n total_frames (i + 1) rest)
                before frame_idx after m Hwin Hbefore Hdec Hlive Hcap)
      as (w1 & Hlive1 & _ & Hwindow).
    destruct (IH (i + 1)
                (advance m w1 (failures i before ++ [LogAttempt i frame_idx true])
                   (attempts_calls (before ++ [frame_idx])))
                Hname Hrest Hlive1 Hcap)
      as (w2 & entries & cs & Hloop & Hlive2 & Hentries & Hcs).
    exists w2, ((failures i before ++ [LogAttempt i frame_idx true]) ++ entries),
      (attempts_calls (before ++ [frame_idx]) ++ cs).
    split; [|split; [done|split]].
    + simpl check_loop.
      rewrite (bind_next _ _ _ _ _ (print_notice_ok video_path i n m Hname)).
      rewrite Hwindow, Hloop. by rewrite advance_advance.
    + rewrite length_cons. apply Forall_app. split.
      * apply Forall_app. split.
        -- unfold failures. apply Forall_map. apply Forall_true.
           intros g. simpl. lia.
        -- apply Forall_singleton. simpl. lia.
      * eapply Forall_impl; [exact Hentries|].
        intros [] ; simpl; try done. lia.
    + apply Forall_app. split; [|done]. unfold attempts_calls.
      apply Forall_flat_map. apply Forall_true. intros g.
      unfold attempt_calls. by repeat constructor.
Qed.
End ProbeFacts.

(** ** The probe, as a whole *)

Section RunFacts.
Context {W : Type} (cv2 : Backend W) (live : W -> Prop).

Lemma cap_assign_ok video_path (w w1 : W) :
  VideoCapture cv2 video_path w = (Ok tt, w1) ->
  cap_assign cv2 video_path (initial w) =
    (Next tt, {| world := w1; error_type := 0; step_log := []; cap_bound := true;
                 calls := [CallVideoCapture video_path] |}).
Proof.
  intros H. unfold cap_assign.
  erewrite bind_next by (apply invoke_ok; exact H). done.
Qed.

Lemma cap_assign_raises video_path (w w1 : W) e :
  VideoCapture cv2 video_path w = (Err e, w1) ->
  try_body cv2 video_path (initial w) =
    (Raise e, {| world := w1; error_type := 0; step_log := []; cap_bound := false;
                 calls := [CallVideoCapture video_path] |}).
Proof.
  intros H. unfold try_body, cap_assign.
  apply bind_raise, bind_raise. erewrite invoke_err by exact H. done.
Qed.

(** Lines 32-50 for a file that opens and has frames. *)
Lemma try_body_opened video_path (w w3 : W) total_frames points :
  opens_with cv2 video_path w total_frames w3 ->
  0 < total_frames ->
  check_points total_frames = Ok points ->
  try_body cv2 video_path (initial w) =
    check_loop cv2 video_path (Z.of_nat (length points)) total_frames 0 points
      (opened_machine video_path w3).
Proof.
  intros (w1 & w2 & count & Hopen & Hopened & Hget & _ & Hint) Hpos Hpoints.
  unfold try_body.
  erewrite bind_next by (apply cap_assign_ok; exact Hopen).
  unfold cap_isOpened.
  erewrite (bind_next (cap ≫= _)); cycle 1.
  { erewrite bind_next by (by apply cap_bound_ok).
    apply invoke_ok. exact Hopened. }
  change (negb true) with false. cbv iota.
  erewrite bind_next by apply append_advance.
  unfold cap_get.
  erewrite (bind_next (cap ≫= _)); cycle 1.
  { erewrite bind_next by (by apply cap_bound_ok).
    apply invoke_ok. exact Hget. }
  cbv beta. rewrite Hint.
  erewrite (bind_next (lift (Ok total_frames))) by done.
  destruct (Z.leb_spec total_frames 0) as [|_]; [lia|].
  rewrite Hpoints.
  erewrite (bind_next (lift (Ok points))) by done.
  done.
Qed.

(** Lines 32-36 for a file that does not open. *)
Lemma try_body_not_opened video_path (w w2 : W) :
  does_not_open cv2 video_path w w2 ->
  try_body cv2 video_path (initial w) =
    (Return_ (OpenFailure, [LogOpenFailed]),
     {| world := w2; error_type := OpenFailure; step_log := [LogOpenFailed];
        cap_bound := true; calls := [CallVideoCapture video_path; CallIsOpened] |}).
Proof.
  intros (w1 & Hopen & Hopened). unfold try_body.
  erewrite bind_next by (apply cap_assign_ok; exact Hopen).
  unfold cap_isOpened.
  erewrite (bind_next (cap ≫= _)); cycle 1.
  { erewrite bind_next by (by apply cap_bound_ok).
    apply invoke_ok. exact Hopened. }
  change (negb false) with true. cbv iota.
  erewrite bind_next by apply set_error_type_classified.
  erewrite bind_next by apply append_advance.
  done.
Qed.

(** Lines 85-91 after a [return] inside the [try]. *)
Lemma run_after_return video_path (w : W) v m1 :
  try_body cv2 video_path (initial w) = (Return_ v, m1) ->
  cap_bound m1 = true ->
  run_analyze_video cv2 video_path w =
    (Return_ v, advance m1 (release cv2 (world m1)) [] [CallRelease]).
Proof.
  intros Hbody Hcap. unfold run_analyze_video. apply bind_return.
  unfold try_except_finally. rewrite Hbody. simpl.
  by rewrite (cap_release_bound _ _ Hcap).
Qed.

(** Lines 85-91 after the [try] has run to its end. *)
Lemma run_after_next video_path (w : W) m1 :
  try_body cv2 video_path (initial w) = (Next tt, m1) ->
  cap_bound m1 = true ->
  run_analyze_video cv2 video_path w =
    (Return_ (error_type m1, step_log m1),
     advance m1 (release cv2 (world m1)) [] [CallRelease]).
Proof.
  intros Hbody Hcap. unfold run_analyze_video.
  erewrite bind_next; cycle 1.
  { unfold try_except_finally. rewrite Hbody. simpl.
    by rewrite (cap_release_bound _ _ Hcap). }
  unfold return_, advance. simpl. by rewrite app_nil_r.
Qed.

(** Lines 85-91 after an exception with [cap] bound. *)
Lemma run_after_raise video_path (w : W) e m1 :
  try_body cv2 video_path (initial w) = (Raise e, m1) ->
  cap_bound m1 = true ->
  run_analyze_video cv2 video_path w =
    (Return_ (DecodeFailure, step_log m1 ++ [LogException e]),
     classified DecodeFailure
       (advance m1 (release cv2 (world m1)) [LogException e] [CallRelease])).
Proof.
  intros Hbody Hcap. unfold run_analyze_video.
  erewrite bind_next; cycle 1.
  { unfold try_except_finally. rewrite Hbody. unfold handler.
    erewrite bind_next by apply set_error_type_classified.
    rewrite append_advance. simpl.
    rewrite cap_release_bound by done. simpl. reflexivity. }
  unfold return_, classified, advance. simpl. by rewrite !app_nil_r.
Qed.

(** Lines 85-91 after an exception with [cap] unbound: the [finally]
    block itself raises. *)
Lemma run_after_raise_unbound video_path (w : W) e m1 :
  try_body cv2 video_path (initial w) = (Raise e, m1) ->
  cap_bound m1 = false ->
  run_analyze_video cv2 video_path w =
    (Raise (UnboundLocalError (lit "cap")),
     classified DecodeFailure (advance m1 (world m1) [LogException e] [])).
Proof.
  intros Hbody Hcap. unfold run_analyze_video. apply bind_raise.
  unfold try_except_finally. rewrite Hbody. unfold handler.
  erewrite bind_next by apply set_error_type_classified.
  rewrite append_advance. simpl.
  by rewrite cap_release_unbound.
Qed.
End RunFacts.

(** ** Early exit, exhaustion, open failure *)

Section LoopFacts.
Context {W : Type} (cv2 : Backend W).

(** The [else] branch of line 79 never falls through. *)
Lemma give_up_not_next point (m m' : machine W) (a : unit) :
  (set_error_type DecodeFailure;; append (LogAllFailed point);;
   cap_release cv2;; return_ : M W unit) m <> (Next a, m').
Proof.
  erewrite bind_next by apply set_error_type_classified.
  erewrite bind_next by apply append_advance.
  unfold mbind, M_bind. destruct (cap_release cv2 _) as [[| |] ?]; by simpl.
Qed.

(** Checkpoints that were passed can be set aside. *)
Lemma check_loop_app video_path n total_frames rest before :
  forall i (m m' : machine W),
  check_loop cv2 video_path n total_frames i before m = (Next tt, m') ->
  check_loop cv2 video_path n total_frames i (before ++ rest) m =
    check_loop cv2 video_path n total_frames (i + Z.of_nat (length before))
      rest m'.
Proof.
  induction before as [|point before IH]; intros i m m' H.
  - simpl in *. injection H as <-. f_equal. lia.
  - simpl in *. unfold check_window, mbind, M_bind in *.
    destruct (print_notice video_path i n m) as [[[]| |] m0]; try done.
    destruct (scan_frames cv2 i (window total_frames point) m0)
      as [[success| |] m1]; try done.
    destruct success.
    + rewrite (IH _ _ _ H). f_equal. lia.
    + by apply give_up_not_next in H.
Qed.
End LoopFacts.

(** C7: when a frame of a window decodes, the frames before it having
    failed, the scan of that window ends with it: the calls made are those
    for the frames up to it and for none after it, the log gains one entry
    per frame attempted, and the probe goes on with the next checkpoint:
    the turn of the loop, once its notice is printed, is the rest of the
    loop run from there, and so is the whole turn when the notice can be
    printed.  When it is the first frame of the window, the window adds
    exactly one entry to the log. *)
Theorem early_exit {W} (cv2 : Backend W) (live : W -> Prop)
    video_path n total_frames i point rest before frame_idx after
    (m : machine W) :
  window total_frames point = before ++ frame_idx :: after ->
  Forall (fails_to_decode cv2 live) before ->
  decodes cv2 live frame_idx ->
  live (world m) -> cap_bound m = true ->
  exists w entries,
    let m' := advance m w entries (attempts_calls (before ++ [frame_idx])) in
    live w /\
    entries = failures i before ++ [LogAttempt i frame_idx true] /\
    scan_frames cv2 i (window total_frames point) m = (Next true, m') /\
    check_window cv2 total_frames i point
      (check_loop cv2 video_path n total_frames (i + 1) rest) m =
      check_loop cv2 video_path n total_frames (i + 1) rest m' /\
    (encodable (basename video_path) ->
     check_loop cv2 video_path n total_frames i (point :: rest) m =
       check_loop cv2 video_path n total_frames (i + 1) rest m') /\
    (before = [] -> entries = [LogAttempt i frame_idx true]).
Proof.
  intros Hwin Hbefore Hdec Hlive Hcap.
  destruct (check_window_passes cv2 live total_frames i point
              (check_loop cv2 video_path n total_frames (i + 1) rest)
              before frame_idx after m Hwin Hbefore Hdec Hlive Hcap)
    as (w & Hlive' & Hscan & Hwindow).
  exists w, (failures i before ++ [LogAttempt i frame_idx true]).
  cbv zeta. repeat split; try done.
  - intros Hname. simpl check_loop.
    by rewrite (bind_next _ _ _ _ _ (print_notice_ok video_path i n m Hname)).
  - by intros ->.
Qed.

Lemma early_exit_witness :
  exists w entries,
    let m' := advance (opened_machine (lit "clip.mp4") 0) w entries
                (attempts_calls ([3; 4] ++ [5])) in
    anywhere w /\
    entries = failures 5 [3; 4] ++ [LogAttempt 5 5 true] /\
    scan_frames (damaged_backend [3; 4]) 5 (window 10 5)
      (opened_machine (lit "clip.mp4") 0) = (Next true, m') /\
    check_window (damaged_backend [3; 4]) 10 5 5
      (check_loop (damaged_backend [3; 4]) (lit "clip.mp4") 10 10 (5 + 1)
         [6; 7; 8; 9])
      (opened_machine (lit "clip.mp4") 0) =
      check_loop (damaged_backend [3; 4]) (lit "clip.mp4") 10 10 (5 + 1)
        [6; 7; 8; 9] m' /\
    (encodable (basename (lit "clip.mp4")) ->
     check_loop (damaged_backend [3; 4]) (lit "clip.mp4") 10 10 5
       (5 :: [6; 7; 8; 9]) (opened_machine (lit "clip.mp4") 0) =
       check_loop (damaged_backend [3; 4]) (lit "clip.mp4") 10 10 (5 + 1)
         [6; 7; 8; 9] m') /\
    ([3; 4] = [] -> entries = [LogAttempt 5 5 true]).
Proof.
  apply (early_exit (damaged_backend [3; 4]) anywhere (lit "clip.mp4") 10
           10 5 5 [6; 7; 8; 9] [3; 4] 5 [6; 7]).
  - reflexivity.
  - repeat constructor; intros w _; eexists _, _, _; simpl; repeat split.
  - intros w _; eexists _, _, _; simpl; repeat split.
  - exact I.
  - reflexivity.
Defined.

(** C8: a window that is attempted and has no success ends the probe.
    Whatever the turns of the loop that would follow, the turn of
    [point], once its notice is printed, returns DecodeFailure with the
    failed attempts of the window and the entry that all frames around
    [point] failed added to the log, and calls nothing after those
    attempts but [release].  For the whole probe: in a file that opens,
    whose notices can be printed (the base name has no lone surrogate)
    and in which the windows of the checkpoints before [point] each yield
    a success, so that the window of [point] is reached, the file is
    classified DecodeFailure, the log ends with those entries, and after
    the attempts of that window the backend is only released, so that no
    window of a later checkpoint is looked at. *)
Theorem window_exhaustion {W} (cv2 : Backend W) (live : W -> Prop)
    total_frames point :
  Forall (fails_to_decode cv2 live) (window total_frames point) ->
  (forall i next (m : machine W), live (world m) -> cap_bound m = true ->
     exists w1,
       check_window cv2 total_frames i point next m =
         (Return_ (DecodeFailure,
                   step_log m ++ failures i (window total_frames point)
                     ++ [LogAllFailed point]),
          classified DecodeFailure
            (advance m w1
               (failures i (window total_frames point) ++ [LogAllFailed point])
               (attempts_calls (window total_frames point) ++ [CallRelease])))) /\
  (forall video_path (w w3 : W) before after,
     opens_with cv2 video_path w total_frames w3 -> live w3 ->
     0 < total_frames ->
     check_points total_frames = Ok (before ++ point :: after) ->
     encodable (basename video_path) ->
     Forall (fun p => yields_success cv2 live (window total_frames p)) before ->
     exists entries cs w',
       let i := Z.of_nat (length before) in
       let log := [LogOpenOk] ++ entries ++
                  failures i (window total_frames point) ++
                  [LogAllFailed point] in
       analyze_video cv2 video_path w = (Returned DecodeFailure log, w') /\
       calls (run_analyze_video cv2 video_path w).2 =
         [CallVideoCapture video_path; CallIsOpened; CallGet] ++ cs ++
         attempts_calls (window total_frames point) ++
         [CallRelease; CallRelease] /\
       Forall (attempt_between 0 i) entries /\
       Forall is_probe_call cs).
Proof.
  intros Hfail.
  split; [intros i next m Hm Hcap; by apply (check_window_exhausted cv2 live)|].
  intros video_path w w3 before after Hopens Hlive Hpos Hpoints Hname Hbefore.
  pose proof (try_body_opened cv2 _ _ _ _ _ Hopens Hpos Hpoints) as Hbody.
  destruct (check_loop_passes cv2 live video_path
              (Z.of_nat (length (before ++ point :: after))) total_frames
              before 0 (opened_machine video_path w3) Hname Hbefore Hlive
              eq_refl)
    as (w4 & entries & cs & Hloop & Hlive4 & Hentries & Hcs).
  rewrite (check_loop_app cv2 _ _ _ _ _ _ _ _ Hloop) in Hbody.
  destruct (check_loop_exhausted cv2 live video_path
              (Z.of_nat (length (before ++ point :: after))) total_frames
              (0 + Z.of_nat (length before)) point after
              (advance (opened_machine video_path w3) w4 entries cs)
              Hname Hfail Hlive4 eq_refl) as (w5 & Hexh).
  rewrite Hexh in Hbody.
  pose proof (run_after_return cv2 _ _ _ _ Hbody eq_refl) as Hrun.
  exists entries, cs, (release cv2 w5). cbv zeta.
  unfold analyze_video. rewrite Hrun. simpl.
  rewrite Z.add_0_l in *. repeat split; try done.
  by rewrite <- !app_assoc.
Qed.

Lemma window_exhaustion_witness :
  (forall i next (m : machine Z), anywhere (world m) -> cap_bound m = true ->
     exists w1,
       check_window (damaged_backend [3; 4; 5; 6; 7]) 10 i 5 next m =
         (Return_ (DecodeFailure,
                   step_log m ++ failures i (window 10 5) ++ [LogAllFailed 5]),
          classified DecodeFailure
            (advance m w1
               (failures i (window 10 5) ++ [LogAllFailed 5])
               (attempts_calls (window 10 5) ++ [CallRelease])))) /\
  exists entries cs w',
    let i := Z.of_nat (length [0; 1; 2; 3; 4]) in
    let log := [LogOpenOk] ++ entries ++
               failures i (window 10 5) ++ [LogAllFailed 5] in
    analyze_video (damaged_backend [3; 4; 5; 6; 7]) (lit "clip.mp4") 0 =
      (Returned DecodeFailure log, w') /\
    calls (run_analyze_video (damaged_backend [3; 4; 5; 6; 7]) (lit "clip.mp4") 0).2 =
      [CallVideoCapture (lit "clip.mp4"); CallIsOpened; CallGet] ++ cs ++
      attempts_calls (window 10 5) ++ [CallRelease; CallRelease] /\
    Forall (attempt_between 0 i) entries /\
    Forall is_probe_call cs.
Proof.
  destruct (window_exhaustion (damaged_backend [3; 4; 5; 6; 7]) anywhere 10 5)
    as [Hwindow Hprobe].
  { repeat constructor; intros w _; eexists _, _, _; simpl; repeat split. }
  split; [exact Hwindow|].
  apply (Hprobe (lit "clip.mp4") 0 0 [0; 1; 2; 3; 4] [6; 7; 8; 9]).
  - exists 0, 0, ten_frames. repeat split.
  - exact I.
  - lia.
  - vm_compute. reflexivity.
  - repeat constructor.
  - repeat apply Forall_cons_2; [ | | | | | apply Forall_nil_2].
    + exists [], 0, [1; 2; 3; 4]. split; [reflexivity|]. split; [constructor|].
      intros w _; eexists _, _, _; simpl; repeat split.
    + exists [], 0, [1; 2; 3]. split; [reflexivity|]. split; [constructor|].
      intros w _; eexists _, _, _; simpl; repeat split.
    + exists [], 0, [1; 2; 3; 4]. split; [reflexivity|]. split; [constructor|].
      intros w _; eexists _, _, _; simpl; repeat split.
    + exists [], 1, [2; 3; 4; 5]. split; [reflexivity|]. split; [constructor|].
      intros w _; eexists _, _, _; simpl; repeat split.
    + exists [], 2, [3; 4; 5; 6]. split; [reflexivity|]. split; [constructor|].
      intros w _; eexists _, _, _; simpl; repeat split.
Defined.

(** ** Exceptions in the probe *)

Lemma constructor_raises_propagates {W} (cv2 : Backend W) video_path w w1 e :
  VideoCapture cv2 video_path w = (Err e, w1) ->
  analyze_video cv2 video_path w = (Propagated (UnboundLocalError (lit "cap")), w1).
Proof.
  intros H. unfold analyze_video.
  by rewrite (run_after_raise_unbound cv2 _ _ _ _
                (cap_assign_raises cv2 _ _ _ _ H) eq_refl).
Qed.

(** C4, where the code departs from it: with a backend whose constructor
    raises, [analyze_video] does not return a classification; the
    [finally] block reads [cap], which was never bound, and the
    [UnboundLocalError] of that read leaves the function. *)
Theorem constructor_exception_escapes :
  analyze_video raising_backend (lit "clip.mp4") tt =
    (Propagated (UnboundLocalError (lit "cap")), tt) /\
  calls (run_analyze_video raising_backend (lit "clip.mp4") tt).2 =
    [CallVideoCapture (lit "clip.mp4")].
Proof. split; reflexivity. Qed.

Section Totality.
Context {W : Type} (cv2 : Backend W).

Lemma tame_bind {A B} (c : M W A) (k : A -> M W B) :
  tame c -> (forall a, tame (k a)) -> tame (c ≫= k).
Proof.
  intros Hc Hk m r m' Hcap H. unfold mbind, M_bind in H.
  destruct (c m) as [[a|v|e] m1] eqn:Hcm.
  - destruct (Hc _ _ _ Hcap Hcm) as [Hcap1 Het1].
    destruct (Hk a _ _ _ Hcap1 H) as [Hcap' Hr]. split; [done|].
    destruct r; try done. simpl in *. congruence.
  - injection H as <- <-. exact (Hc _ _ _ Hcap Hcm).
  - injection H as <- <-. exact (Hc _ _ _ Hcap Hcm).
Qed.

Lemma tame_ret {A} (a : A) : tame (mret a : M W A).
Proof. intros m r m' Hcap H. injection H as <- <-. done. Qed.

Lemma tame_lift {A} (r : result A) : tame (lift r : M W A).
Proof.
  destruct r; intros m r' m' Hcap H; injection H as <- <-; done.
Qed.

Lemma tame_append entry : tame (append entry : M W unit).
Proof. intros m r m' Hcap H. injection H as <- <-. done. Qed.

Lemma tame_cap : tame (cap : M W unit).
Proof.
  intros m r m' Hcap H. unfold cap in H. rewrite Hcap in H.
  injection H as <- <-. done.
Qed.

Lemma tame_invoke {A} c (op : W -> result A * W) : tame (invoke c op).
Proof.
  intros m r m' Hcap H. unfold invoke in H.
  destruct (op (world m)) as [[a|e] w']; injection H as <- <-; done.
Qed.

(** The two ways of giving up, lines 34-36 and lines 42-45, 80-83. *)
Lemma tame_open_failure :
  tame (set_error_type OpenFailure;; append LogOpenFailed;; return_ : M W unit).
Proof.
  intros m r m' Hcap H.
  erewrite bind_next in H by apply set_error_type_classified.
  erewrite bind_next in H by apply append_advance.
  injection H as <- <-. split; [done|]. by left.
Qed.

Lemma tame_decode_failure entry :
  tame (set_error_type DecodeFailure;; append entry;; cap_release cv2;;
        return_ : M W unit).
Proof.
  intros m r m' Hcap H.
  erewrite bind_next in H by apply set_error_type_classified.
  erewrite bind_next in H by apply append_advance.
  erewrite bind_next in H by (by apply cap_release_bound).
  injection H as <- <-. split; [done|]. by right.
Qed.

Lemma tame_attempt i frame_idx : tame (attempt cv2 i frame_idx).
Proof.
  unfold attempt, cap_set, cap_read.
  apply tame_bind; [apply tame_bind; [apply tame_cap|intros; apply tame_invoke]|].
  intros _.
  apply tame_bind; [apply tame_bind; [apply tame_cap|intros; apply tame_invoke]|].
  intros r. cbv zeta.
  destruct (_ && _);
    (apply tame_bind; [apply tame_append|intros; apply tame_ret]).
Qed.

Lemma tame_scan_frames i frames : tame (scan_frames cv2 i frames).
Proof.
  induction frames as [|frame_idx rest IH]; simpl.
  - apply tame_ret.
  - apply tame_bind; [apply tame_attempt|].
    intros []; [apply tame_ret|exact IH].
Qed.

Lemma tame_print_notice video_path i n :
  tame (print_notice video_path i n : M W unit).
Proof.
  intros m r m' Hcap H.
  apply print_notice_cases in H as [-> [-> |[e ->]]]; done.
Qed.

Lemma tame_check_loop video_path n total_frames points :
  forall i, tame (check_loop cv2 video_path n total_frames i points).
Proof.
  induction points as [|point rest IH]; intros i; simpl.
  - apply tame_ret.
  - apply tame_bind; [apply tame_print_notice|]. intros _.
    apply tame_bind; [apply tame_scan_frames|].
    intros []; [apply IH|apply tame_decode_failure].
Qed.

(** Lines 33-83, once [cap] is bound. *)
Lemma tame_after_assign video_path :
  tame (opened ← cap_isOpened cv2;
        if negb opened then
          set_error_type OpenFailure;; append LogOpenFailed;; return_
        else
          append LogOpenOk;;
          count ← cap_get cv2;
          total_frames ← lift (PyFloat.to_int count);
          if total_frames <=? 0 then
            set_error_type DecodeFailure;; append LogNoFrameCount;;
            cap_release cv2;; return_
          else
            points ← lift (check_points total_frames);
            check_loop cv2 video_path (Z.of_nat (length points)) total_frames
              0 points).
Proof.
  apply tame_bind.
  { apply tame_bind; [apply tame_cap|intros; apply tame_invoke]. }
  intros []; simpl negb; cbv iota; [|apply tame_open_failure].
  apply tame_bind; [apply tame_append|]. intros _.
  apply tame_bind.
  { apply tame_bind; [apply tame_cap|intros; apply tame_invoke]. }
  intros count. apply tame_bind; [apply tame_lift|]. intros total_frames.
  destruct (total_frames <=? 0); [apply tame_decode_failure|].
  apply tame_bind; [apply tame_lift|]. intros points. apply tame_check_loop.
Qed.

(** What of C4 the code does keep: once the constructor has returned,
    whatever the backend does afterwards the probe returns one of the
    three classes, an exception raised on the way is logged and makes
    the class DecodeFailure, and the handle has been released. *)
Lemma probe_returns_once_constructed video_path (w w1 : W) :
  VideoCapture cv2 video_path w = (Ok tt, w1) ->
  exists et log w',
    analyze_video cv2 video_path w = (Returned et log, w') /\
    (et = OK \/ et = OpenFailure \/ et = DecodeFailure) /\
    CallRelease ∈ calls (run_analyze_video cv2 video_path w).2 /\
    (forall e m1, try_body cv2 video_path (initial w) = (Raise e, m1) ->
       et = DecodeFailure /\ log = step_log m1 ++ [LogException e]).
Proof.
  intros Hopen.
  destruct (try_body cv2 video_path (initial w)) as [r m1] eqn:Hbody.
  assert (cap_bound m1 = true /\
          match r with
          | Next _ => error_type m1 = 0
          | Return_ v => v.1 = OpenFailure \/ v.1 = DecodeFailure
          | Raise _ => True
          end) as [Hcap Hr].
  { unfold try_body in Hbody.
    erewrite bind_next in Hbody by (apply cap_assign_ok; exact Hopen).
    pose proof (fun H => tame_after_assign _ _ _ _ H Hbody) as Ht.
    destruct (Ht eq_refl) as [? Hr]. split; [done|]. by destruct r. }
  destruct r as [[]|[et log]|e].
  - pose proof (run_after_next cv2 _ _ _ Hbody Hcap) as Hrun.
    eexists _, _, _. unfold analyze_video. rewrite Hrun. simpl.
    split; [reflexivity|]. split; [by left|]. split; [|done].
    set_solver.
  - pose proof (run_after_return cv2 _ _ _ _ Hbody Hcap) as Hrun.
    eexists _, _, _. unfold analyze_video. rewrite Hrun. simpl.
    split; [reflexivity|]. split; [by right|]. split; [|done].
    set_solver.
  - pose proof (run_after_raise cv2 _ _ _ _ Hbody Hcap) as Hrun.
    eexists _, _, _. unfold analyze_video. rewrite Hrun. simpl.
    split; [reflexivity|]. split; [by right; right|]. split.
    + set_solver.
    + intros e' m1' [= <- <-]. done.
Qed.
End Totality.

(** ** The checkpoints *)

Lemma mapE_Forall {A B} (f : A -> result B) (P : B -> Prop) l :
  (forall a, a ∈ l -> exists b, f a = Ok b /\ P b) ->
  exists bs, mapE f l = Ok bs /\ Forall P bs.
Proof.
  induction l as [|a l IH]; intros H.
  - by exists [].
  - destruct (H a) as (b & Hb & HP); [set_solver|].
    destruct IH as (bs & Hbs & HPs); [intros; apply H; set_solver|].
    exists (b :: bs). simpl. rewrite Hb. cbn [mbind result_bind].
    rewrite Hbs. cbn [mbind result_bind]. split; [done|by constructor].
Qed.

Lemma strictly_sorted (l : list Z) :
  StronglySorted Z.le l -> NoDup l -> StronglySorted Z.lt l.
Proof.
  induction 1 as [|x l Hsorted IH Hall]; intros Hnodup; [constructor|].
  apply NoDup_cons in Hnodup as [Hx Hl]. constructor; [by apply IH|].
  rewrite Forall_forall in Hall |- *. intros y Hy.
  specialize (Hall y Hy). assert (x <> y) by (intros ->; done). lia.
Qed.

(** [sorted(set(raw))] is strictly ascending and without duplicates, and
    holds nothing that [raw] does not. *)
Lemma sorted_set (P : Z -> Prop) (raw : list Z) :
  Forall P raw ->
  let points := merge_sort Z.le (elements (list_to_set raw : gset Z)) in
  StronglySorted Z.lt points /\ NoDup points /\ Forall P points.
Proof.
  intros Hraw points.
  assert (NoDup points) as Hnodup.
  { subst points. rewrite merge_sort_Permutation. apply NoDup_elements. }
  split; [|split; [done|]].
  - apply strictly_sorted; [|done].
    apply StronglySorted_merge_sort; apply _.
  - subst points. rewrite merge_sort_Permutation.
    rewrite Forall_forall in Hraw |- *.
    intros point Hpoint. apply Hraw.
    by apply elem_of_elements, elem_of_list_to_set in Hpoint.
Qed.

(** Lines 48-50 on any frame count [cap.get] can give. *)
Lemma check_points_total count total_frames :
  valid_binary PyFloat.prec PyFloat.emax count = true ->
  PyFloat.to_int count = Ok total_frames -> 0 < total_frames ->
  exists points,
    check_points total_frames = Ok points /\
    StronglySorted Z.lt points /\ NoDup points /\
    Forall (fun point => 0 <= point < total_frames) points.
Proof.
  intros Hvalid Hint Hpos.
  destruct (mapE_Forall (check_point total_frames)
              (fun v => 0 <= v < total_frames) (py_range 0 20))
    as (raw & Hraw & Hrange).
  { intros i Hi. apply py_range_elem in Hi.
    by apply (PyFloatFacts.check_point_range count). }
  unfold check_points. rewrite Hraw. cbn [mbind result_bind].
  eexists. split; [reflexivity|]. by apply sorted_set.
Qed.

Lemma spec_check_point_range total_frames i :
  0 < total_frames -> 0 <= i < 20 ->
  0 <= spec_check_point total_frames i < total_frames.
Proof.
  intros Hpos Hi. unfold spec_check_point. split.
  - apply Z.div_pos; nia.
  - apply Z.div_lt_upper_bound; nia.
Qed.

(** The positions the program computes are those of binary64
    arithmetic, which are not always the exact ones. *)
Lemma check_point_not_exact :
  check_point 90 14 = Ok 62 /\ spec_check_point 90 14 = 63.
Proof. split; reflexivity. Qed.

(** C5: for every positive frame count the backend can report, the
    checkpoints the program computes are strictly ascending, without
    duplicates, and each within [0, total_frames); and so are the
    checkpoints of the specification's exact formula. *)
Theorem checkpoint_generation count total_frames :
  valid_binary PyFloat.prec PyFloat.emax count = true ->
  PyFloat.to_int count = Ok total_frames -> 0 < total_frames ->
  (exists points,
     check_points total_frames = Ok points /\
     StronglySorted Z.lt points /\ NoDup points /\
     Forall (fun point => 0 <= point < total_frames) points) /\
  StronglySorted Z.lt (spec_check_points total_frames) /\
  NoDup (spec_check_points total_frames) /\
  Forall (fun point => 0 <= point < total_frames)
    (spec_check_points total_frames).
Proof.
  intros Hvalid Hint Hpos. split; [by apply (check_points_total count)|].
  apply sorted_set. apply Forall_map, Forall_forall.
  intros i Hi. apply py_range_elem in Hi. by apply spec_check_point_range.
Qed.

Lemma checkpoint_generation_witness :
  (exists points,
     check_points 10 = Ok points /\
     StronglySorted Z.lt points /\ NoDup points /\
     Forall (fun point => 0 <= point < 10) points) /\
  StronglySorted Z.lt (spec_check_points 10) /\
  NoDup (spec_check_points 10) /\
  Forall (fun point => 0 <= point < 10) (spec_check_points 10).
Proof.
  apply (checkpoint_generation ten_frames 10).
  - reflexivity.
  - reflexivity.
  - lia.
Defined.

(** ** Classification *)

(** C9, as the code has it: a file whose open call fails is classified
    OpenFailure, its step log is the one entry "open: failed" (打开：失败),
    and the backend is asked nothing but to construct, to tell whether it
    is open, and to release: no frame is probed.  A file that opens with a
    positive frame count, whose base name can be printed (line 55 prints
    it at every checkpoint, inside the [try]) and whose every checkpoint
    window yields a success is classified OK. *)
Theorem classification {W} (cv2 : Backend W) (live : W -> Prop) video_path (w : W) :
  (forall w2, does_not_open cv2 video_path w w2 ->
     analyze_video cv2 video_path w =
       (Returned OpenFailure [LogOpenFailed], release cv2 w2) /\
     calls (run_analyze_video cv2 video_path w).2 =
       [CallVideoCapture video_path; CallIsOpened; CallRelease] /\
     render LogOpenFailed = [25171; 24320; 65306; 22833; 36133]%N) /\
  (forall total_frames w3,
     opens_with cv2 video_path w total_frames w3 -> live w3 ->
     0 < total_frames ->
     exists points,
       check_points total_frames = Ok points /\
       (encodable (basename video_path) ->
        Forall (fun point => yields_success cv2 live (window total_frames point))
          points ->
        exists step_log w',
          analyze_video cv2 video_path w = (Returned OK step_log, w'))).
Proof.
  split.
  - intros w2 Hclosed.
    pose proof (run_after_return cv2 _ _ _ _
                  (try_body_not_opened cv2 _ _ _ Hclosed) eq_refl) as Hrun.
    unfold analyze_video. rewrite Hrun. done.
  - intros total_frames w3 Hopens Hlive Hpos.
    destruct Hopens as (w1 & w2 & count & Hopen & Hopened & Hget & Hvalid & Hint).
    destruct (check_points_total count total_frames Hvalid Hint Hpos)
      as (points & Hpoints & _).
    exists points. split; [done|]. intros Hname Hall.
    assert (opens_with cv2 video_path w total_frames w3) as Hopens
      by (by exists w1, w2, count).
    pose proof (try_body_opened cv2 _ _ _ _ _ Hopens Hpos Hpoints) as Hbody.
    destruct (check_loop_passes cv2 live video_path
                (Z.of_nat (length points)) total_frames points 0
                (opened_machine video_path w3) Hname Hall Hlive eq_refl)
      as (w4 & entries & cs & Hloop & _).
    rewrite Hloop in Hbody.
    pose proof (run_after_next cv2 _ _ _ Hbody eq_refl) as Hrun.
    eexists _, _. unfold analyze_video. rewrite Hrun. reflexivity.
Qed.

Lemma classification_witness :
  (analyze_video closed_backend (lit "clip.mp4") tt =
     (Returned OpenFailure [LogOpenFailed], release closed_backend tt) /\
   calls (run_analyze_video closed_backend (lit "clip.mp4") tt).2 =
     [CallVideoCapture (lit "clip.mp4"); CallIsOpened; CallRelease] /\
   render LogOpenFailed = [25171; 24320; 65306; 22833; 36133]%N) /\
  exists step_log w',
    analyze_video sound_backend (lit "clip.mp4") tt = (Returned OK step_log, w').
Proof.
  split.
  - apply (proj1 (classification closed_backend anywhere (lit "clip.mp4") tt) tt).
    by exists tt.
  - destruct (proj2 (classification sound_backend anywhere (lit "clip.mp4") tt)
                10 tt) as (points & Hpoints & Hok).
    + by exists tt, tt, ten_frames.
    + exact I.
    + lia.
    + apply Hok; [repeat constructor|].
      assert (points = [0; 1; 2; 3; 4; 5; 6; 7; 8; 9]) as ->
        by (vm_compute in Hpoints; congruence).
      repeat apply Forall_cons_2; [..|apply Forall_nil_2];
        (eexists [], _, _; split; [reflexivity|]; split; [constructor|];
         intros w _; eexists _, _, _; simpl; repeat split).
Defined.

(** C9 as stated fails on its second half: the file [odd_name], whose
    name holds a lone surrogate, opens with ten frames on a backend on
    which every frame decodes, so that every window yields a success;
    the notice of the first checkpoint cannot be printed, the exception
    is caught, and the file is classified DecodeFailure without a frame
    having been sought. *)
Lemma classification_counterexample :
  opens_with sound_backend odd_name tt 10 tt /\
  check_points 10 = Ok [0; 1; 2; 3; 4; 5; 6; 7; 8; 9] /\
  Forall (fun point => yields_success sound_backend anywhere (window 10 point))
    [0; 1; 2; 3; 4; 5; 6; 7; 8; 9] /\
  analyze_video sound_backend odd_name tt =
    (Returned DecodeFailure
       [LogOpenOk; LogException (UnicodeEncodeError 56553%N)], tt) /\
  calls (run_analyze_video sound_backend odd_name tt).2 =
    [CallVideoCapture odd_name; CallIsOpened; CallGet; CallRelease] /\
  DecodeFailure <> OK.
Proof.
  split; [by exists tt, tt, ten_frames|].
  split; [vm_compute; reflexivity|].
  split.
  { repeat apply Forall_cons_2; [..|apply Forall_nil_2];
      (eexists [], _, _; split; [reflexivity|]; split; [constructor|];
       intros w _; eexists _, _, _; simpl; repeat split). }
  split; [vm_compute; reflexivity|].
  split; [vm_compute; reflexivity|done].
Qed.
(** ** The progress record *)

Lemma write_paths_encodable paths : forall written,
  Forall encodable paths ->
  write_paths paths written = (Ok tt, written ++ progress_text paths).
Proof.
  induction paths as [|path rest IH]; intros written Hall.
  - simpl. by rewrite app_nil_r.
  - apply Forall_cons in Hall as [Hpath Hrest]. simpl.
    rewrite encode_encodable.
    + rewrite IH by done. unfold progress_text. simpl.
      by rewrite <- !app_assoc.
    + apply Forall_app. split; [done|]. by apply Forall_singleton.
Qed.

Lemma readlines_from_line path : forall cur rest,
  LF ∉ path -> CR ∉ path ->
  readlines_from cur (path ++ LF :: rest) =
    (cur ++ path ++ [LF]) :: readlines_from [] rest.
Proof.
  induction path as [|c path IH]; intros cur rest HLF HCR.
  - reflexivity.
  - simpl. apply not_elem_of_cons in HLF as [? ?].
    apply not_elem_of_cons in HCR as [? ?].
    destruct (N.eqb_spec c LF) as [|_]; [done|].
    destruct (N.eqb_spec c CR) as [|_]; [done|].
    rewrite IH by done. by rewrite <- app_assoc.
Qed.

Lemma readlines_progress_text paths :
  Forall (fun path => (LF ∉ path) /\ (CR ∉ path)) paths ->
  readlines (progress_text paths) = map (fun path => path ++ [LF]) paths.
Proof.
  unfold readlines. induction 1 as [|path rest [HLF HCR] _ IH]; [done|].
  unfold progress_text in *. simpl. rewrite <- app_assoc. simpl.
  rewrite readlines_from_line by done. by rewrite IH.
Qed.

Lemma lstrip_head s :
  (forall c, head s = Some c -> isspace c = false) -> lstrip s = s.
Proof.
  destruct s as [|c s]; [done|]. intros H. simpl. by rewrite (H c).
Qed.

Lemma strip_line s : trimmed s -> strip (s ++ [LF]) = s.
Proof.
  intros [Hhead Hlast]. unfold strip, rstrip.
  destruct s as [|c s]; [done|].
  assert (lstrip ((c :: s) ++ [LF]) = (c :: s) ++ [LF]) as ->.
  { apply lstrip_head. intros c' Hc'. by apply Hhead. }
  rewrite reverse_app. simpl.
  rewrite lstrip_head; [by rewrite reverse_involutive|].
  intros c' Hc'. apply Hlast. by rewrite <- head_reverse.
Qed.

(** The order of a set lists its elements. *)
Lemma set_order_elem (h : Host) (s : gset str) (path : str) :
  path ∈ set_order h s <-> path ∈ s.
Proof. by rewrite (set_order_perm h s), elem_of_elements. Qed.

Lemma list_to_set_set_order (h : Host) (s : gset str) :
  list_to_set (set_order h s) = s.
Proof.
  apply set_eq. intros path.
  by rewrite elem_of_list_to_set, set_order_elem.
Qed.

(** Reading back the lines written for storable paths gives the
    paths, in whatever order they were written. *)
Lemma load_progress_text (progress_file : str) (paths : list str)
    (fs0 : files) :
  Forall storable paths ->
  load_progress progress_file (<[progress_file := progress_text paths]> fs0) =
    list_to_set paths.
Proof.
  intros Hall. rewrite Forall_forall in Hall.
  unfold load_progress. rewrite lookup_insert_eq.
  rewrite readlines_progress_text; cycle 1.
  { apply Forall_forall. intros path Hpath.
    apply Hall in Hpath. split; apply Hpath. }
  rewrite map_map.
  rewrite (map_ext_in _ id); cycle 1.
  { intros path Hpath. apply list_elem_of_In in Hpath.
    apply strip_line. apply Hall in Hpath. apply Hpath. }
  by rewrite map_id.
Qed.

(** Saving storable paths to a file that can be opened succeeds, and
    loading gives them back, whatever the order of the lines. *)
Lemma load_save (h : Host) (progress_file : str) (processed : gset str)
    (fs0 : files) :
  refuses h progress_file = None ->
  (forall path, path ∈ processed -> storable path) ->
  exists fs1,
    save_progress h progress_file processed fs0 = (Ok tt, fs1) /\
    fs1 = <[progress_file := progress_text (set_order h processed)]> fs0 /\
    load_progress progress_file fs1 = processed.
Proof.
  intros Hopens Hall. eexists. unfold save_progress. rewrite Hopens.
  rewrite write_paths_encodable; cycle 1.
  { apply Forall_forall. intros path Hpath. apply set_order_elem in Hpath.
    apply Hall in Hpath. apply Hpath. }
  simpl. split; [reflexivity|]. split; [reflexivity|].
  rewrite load_progress_text; [apply list_to_set_set_order|].
  apply Forall_forall. intros path Hpath. apply set_order_elem in Hpath.
  by apply Hall.
Qed.

(** A name that cannot be opened: nothing is written. *)
Lemma save_progress_refused (h : Host) (progress_file : str)
    (processed : gset str) (fs0 : files) e :
  refuses h progress_file = Some e ->
  save_progress h progress_file processed fs0 = (Err e, fs0).
Proof. intros Hrefused. unfold save_progress. by rewrite Hrefused. Qed.

(** C10, as the code has it: when the progress file can be opened for
    writing, then for every set of paths of which each has no line feed,
    no carriage return, no whitespace at either end and no lone surrogate,
    saving succeeds and loading right after it returns the same set, in
    whatever order the set hands over its elements. *)
Theorem progress_round_trip (h : Host) (progress_file : str)
    (processed : gset str) (fs0 : files) :
  refuses h progress_file = None ->
  (forall path, path ∈ processed ->
     (LF ∉ path) /\ (CR ∉ path) /\ trimmed path /\ encodable path) ->
  exists fs1,
    save_progress h progress_file processed fs0 = (Ok tt, fs1) /\
    load_progress progress_file fs1 = processed.
Proof.
  intros Hopens Hall.
  destruct (load_save h progress_file processed fs0 Hopens Hall)
    as (fs1 & ? & _ & ?).
  by exists fs1.
Qed.

Lemma progress_round_trip_witness :
  exists fs1,
    save_progress plain_host (lit ".video_report_progress_20240105-100000.txt")
      {[ lit "/archive/A.mp4"; lit "/archive/my clip.avi" ]} ∅ = (Ok tt, fs1) /\
    load_progress (lit ".video_report_progress_20240105-100000.txt") fs1 =
      {[ lit "/archive/A.mp4"; lit "/archive/my clip.avi" ]}.
Proof.
  apply (progress_round_trip plain_host
           (lit ".video_report_progress_20240105-100000.txt")
           {[ lit "/archive/A.mp4"; lit "/archive/my clip.avi" ]} ∅).
  - reflexivity.
  - intros path Hpath.
    apply elem_of_union in Hpath as [Hpath|Hpath];
      apply elem_of_singleton in Hpath; subst path;
      (split; [absent|]); (split; [absent|]);
      (split; [split; intros c [= <-]; reflexivity|]);
      repeat constructor.
Defined.

(** C10 as stated fails on a path with a carriage return inside: it is
    not empty, has no line feed and no whitespace at its ends, yet reading
    ends a line at the carriage return and two paths come back.  It also
    fails on a path with a lone surrogate, which cannot be written, and
    under a name that cannot be created, where nothing is saved. *)
Lemma progress_round_trip_counterexample :
  let path := [97; 13; 98]%N in
  let progress_file := lit ".video_report_progress_20240105-100000.txt" in
  (path <> [] /\ (LF ∉ path) /\ trimmed path) /\
  load_progress progress_file
    (save_progress plain_host progress_file {[ path ]} ∅).2 =
    {[ [97]%N; [98]%N ]} /\
  load_progress progress_file
    (save_progress plain_host progress_file {[ path ]} ∅).2 <>
    {[ path ]} /\
  (save_progress plain_host progress_file {[ [56575]%N ]} ∅).1 =
    Err (UnicodeEncodeError 56575%N) /\
  save_progress bare_host (lit "./tmp/report_progress_20240105-100000.txt")
    {[ path_A ]} ∅ =
    (Err (OSError (lit "[Errno 2] No such file or directory")), ∅).
Proof.
  cbv zeta.
  assert (load_progress (lit ".video_report_progress_20240105-100000.txt")
            (save_progress plain_host
               (lit ".video_report_progress_20240105-100000.txt")
               {[ [97; 13; 98]%N ]} ∅).2 = {[ [97]%N; [98]%N ]}) as Hload
    by (vm_compute; reflexivity).
  split; [|split; [|split; [|split]]].
  - split; [done|]. split.
    + absent.
    + split; intros c [= <-]; reflexivity.
  - exact Hload.
  - rewrite Hload. intros H.
    assert ([97%N] ∈ ({[ [97; 13; 98]%N ]} : gset str)) as Hin
      by (rewrite <- H; set_solver).
    apply elem_of_singleton in Hin. discriminate.
  - vm_compute. reflexivity.
  - vm_compute. reflexivity.
Qed.

(** ** The driver *)

(** Sessions started at different seconds keep their records under
    different names. *)
Lemma progress_files_differ (args : arguments) (timestamp1 timestamp2 : str) :
  timestamp1 <> timestamp2 ->
  progress_file_of args timestamp1 <> progress_file_of args timestamp2.
Proof.
  intros Hne H. unfold progress_file_of in H.
  do 3 apply app_inv_head in H. by apply app_inv_tail in H.
Qed.

(** Lines 124-125 keep what the loaded record does not hold. *)
Lemma pending_resume (lower : str -> str) (lookup : str -> option node)
    (args : arguments)
    (processed : gset str) (path : str) :
  resume args = true ->
  path ∈ pending lower lookup args processed <->
  path ∈ get_video_files lower lookup (directory args) /\ path ∉ processed.
Proof.
  intros Hresume. unfold pending. rewrite Hresume.
  rewrite list_elem_of_In, filter_In, <- list_elem_of_In.
  by rewrite bool_decide_eq_true.
Qed.

(** With no record under the name of the run itself, nothing is left
    out, resume flag or not. *)
Lemma pending_without_own_record (lower : str -> str)
    (lookup : str -> option node)
    (now : datetime) (args : arguments) (fs0 : files) :
  fs0 !! progress_file_of args (strftime now) = None ->
  pending lower lookup args
    (load_progress (progress_file_of args (strftime now)) fs0) =
  get_video_files lower lookup (directory args).
Proof.
  intros Hnone. unfold pending, load_progress. rewrite Hnone.
  destruct (resume args); [|done].
  induction (get_video_files lower lookup (directory args)) as [|f l IH]; [done|].
  simpl. rewrite IH. rewrite bool_decide_eq_true_2; [done|].
  apply not_elem_of_empty.
Qed.

(** C1, where the code departs from it: a first session started at
    10:00:00 is stopped after A and B, its progress record marking both;
    a run started at 10:05:00 with the resume flag probes A, B, C and D,
    because it looks for a record under a name made from its own start
    time.  Had its clock read 10:00:00, it would have probed C and D. *)
Theorem resume_misses_prior_session :
  get_video_files ascii_lower disk (lit "/archive") =
    [path_A; path_B; path_C; path_D] /\
  observed (final first_session) !! 5%nat = Some (Recorded path_B, interrupted) /\
  load_progress (progress_file_of fresh_args (strftime morning)) interrupted =
    {[ path_A; path_B ]} /\
  probed (final (main sound_backend ascii_lower plain_host disk later
                   resume_args interrupted tt)) =
    [path_A; path_B; path_C; path_D] /\
  probed (final (main sound_backend ascii_lower plain_host disk morning
                   resume_args interrupted tt)) =
    [path_C; path_D].
Proof. repeat split; vm_compute; reflexivity. Qed.

Lemma names_differ args timestamp :
  log_filename_of args timestamp <> progress_file_of args timestamp.
Proof.
  intros H. apply (f_equal length) in H.
  unfold log_filename_of, progress_file_of in H.
  rewrite !length_app in H. simpl in H. lia.
Qed.

Lemma report_line_encodable video_path error_type :
  encodable video_path ->
  error_type = OK \/ error_type = OpenFailure \/ error_type = DecodeFailure ->
  encode (report_line video_path error_type) = Ok tt.
Proof.
  intros Hpath Het. apply encode_encodable. unfold report_line.
  apply Forall_app. split; [done|].
  destruct Het as [->|[->| ->]]; repeat constructor.
Qed.

Lemma load_progress_other (name text progress_file : str) (fs0 : files) :
  name <> progress_file ->
  load_progress progress_file (<[name := text]> fs0) =
    load_progress progress_file fs0.
Proof. intros H. unfold load_progress. by rewrite lookup_insert_ne. Qed.

Section MainFacts.
Context {W : Type} (cv2 : Backend W) (h : Host).

(** The constructor of the backend never raises. *)
Hypothesis constructs :
  forall video_path w, exists w1, VideoCapture cv2 video_path w = (Ok tt, w1).

(** Lines 136-158 for a file that can be recorded. *)
Lemma process_one_recorded (log_filename progress_file video_path : str)
    (s : scan W) :
  log_filename <> progress_file ->
  refuses h progress_file = None -> refuses h log_filename = None ->
  (forall path, path ∈ {[video_path]} ∪ processed_files s -> storable path) ->
  exists s' fs1,
    process_one cv2 h log_filename progress_file video_path s = (Ok tt, s') /\
    processed_files s' = {[video_path]} ∪ processed_files s /\
    probed s' = probed s ++ [video_path] /\
    observed s' = observed s ++
      [(Saved video_path, fs1); (Probed video_path, fs1);
       (Recorded video_path, fs s')] /\
    load_progress progress_file fs1 = {[video_path]} ∪ processed_files s /\
    load_progress progress_file (fs s') = {[video_path]} ∪ processed_files s.
Proof.
  intros Hnames Hprogress Hreport Hstorable. unfold process_one.
  destruct (load_save h progress_file ({[video_path]} ∪ processed_files s)
              (fs s) Hprogress Hstorable) as (fs1 & Hsave & _ & Hload).
  rewrite Hsave.
  destruct (constructs video_path (backend s)) as [w1 Hw1].
  destruct (probe_returns_once_constructed cv2 _ _ _ Hw1)
    as (et & log & w' & Hprobe & Het & _).
  rewrite Hprobe.
  destruct (Z.eqb_spec et 0) as [->|Hne].
  - eexists _, fs1. split; [reflexivity|]. simpl. done.
  - unfold append_text. rewrite Hreport.
    rewrite report_line_encodable; [|apply Hstorable; set_solver|done].
    eexists _, fs1. split; [reflexivity|]. simpl.
    rewrite load_progress_other by done. done.
Qed.

(** The places passed are only ever added to. *)
Lemma process_one_extends (log_filename progress_file video_path : str)
    (s s' : scan W) r :
  process_one cv2 h log_filename progress_file video_path s = (r, s') ->
  exists tail, observed s' = observed s ++ tail.
Proof.
  unfold process_one. intros H.
  destruct (save_progress _ _ _ _) as [[[]|?] ?].
  - destruct (analyze_video _ _ _) as [[et log|?] ?].
    + destruct (et =? 0).
      * injection H as <- <-. simpl. by eexists.
      * destruct (append_text _ _ _ _) as [[[]|?] ?];
          injection H as <- <-; simpl; by eexists.
    + injection H as <- <-. simpl. by eexists.
  - injection H as <- <-. exists []. simpl. by rewrite app_nil_r.
Qed.

Lemma process_all_extends (log_filename progress_file : str)
    (video_files : list str) : forall (s s' : scan W) r,
  process_all cv2 h log_filename progress_file video_files s = (r, s') ->
  exists tail, observed s' = observed s ++ tail.
Proof.
  induction video_files as [|v rest IH]; intros s s' r H.
  - injection H as <- <-. exists []. by rewrite app_nil_r.
  - simpl in H.
    destruct (process_one cv2 h log_filename progress_file v s)
      as [[[]|e] s1] eqn:Hone.
    + destruct (process_one_extends _ _ _ _ _ _ Hone) as [t1 Ht1].
      destruct (IH _ _ _ H) as [t2 Ht2].
      exists (t1 ++ t2). by rewrite Ht2, Ht1, app_assoc.
    + injection H as <- <-. by apply (process_one_extends _ _ _ _ _ _ Hone).
Qed.

(** Lines 135-158 over files that can be recorded: each is saved, then
    probed, then reported, and at each of the three places the record
    read back holds the file and all before it. *)
Lemma process_all_recorded (log_filename progress_file : str)
    (video_files : list str) :
  forall s : scan W,
  log_filename <> progress_file ->
  refuses h progress_file = None -> refuses h log_filename = None ->
  (forall path, path ∈ video_files \/ path ∈ processed_files s -> storable path) ->
  exists s',
    process_all cv2 h log_filename progress_file video_files s = (Ok tt, s') /\
    probed s' = probed s ++ video_files /\
    forall (k : nat) video_path, video_files !! k = Some video_path ->
      exists fs1 fs3,
        observed s' !! (length (observed s) + 3 * k)%nat =
          Some (Saved video_path, fs1) /\
        observed s' !! (length (observed s) + 3 * k + 1)%nat =
          Some (Probed video_path, fs1) /\
        observed s' !! (length (observed s) + 3 * k + 2)%nat =
          Some (Recorded video_path, fs3) /\
        load_progress progress_file fs1 =
          list_to_set (take (S k) video_files) ∪ processed_files s /\
        load_progress progress_file fs3 =
          list_to_set (take (S k) video_files) ∪ processed_files s.
Proof.
  induction video_files as [|v rest IH];
    intros s Hnames Hprogress Hreport Hstorable.
  - exists s. simpl. rewrite app_nil_r. repeat split; try done.
  - destruct (process_one_recorded log_filename progress_file v s Hnames
                Hprogress Hreport)
      as (s1 & fs1 & Hone & Hproc & Hprobed & Hobs & Hload1 & Hload3).
    { intros path Hpath. apply Hstorable. set_solver. }
    destruct (IH s1 Hnames Hprogress Hreport)
      as (s' & Hall & Hprobed' & Hplaces).
    { intros path Hpath. apply Hstorable. rewrite Hproc in Hpath. set_solver. }
    exists s'. simpl process_all. rewrite Hone.
    split; [done|]. split.
    { rewrite Hprobed', Hprobed. by rewrite <- app_assoc. }
    destruct (process_all_extends _ _ _ _ _ _ Hall) as [tail Htail].
    intros [|k] video_path Hk.
    + injection Hk as <-. exists fs1, (fs s1).
      rewrite Htail, Hobs. rewrite <- !app_assoc. simpl.
      rewrite !Nat.add_0_r.
      repeat split.
      * by rewrite lookup_app_r, Nat.sub_diag by lia.
      * rewrite lookup_app_r by lia.
        by replace (length (observed s) + 1 - length (observed s))%nat
          with 1%nat by lia.
      * rewrite lookup_app_r by lia.
        by replace (length (observed s) + 2 - length (observed s))%nat
          with 2%nat by lia.
      * rewrite Hload1. set_solver.
      * rewrite Hload3. set_solver.
    + simpl in Hk. destruct (Hplaces k video_path Hk)
        as (fsa & fsb & H1 & H2 & H3 & Hla & Hlb).
      assert (length (observed s1) = (length (observed s) + 3)%nat) as Hlen.
      { rewrite Hobs, length_app. simpl. lia. }
      rewrite Hlen in H1, H2, H3.
      exists fsa, fsb. repeat split.
      * rewrite <- H1. f_equal. lia.
      * rewrite <- H2. f_equal. lia.
      * rewrite <- H3. f_equal. lia.
      * rewrite Hla, Hproc. set_solver.
      * rewrite Hlb, Hproc. set_solver.
Qed.
End MainFacts.

(** C2, as the code has it: in a run in which the progress file and the
    report file can be opened for writing, no constructor raises and
    every path can be recorded, each candidate is first added to the
    progress record and saved, then probed, then reported.  From the save
    that precedes the probe of candidate k+1 (counting from 0: the one at
    index k) to the end of that turn of the loop, the record read back
    from storage is the one found at start together with the first k+1
    candidates: the file in flight is persisted before its probe begins,
    and the record is unchanged from then until the next save.  At the
    end the record is removed. *)
Theorem progress_write_through {W} (cv2 : Backend W) (lower : str -> str)
    (h : Host) (lookup : str -> option node) (now : datetime)
    (args : arguments) (fs0 : files) (w : W) :
  (forall video_path w, exists w1, VideoCapture cv2 video_path w = (Ok tt, w1)) ->
  let progress_file := progress_file_of args (strftime now) in
  let recorded := load_progress progress_file fs0 in
  let video_files := pending lower lookup args recorded in
  refuses h progress_file = None ->
  refuses h (log_filename_of args (strftime now)) = None ->
  (forall path, path ∈ video_files \/ path ∈ recorded -> storable path) ->
  let r := main cv2 lower h lookup now args fs0 w in
  exit_status r = 0 /\
  probed (final r) = video_files /\
  fs (final r) !! progress_file = None /\
  forall (k : nat) video_path, video_files !! k = Some video_path ->
    exists fs1 fs3,
      observed (final r) !! (3 * k)%nat = Some (Saved video_path, fs1) /\
      observed (final r) !! (3 * k + 1)%nat = Some (Probed video_path, fs1) /\
      observed (final r) !! (3 * k + 2)%nat = Some (Recorded video_path, fs3) /\
      load_progress progress_file fs1 =
        list_to_set (take (S k) video_files) ∪ recorded /\
      load_progress progress_file fs3 =
        list_to_set (take (S k) video_files) ∪ recorded.
Proof.
  intros Hconstructs progress_file recorded video_files Hprogress Hreport
    Hstorable r.
  destruct (process_all_recorded cv2 h Hconstructs
              (log_filename_of args (strftime now)) progress_file video_files
              {| fs := fs0; backend := w; processed_files := recorded;
                 processed_count := 0; corrupted_count := 0;
                 probed := []; observed := [] |}
              (names_differ _ _) Hprogress Hreport Hstorable)
    as (s' & Hall & Hprobed & Hplaces).
  subst r. unfold main.
  fold progress_file. fold recorded. fold video_files. rewrite Hall.
  simpl. split; [done|]. split; [done|]. split; [apply lookup_delete_eq|].
  exact Hplaces.
Qed.

Lemma progress_write_through_witness :
  let progress_file := progress_file_of fresh_args (strftime morning) in
  let recorded := load_progress progress_file ∅ in
  let video_files := pending ascii_lower disk fresh_args recorded in
  let r := main sound_backend ascii_lower plain_host disk morning fresh_args
             ∅ tt in
  exit_status r = 0 /\
  probed (final r) = video_files /\
  fs (final r) !! progress_file = None /\
  forall (k : nat) video_path, video_files !! k = Some video_path ->
    exists fs1 fs3,
      observed (final r) !! (3 * k)%nat = Some (Saved video_path, fs1) /\
      observed (final r) !! (3 * k + 1)%nat = Some (Probed video_path, fs1) /\
      observed (final r) !! (3 * k + 2)%nat = Some (Recorded video_path, fs3) /\
      load_progress progress_file fs1 =
        list_to_set (take (S k) video_files) ∪ recorded /\
      load_progress progress_file fs3 =
        list_to_set (take (S k) video_files) ∪ recorded.
Proof.
  apply (progress_write_through sound_backend ascii_lower plain_host disk
           morning fresh_args ∅ tt).
  - intros video_path w. by exists w.
  - reflexivity.
  - reflexivity.
  - intros path [Hpath|Hpath].
    + change (path ∈ [path_A; path_B; path_C; path_D]) in Hpath.
      repeat (apply elem_of_cons in Hpath as [->|Hpath]);
        [..|by apply elem_of_nil in Hpath];
        (split; [absent|]); (split; [absent|]);
        (split; [split; intros c [= <-]; reflexivity|]);
        repeat constructor.
    + by apply elem_of_empty in Hpath.
Defined.

(** C2 as stated fails between a save and the probe it precedes: in the
    first session, after the probe of A has completed and before the
    probe of B begins, the record read back holds A and B, not A alone. *)
Lemma progress_write_through_counterexample :
  observed (final first_session) !! 1%nat = Some (Probed path_A, snapshot 1) /\
  observed (final first_session) !! 3%nat = Some (Saved path_B, snapshot 3) /\
  observed (final first_session) !! 4%nat = Some (Probed path_B, snapshot 4) /\
  load_progress (progress_file_of fresh_args (strftime morning)) (snapshot 3) =
    {[ path_A; path_B ]} /\
  load_progress (progress_file_of fresh_args (strftime morning)) (snapshot 3) <>
    {[ path_A ]}.
Proof.
  assert (load_progress (progress_file_of fresh_args (strftime morning))
            (snapshot 3) = {[ path_A; path_B ]}) as Hload
    by (vm_compute; reflexivity).
  split; [vm_compute; reflexivity|].
  split; [vm_compute; reflexivity|]. split; [vm_compute; reflexivity|].
  split; [exact Hload|].
  rewrite Hload. intros H.
  assert (path_B ∈ ({[ path_A ]} : gset str)) as Hin
    by (rewrite <- H; set_solver).
  apply elem_of_singleton in Hin. vm_compute in Hin. discriminate.
Qed.

(** C3, as the code has it: when the root does not exist or is not a
    directory, [os.walk] yields nothing, so there is no candidate, the
    backend is never called, and the run ends normally with exit status 0;
    it creates no file: no report file, no progress file. *)
Theorem missing_directory {W} (cv2 : Backend W) (lower : str -> str)
    (h : Host) (lookup : str -> option node) (now : datetime)
    (args : arguments) (fs0 : files) (w : W) :
  lookup (directory args) = None \/ lookup (directory args) = Some File ->
  let r := main cv2 lower h lookup now args fs0 w in
  get_video_files lower lookup (directory args) = [] /\
  exit_status r = 0 /\ uncaught r = None /\
  probed (final r) = [] /\ observed (final r) = [] /\ backend (final r) = w /\
  fs (final r) = delete (progress_file_of args (strftime now)) fs0 /\
  (forall name, fs0 !! name = None -> fs (final r) !! name = None).
Proof.
  intros Hroot r.
  assert (get_video_files lower lookup (directory args) = []) as Hnone.
  { unfold get_video_files, os_walk. by destruct Hroot as [-> | ->]. }
  subst r. unfold main, pending. rewrite Hnone.
  assert ((if resume args
           then List.filter
                  (fun f => bool_decide
                     (f ∉ load_progress (progress_file_of args (strftime now)) fs0))
                  []
           else []) = @nil str) as -> by (by destruct (resume args)).
  simpl. repeat split; try done.
  intros name Hname.
  destruct (decide (progress_file_of args (strftime now) = name)) as [<-|Hne].
  - apply lookup_delete_eq.
  - by rewrite lookup_delete_ne.
Qed.

Lemma missing_directory_witness :
  let r := main sound_backend ascii_lower plain_host disk morning
             missing_args ∅ tt in
  get_video_files ascii_lower disk (directory missing_args) = [] /\
  exit_status r = 0 /\ uncaught r = None /\
  probed (final r) = [] /\ observed (final r) = [] /\ backend (final r) = tt /\
  fs (final r) = delete (progress_file_of missing_args (strftime morning)) ∅ /\
  (forall name, (∅ : files) !! name = None -> fs (final r) !! name = None).
Proof.
  apply (missing_directory sound_backend ascii_lower plain_host disk morning
           missing_args ∅ tt).
  left. reflexivity.
Defined.

(** C3 as stated fails on the exit status: with a root that does not
    exist, and with a root that is a file, the run ends with status 0. *)
Lemma missing_directory_counterexample :
  disk (directory missing_args) = None /\
  exit_status (main sound_backend ascii_lower plain_host disk morning
                 missing_args ∅ tt) = 0 /\
  disk (directory file_args) = Some File /\
  exit_status (main sound_backend ascii_lower plain_host disk morning
                 file_args ∅ tt) = 0.
Proof. repeat split; vm_compute; reflexivity. Qed.

(** * Further properties of the program *)

(** ** Windows *)

Lemma window_length total_frames point :
  (length (window total_frames point) <= 5)%nat.
Proof.
  unfold window, frames_to_check, py_range.
  destruct (point =? 0); [|destruct (point =? total_frames - 1)];
    rewrite length_seqZ; lia.
Qed.

Lemma window_elem total_frames point frame_idx :
  frame_idx ∈ window total_frames point <->
  (frames_to_check total_frames point).1 <= frame_idx
    < (frames_to_check total_frames point).2.
Proof.
  unfold window. destruct (frames_to_check total_frames point) as [a b].
  apply py_range_elem.
Qed.

Lemma window_within total_frames point frame_idx :
  0 <= point < total_frames -> frame_idx ∈ window total_frames point ->
  0 <= frame_idx < total_frames.
Proof.
  intros Hpoint Hf. apply window_elem in Hf. revert Hf.
  unfold frames_to_check.
  destruct (Z.eqb_spec point 0); [|destruct (Z.eqb_spec point (total_frames - 1))];
    simpl; lia.
Qed.

(** X1: every window of a checkpoint within the video is a run of at most
    five consecutive frames of the video, and holds the checkpoint. *)
Theorem window_shape total_frames point :
  0 <= point < total_frames ->
  point ∈ window total_frames point /\
  (1 <= length (window total_frames point) <= 5)%nat /\
  (forall frame_idx, frame_idx ∈ window total_frames point ->
     0 <= frame_idx < total_frames /\ point - 4 <= frame_idx <= point + 4) /\
  exists first,
    window total_frames point =
      seqZ first (Z.of_nat (length (window total_frames point))).
Proof.
  intros Hpoint.
  assert (point ∈ window total_frames point) as Hin.
  { apply window_elem. unfold frames_to_check.
    destruct (Z.eqb_spec point 0); [|destruct (Z.eqb_spec point (total_frames - 1))];
      simpl; lia. }
  split; [done|]. split; [|split].
  - split; [|apply window_length].
    destruct (window total_frames point); [by apply elem_of_nil in Hin|simpl; lia].
  - intros frame_idx Hf. apply window_elem in Hf. revert Hf.
    unfold frames_to_check.
    destruct (Z.eqb_spec point 0); [|destruct (Z.eqb_spec point (total_frames - 1))];
      simpl; lia.
  - unfold window, py_range.
    destruct (frames_to_check total_frames point) as [a b] eqn:E.
    exists a. rewrite length_seqZ. f_equal.
    assert (a <= b); [|lia].
    revert E. unfold frames_to_check.
    destruct (Z.eqb_spec point 0); [|destruct (Z.eqb_spec point (total_frames - 1))];
      intros [= <- <-]; lia.
Qed.

Lemma window_shape_witness :
  5 ∈ window 10 5 /\
  (1 <= length (window 10 5) <= 5)%nat /\
  (forall frame_idx, frame_idx ∈ window 10 5 ->
     0 <= frame_idx < 10 /\ 5 - 4 <= frame_idx <= 5 + 4) /\
  exists first, window 10 5 = seqZ first (Z.of_nat (length (window 10 5))).
Proof. apply (window_shape 10 5). lia. Defined.

(** ** The calls of the probe, whatever the backend does *)

Section Emits.
Context {W : Type} (cv2 : Backend W).

Lemma reads_app cs1 cs2 : reads (cs1 ++ cs2) = (reads cs1 + reads cs2)%nat.
Proof. unfold reads. by rewrite List.filter_app, length_app. Qed.

Lemma seeks_app cs1 cs2 : seeks (cs1 ++ cs2) = (seeks cs1 + seeks cs2)%nat.
Proof. unfold seeks. by rewrite List.filter_app, length_app. Qed.

Lemma probes_within_nil P : probes_within 0 0 P [].
Proof. repeat split; try done. intros f Hf. by apply elem_of_nil in Hf. Qed.

Lemma probes_within_app kr1 ks1 kr2 ks2 P cs1 cs2 :
  probes_within kr1 ks1 P cs1 -> probes_within kr2 ks2 P cs2 ->
  probes_within (kr1 + kr2) (ks1 + ks2) P (cs1 ++ cs2).
Proof.
  intros (Hr1 & Hs1 & HP1) (Hr2 & Hs2 & HP2).
  unfold probes_within. rewrite reads_app, seeks_app.
  repeat split; try lia.
  intros f Hf. apply elem_of_app in Hf as [Hf|Hf]; auto.
Qed.

Lemma probes_within_weaken kr ks kr' ks' (P P' : Z -> Prop) cs :
  (kr <= kr')%nat -> (ks <= ks')%nat -> (forall f, P f -> P' f) ->
  probes_within kr ks P cs -> probes_within kr' ks' P' cs.
Proof.
  intros Hr Hs HP (Hr1 & Hs1 & HP1). repeat split; try lia. auto.
Qed.

Lemma emits_weaken {A} (Q Q' : list call -> Prop) (c : M W A) :
  (forall cs, Q cs -> Q' cs) -> emits Q c -> emits Q' c.
Proof.
  intros HQ Hc m r m' H. destruct (Hc m r m' H) as (cs & Hcs & HQcs).
  exists cs. auto.
Qed.

Lemma emits_bind {A B} kr1 ks1 kr2 ks2 P (c : M W A) (k : A -> M W B) :
  emits (probes_within kr1 ks1 P) c ->
  (forall a, emits (probes_within kr2 ks2 P) (k a)) ->
  emits (probes_within (kr1 + kr2) (ks1 + ks2) P) (c ≫= k).
Proof.
  intros Hc Hk m r m' H. unfold mbind, M_bind in H.
  destruct (c m) as [[a|v|e] m1] eqn:Hcm.
  - destruct (Hc _ _ _ Hcm) as (cs1 & Hcs1 & HQ1).
    destruct (Hk a _ _ _ H) as (cs2 & Hcs2 & HQ2).
    exists (cs1 ++ cs2). rewrite Hcs2, Hcs1, app_assoc. split; [done|].
    by apply probes_within_app.
  - injection H as <- <-. destruct (Hc _ _ _ Hcm) as (cs1 & Hcs1 & HQ1).
    exists cs1. split; [done|].
    eapply probes_within_weaken; [| | |exact HQ1]; auto; lia.
  - injection H as <- <-. destruct (Hc _ _ _ Hcm) as (cs1 & Hcs1 & HQ1).
    exists cs1. split; [done|].
    eapply probes_within_weaken; [| | |exact HQ1]; auto; lia.
Qed.

Lemma emits_quiet {A} P (c : M W A) : quiet c -> emits (probes_within 0 0 P) c.
Proof.
  intros Hc m r m' H. exists []. rewrite app_nil_r.
  split; [by eapply Hc|apply probes_within_nil].
Qed.

Lemma quiet_ret {A} (a : A) : quiet (mret a : M W A).
Proof. by intros m r m' [= <- <-]. Qed.

Lemma quiet_lift {A} (x : result A) : quiet (lift x : M W A).
Proof. destruct x; by intros m r m' [= <- <-]. Qed.

Lemma quiet_return {A} : quiet (return_ : M W A).
Proof. by intros m r m' [= <- <-]. Qed.

Lemma quiet_append entry : quiet (append entry : M W unit).
Proof. by intros m r m' [= <- <-]. Qed.

Lemma quiet_set_error_type v : quiet (set_error_type v : M W unit).
Proof. by intros m r m' [= <- <-]. Qed.

Lemma quiet_cap : quiet (cap : M W unit).
Proof. intros m r m' H. unfold cap in H. by destruct (cap_bound m); injection H as <- <-. Qed.

Lemma emits_invoke {A} c (op : W -> result A * W) P :
  (forall f, c = CallSet f -> P f) ->
  emits (probes_within (if is_read c then 1 else 0) (if is_seek c then 1 else 0) P)
    (invoke c op).
Proof.
  intros HP m r m' H. exists [c]. split.
  - unfold invoke in H. destruct (op (world m)) as [[a|e] w'];
      by injection H as <- <-.
  - unfold probes_within, reads, seeks. simpl.
    repeat split.
    + destruct (is_read c); simpl; lia.
    + destruct (is_seek c); simpl; lia.
    + intros f Hf. apply list_elem_of_singleton in Hf. auto.
Qed.

Lemma emits_on_cap {A} kr ks P (c : M W A) :
  emits (probes_within kr ks P) c -> emits (probes_within kr ks P) (cap;; c).
Proof.
  intros Hc. change kr with (0 + kr)%nat. change ks with (0 + ks)%nat.
  apply emits_bind; [apply emits_quiet, quiet_cap|done].
Qed.

Lemma emits_release P : emits (probes_within 0 0 P) (cap_release cv2).
Proof.
  apply emits_on_cap.
  apply (emits_invoke CallRelease). by intros f [=].
Qed.

Lemma emits_attempt i frame_idx (P : Z -> Prop) :
  P frame_idx -> emits (probes_within 1 1 P) (attempt cv2 i frame_idx).
Proof.
  intros HP. unfold attempt.
  change 1%nat with (0 + 1)%nat at 1. change 1%nat with (1 + 0)%nat at 2.
  apply emits_bind.
  { apply emits_on_cap.
    apply (emits_invoke (CallSet frame_idx)). by intros f [= <-]. }
  intros _. change 1%nat with (1 + 0)%nat at 1. change 0%nat with (0 + 0)%nat at 3.
  apply emits_bind.
  { apply emits_on_cap. apply (emits_invoke CallRead). by intros f [=]. }
  intros r. cbv zeta. change 0%nat with (0 + 0)%nat.
  destruct (_ && _);
    (apply emits_bind; [apply emits_quiet, quiet_append
                       |intros; apply emits_quiet, quiet_ret]).
Qed.

Lemma emits_scan_frames i frames (P : Z -> Prop) :
  (forall f, f ∈ frames -> P f) ->
  emits (probes_within (length frames) (length frames) P) (scan_frames cv2 i frames).
Proof.
  induction frames as [|frame_idx rest IH]; intros HP; simpl.
  - apply emits_quiet, quiet_ret.
  - change (S (length rest)) with (1 + length rest)%nat.
    apply emits_bind; [apply emits_attempt, HP; set_solver|].
    intros [].
    + apply (emits_weaken (probes_within 0 0 P)); [|apply emits_quiet, quiet_ret].
      intros cs. apply probes_within_weaken; auto; lia.
    + apply IH. intros f Hf. apply HP. set_solver.
Qed.

Lemma quiet_print_notice video_path i n :
  quiet (print_notice video_path i n : M W unit).
Proof.
  intros m r m' H. by apply print_notice_cases in H as [-> _].
Qed.

Lemma emits_check_loop video_path n total_frames points (P : Z -> Prop) :
  forall i,
  (forall point f, point ∈ points -> f ∈ window total_frames point -> P f) ->
  emits (probes_within (5 * length points) (5 * length points) P)
    (check_loop cv2 video_path n total_frames i points).
Proof.
  induction points as [|point rest IH]; intros i HP; simpl check_loop.
  - apply emits_quiet, quiet_ret.
  - replace (5 * length (point :: rest))%nat
      with (0 + (5 + 5 * length rest))%nat by (simpl; lia).
    apply emits_bind; [apply emits_quiet, quiet_print_notice|]. intros _.
    unfold check_window.
    apply emits_bind.
    { apply (emits_weaken
               (probes_within (length (window total_frames point))
                  (length (window total_frames point)) P));
        [|apply (emits_scan_frames _ _ P)].
      - intros cs. apply probes_within_weaken; auto; apply window_length.
      - intros f Hf. apply (HP point); [set_solver|done]. }
    intros [].
    + apply IH. intros p f Hp. apply HP. set_solver.
    + apply (emits_weaken (probes_within 0 0 P));
        [intros cs; apply probes_within_weaken; auto; lia|].
      apply (emits_bind 0 0 0 0 P); [apply emits_quiet, quiet_set_error_type|].
      intros _. apply (emits_bind 0 0 0 0 P); [apply emits_quiet, quiet_append|].
      intros _. apply (emits_bind 0 0 0 0 P); [apply emits_release|].
      intros _. apply emits_quiet, quiet_return.
Qed.

Lemma emits_bind_next {A B} kr1 ks1 kr2 ks2 P (R : A -> Prop)
    (c : M W A) (k : A -> M W B) :
  emits (probes_within kr1 ks1 P) c ->
  (forall m a m', c m = (Next a, m') -> R a) ->
  (forall a, R a -> emits (probes_within kr2 ks2 P) (k a)) ->
  emits (probes_within (kr1 + kr2) (ks1 + ks2) P) (c ≫= k).
Proof.
  intros Hc HR Hk m r m' H. unfold mbind, M_bind in H.
  destruct (c m) as [[a|v|e] m1] eqn:Hcm.
  - destruct (Hc _ _ _ Hcm) as (cs1 & Hcs1 & HQ1).
    destruct (Hk a (HR _ _ _ Hcm) _ _ _ H) as (cs2 & Hcs2 & HQ2).
    exists (cs1 ++ cs2). rewrite Hcs2, Hcs1, app_assoc. split; [done|].
    by apply probes_within_app.
  - injection H as <- <-. destruct (Hc _ _ _ Hcm) as (cs1 & Hcs1 & HQ1).
    exists cs1. split; [done|].
    eapply probes_within_weaken; [| | |exact HQ1]; auto; lia.
  - injection H as <- <-. destruct (Hc _ _ _ Hcm) as (cs1 & Hcs1 & HQ1).
    exists cs1. split; [done|].
    eapply probes_within_weaken; [| | |exact HQ1]; auto; lia.
Qed.

Lemma quiet_bind_cap : quiet (bind_cap : M W unit).
Proof. by intros m r m' [= <- <-]. Qed.

Lemma mapE_length {A B} (f : A -> result B) l bs :
  mapE f l = Ok bs -> length bs = length l.
Proof.
  revert bs. induction l as [|a l IH]; intros bs H; simpl in H.
  - by injection H as <-.
  - destruct (f a) as [b|]; [|done]. cbn [mbind result_bind] in H.
    destruct (mapE f l) as [bs'|]; [|done]. cbn [mbind result_bind] in H.
    injection H as <-. simpl. by rewrite (IH bs').
Qed.

(** There are never more than twenty checkpoints. *)
Lemma check_points_length total_frames points :
  check_points total_frames = Ok points -> (length points <= 20)%nat.
Proof.
  unfold check_points. intros H.
  destruct (mapE (check_point total_frames) (py_range 0 20)) as [raw|] eqn:Hraw;
    [|done].
  cbn [mbind result_bind] in H. injection H as <-.
  apply mapE_length in Hraw. rewrite merge_sort_Permutation.
  change (length (py_range 0 20)) with 20%nat in Hraw. rewrite <- Hraw.
  apply submseteq_length, NoDup_submseteq; [apply NoDup_elements|].
  intros x Hx. by apply elem_of_elements, elem_of_list_to_set in Hx.
Qed.

(** Lines 32-83, for every backend. *)
Lemma emits_try_body video_path :
  emits (probes_within 100 100 (fun _ => True)) (try_body cv2 video_path).
Proof.
  set (P := fun _ : Z => True). unfold try_body.
  apply (emits_bind 0 0 100 100 P).
  { unfold cap_assign. apply (emits_bind 0 0 0 0 P).
    - apply (emits_invoke (CallVideoCapture video_path)). by intros f [=].
    - intros _. apply emits_quiet, quiet_bind_cap. }
  intros _. apply (emits_bind 0 0 100 100 P).
  { apply emits_on_cap. apply (emits_invoke CallIsOpened). by intros f [=]. }
  intros opened. destruct (negb opened).
  { apply (emits_weaken (probes_within 0 0 P));
      [intros cs; apply probes_within_weaken; auto; lia|].
    apply (emits_bind 0 0 0 0 P); [apply emits_quiet, quiet_set_error_type|].
    intros _. apply (emits_bind 0 0 0 0 P); [apply emits_quiet, quiet_append|].
    intros _. apply emits_quiet, quiet_return. }
  apply (emits_bind 0 0 100 100 P); [apply emits_quiet, quiet_append|].
  intros _. apply (emits_bind 0 0 100 100 P).
  { apply emits_on_cap. apply (emits_invoke CallGet). by intros f [=]. }
  intros count. apply (emits_bind 0 0 100 100 P); [apply emits_quiet, quiet_lift|].
  intros total_frames. destruct (total_frames <=? 0).
  { apply (emits_weaken (probes_within 0 0 P));
      [intros cs; apply probes_within_weaken; auto; lia|].
    apply (emits_bind 0 0 0 0 P); [apply emits_quiet, quiet_set_error_type|].
    intros _. apply (emits_bind 0 0 0 0 P); [apply emits_quiet, quiet_append|].
    intros _. apply (emits_bind 0 0 0 0 P); [apply emits_release|].
    intros _. apply emits_quiet, quiet_return. }
  apply (emits_bind_next 0 0 100 100 P
           (fun points => check_points total_frames = Ok points)).
  - apply emits_quiet, quiet_lift.
  - intros m points m' H. destruct (check_points total_frames); [|done].
    by injection H as <- <-.
  - intros points Hpoints.
    apply (emits_weaken
             (probes_within (5 * length points) (5 * length points) P)).
    + intros cs. apply check_points_length in Hpoints.
      apply probes_within_weaken; auto; lia.
    + by apply emits_check_loop.
Qed.

(** Lines 30-91, for every backend. *)
Lemma emits_run video_path (w : W) :
  probes_within 100 100 (fun _ => True)
    (calls (run_analyze_video cv2 video_path w).2).
Proof.
  set (P := fun _ : Z => True).
  assert (emits (probes_within 100 100 P)
            (try_except_finally (try_body cv2 video_path) handler
               (cap_release cv2);; return_ : M W unit)) as Hemits.
  { apply (emits_bind 100 100 0 0 P); [|intros; apply emits_quiet, quiet_return].
    intros m r m' H. unfold try_except_finally in H.
    destruct (try_body cv2 video_path m) as [rb mb] eqn:Hbody.
    destruct (emits_try_body video_path _ _ _ Hbody) as (cs1 & Hcs1 & HQ1).
    assert (exists rp mp,
              calls mp = calls mb /\
              match cap_release cv2 mp with
              | (Next _, m3) => (rp, m3)
              | r0 => r0
              end = (r, m')) as (rp & mp & Hcp & H').
    { destruct rb as [a|v|e].
      - exists (Next a), mb. split; [done|exact H].
      - exists (Return_ v), mb. split; [done|exact H].
      - destruct (handler e mb) as [rp mp] eqn:Hh. exists rp, mp.
        split; [|exact H]. unfold handler in Hh.
        erewrite bind_next in Hh by apply set_error_type_classified.
        rewrite append_advance in Hh. injection Hh as <- <-. simpl.
        by rewrite app_nil_r. }
    clear H. rename H' into H.
    destruct (cap_release cv2 mp) as [rf mf] eqn:Hf.
    destruct (emits_release P _ _ _ Hf) as (cs2 & Hcs2 & HQ2).
    assert (calls m' = calls mf) as Hm' by (destruct rf; by injection H as <- <-).
    exists (cs1 ++ cs2). rewrite Hm', Hcs2, Hcp, Hcs1, app_assoc. split; [done|].
    change 100%nat with (100 + 0)%nat. by apply probes_within_app. }
  destruct (run_analyze_video cv2 video_path w) as [r m] eqn:Hrun.
  destruct (Hemits _ _ _ Hrun) as (cs & Hcs & HQ). simpl in *.
  by rewrite Hcs.
Qed.
End Emits.

(** X2: whatever the backend does, one call of [analyze_video] reads at
    most a hundred frames and seeks at most a hundred times. *)
Theorem probe_work_bounded {W} (cv2 : Backend W) video_path (w : W) :
  (reads (calls (run_analyze_video cv2 video_path w).2) <= 100)%nat /\
  (seeks (calls (run_analyze_video cv2 video_path w).2) <= 100)%nat.
Proof.
  destruct (emits_run cv2 video_path w) as (Hr & Hs & _). done.
Qed.

(** Lines 85-91 add nothing to the calls of the [try] but releases. *)
Lemma run_calls {W} (cv2 : Backend W) video_path (w : W) :
  exists cs,
    calls (run_analyze_video cv2 video_path w).2 =
      calls (try_body cv2 video_path (initial w)).2 ++ cs /\
    (cs = [] \/ cs = [CallRelease]).
Proof.
  unfold run_analyze_video, try_except_finally, mbind, M_bind.
  destruct (try_body cv2 video_path (initial w)) as [rb mb]. simpl.
  assert (forall rp mp, calls mp = calls mb ->
            exists cs,
              calls (match
                       match cap_release cv2 mp with
                       | (Next _, m3) => (rp, m3)
                       | r0 => r0
                       end
                     with
                     | (Next a, m') => @return_ W unit m'
                     | (Return_ v, m') => (Return_ v, m')
                     | (Raise e, m') => (Raise e, m')
                     end).2 = calls mb ++ cs /\
              (cs = [] \/ cs = [CallRelease])) as Hfinal.
  { intros rp mp Hmp. destruct (cap_bound mp) eqn:Hcap.
    - rewrite cap_release_bound by done. exists [CallRelease].
      split; [|by right]. destruct rp; simpl; by rewrite Hmp.
    - rewrite cap_release_unbound by done. exists []. rewrite app_nil_r.
      split; [|by left]. done. }
  destruct rb as [a|v|e].
  - by apply (Hfinal (Next a) mb).
  - by apply (Hfinal (Return_ v) mb).
  - destruct (handler e mb) as [rp mp] eqn:Hh. apply (Hfinal rp mp).
    unfold handler in Hh.
    erewrite bind_next in Hh by apply set_error_type_classified.
    rewrite append_advance in Hh. injection Hh as <- <-. simpl.
    by rewrite app_nil_r.
Qed.

(** In a file that opens with a positive frame count, every position the
    probe seeks lies in the window of one of the checkpoints. *)
Lemma run_seeks {W} (cv2 : Backend W) video_path (w w3 : W)
    total_frames points frame_idx :
  opens_with cv2 video_path w total_frames w3 -> 0 < total_frames ->
  check_points total_frames = Ok points ->
  CallSet frame_idx ∈ calls (run_analyze_video cv2 video_path w).2 ->
  exists point, point ∈ points /\ frame_idx ∈ window total_frames point.
Proof.
  intros Hopens Hpos Hpoints Hcall.
  destruct (run_calls cv2 video_path w) as (rel & Hcalls & Hrel).
  rewrite Hcalls, (try_body_opened cv2 _ _ _ _ _ Hopens Hpos Hpoints) in Hcall.
  destruct (check_loop cv2 video_path (Z.of_nat (length points)) total_frames
              0 points (opened_machine video_path w3))
    as [r m] eqn:Hloop.
  assert (forall point f, point ∈ points -> f ∈ window total_frames point ->
            exists point', point' ∈ points /\ f ∈ window total_frames point')
    as Hwindows by eauto.
  destruct (emits_check_loop cv2 _ _ total_frames points _ 0 Hwindows _ _ _ Hloop)
    as (cs & Hcs & _ & _ & HP).
  simpl in Hcall. rewrite Hcs in Hcall.
  apply HP.
  apply elem_of_app in Hcall as [Hcall|Hcall].
  - apply elem_of_app in Hcall as [Hcall|Hcall]; [|done].
    simpl in Hcall. set_solver.
  - destruct Hrel as [-> | ->]; set_solver.
Qed.

(** X3: in a file that opens with a positive frame count, every position
    the probe seeks lies in the window of one of the checkpoints, and so
    within the video, whatever the backend answers to the seeks and
    reads. *)
Theorem seeks_within_video {W} (cv2 : Backend W) video_path (w w3 : W)
    total_frames :
  opens_with cv2 video_path w total_frames w3 -> 0 < total_frames ->
  exists points,
    check_points total_frames = Ok points /\
    forall frame_idx,
      CallSet frame_idx ∈ calls (run_analyze_video cv2 video_path w).2 ->
      0 <= frame_idx < total_frames /\
      exists point, point ∈ points /\ frame_idx ∈ window total_frames point.
Proof.
  intros Hopens Hpos.
  pose proof Hopens as (w1 & w2 & count & _ & _ & _ & Hvalid & Hint).
  destruct (check_points_total count total_frames Hvalid Hint Hpos)
    as (points & Hpoints & _ & _ & Hrange).
  exists points. split; [done|]. intros frame_idx Hcall.
  destruct (run_seeks cv2 _ _ _ _ _ _ Hopens Hpos Hpoints Hcall)
    as (point & Hpoint & Hwin).
  split; [|by exists point].
  rewrite Forall_forall in Hrange.
  by apply (window_within total_frames point _ (Hrange _ Hpoint)).
Qed.

Lemma seeks_within_video_witness :
  exists points,
    check_points 10 = Ok points /\
    forall frame_idx,
      CallSet frame_idx ∈
        calls (run_analyze_video (damaged_backend [3; 4]) (lit "clip.mp4") 0).2 ->
      0 <= frame_idx < 10 /\
      exists point, point ∈ points /\ frame_idx ∈ window 10 point.
Proof.
  apply (seeks_within_video (damaged_backend [3; 4]) (lit "clip.mp4") 0 0 10).
  - by exists 0, 0, ten_frames.
  - lia.
Defined.

(** ** Frame counts that cannot be used, exceptions on the way *)

Section Failures.
Context {W : Type} (cv2 : Backend W) (live : W -> Prop).

(** Lines 32-39 for a file that opens and tells some frame count. *)
Lemma try_body_counted video_path (w w1 w2 w3 : W) count :
  VideoCapture cv2 video_path w = (Ok tt, w1) ->
  isOpened cv2 w1 = (Ok true, w2) ->
  get_frame_count cv2 w2 = (Ok count, w3) ->
  try_body cv2 video_path (initial w) =
    (total_frames ← lift (PyFloat.to_int count);
     if total_frames <=? 0 then
       set_error_type DecodeFailure;; append LogNoFrameCount;;
       cap_release cv2;; return_
     else
       points ← lift (check_points total_frames);
       check_loop cv2 video_path (Z.of_nat (length points)) total_frames 0
         points) (opened_machine video_path w3).
Proof.
  intros Hopen Hopened Hget. unfold try_body.
  erewrite bind_next by (apply cap_assign_ok; exact Hopen).
  unfold cap_isOpened.
  erewrite (bind_next (cap ≫= _)); cycle 1.
  { erewrite bind_next by (by apply cap_bound_ok).
    apply invoke_ok. exact Hopened. }
  change (negb true) with false. cbv iota.
  erewrite bind_next by apply append_advance.
  unfold cap_get.
  erewrite (bind_next (cap ≫= _)); cycle 1.
  { erewrite bind_next by (by apply cap_bound_ok).
    apply invoke_ok. exact Hget. }
  done.
Qed.

Lemma attempt_raises i frame_idx e (m : machine W) :
  raises_on cv2 live frame_idx e -> live (world m) -> cap_bound m = true ->
  exists w cs,
    attempt cv2 i frame_idx m = (Raise e, advance m w [] cs) /\
    (cs = [CallSet frame_idx] \/ cs = attempt_calls frame_idx).
Proof.
  intros Hraises Hlive Hcap. unfold attempt, cap_set, cap_read.
  destruct (Hraises _ Hlive) as [(w1 & Hset)|(w1 & w2 & Hset & Hread)].
  - exists w1, [CallSet frame_idx]. split; [|by left].
    apply bind_raise.
    erewrite bind_next by (by apply cap_bound_ok). by apply invoke_err.
  - exists w2, (attempt_calls frame_idx). split; [|by right].
    rewrite (bind_next _ _ m tt (advance m w1 [] [CallSet frame_idx])); cycle 1.
    { erewrite bind_next by (by apply cap_bound_ok). by apply invoke_ok. }
    apply bind_raise.
    erewrite bind_next by (by apply cap_bound_ok).
    erewrite invoke_err by exact Hread. by rewrite advance_advance.
Qed.

(** A window in which a frame raises, the ones before it having failed,
    is left at that frame. *)
Lemma scan_frames_raises i before frame_idx after e (m : machine W) :
  Forall (fails_to_decode cv2 live) before ->
  raises_on cv2 live frame_idx e ->
  live (world m) -> cap_bound m = true ->
  exists w cs,
    scan_frames cv2 i (before ++ frame_idx :: after) m =
      (Raise e, advance m w (failures i before) (attempts_calls before ++ cs)) /\
    (cs = [CallSet frame_idx] \/ cs = attempt_calls frame_idx).
Proof.
  intros Hall Hraises. revert m. induction Hall as [|g rest Hf _ IH];
    intros m Hlive Hcap.
  - destruct (attempt_raises i _ _ _ Hraises Hlive Hcap) as (w1 & cs & Hatt & Hcs).
    exists w1, cs. split; [|done]. simpl scan_frames.
    by apply bind_raise.
  - destruct (attempt_fails cv2 live i _ _ Hf Hlive Hcap) as (w1 & Hlive1 & Hatt).
    destruct (IH (advance m w1 [LogAttempt i g false] (attempt_calls g))
                Hlive1 Hcap) as (w2 & cs & Hscan & Hcs).
    exists w2, cs. split; [|done]. simpl scan_frames.
    rewrite (bind_next _ _ _ _ _ Hatt). simpl. rewrite Hscan.
    rewrite advance_advance. unfold attempts_calls. simpl.
    do 2 f_equal.
Qed.
End Failures.

(** X4: when the file opens but its frame count, taken as an integer, is
    not positive, the probe returns DecodeFailure with the two entries
    "opened" and "frame count unavailable", seeks and reads nothing, and
    releases the handle twice. *)
Theorem frame_count_not_positive {W} (cv2 : Backend W) video_path
    (w w1 w2 w3 : W) count total_frames :
  VideoCapture cv2 video_path w = (Ok tt, w1) ->
  isOpened cv2 w1 = (Ok true, w2) ->
  get_frame_count cv2 w2 = (Ok count, w3) ->
  PyFloat.to_int count = Ok total_frames -> total_frames <= 0 ->
  analyze_video cv2 video_path w =
    (Returned DecodeFailure [LogOpenOk; LogNoFrameCount],
     release cv2 (release cv2 w3)) /\
  calls (run_analyze_video cv2 video_path w).2 =
    [CallVideoCapture video_path; CallIsOpened; CallGet; CallRelease; CallRelease].
Proof.
  intros Hopen Hopened Hget Hint Hle.
  pose proof (try_body_counted cv2 _ _ _ _ _ _ Hopen Hopened Hget) as Hbody.
  rewrite Hint in Hbody.
  erewrite (bind_next (lift (Ok total_frames))) in Hbody by done.
  destruct (Z.leb_spec total_frames 0) as [_|]; [|lia].
  erewrite bind_next in Hbody by apply set_error_type_classified.
  erewrite bind_next in Hbody by apply append_advance.
  erewrite bind_next in Hbody by (by apply cap_release_bound).
  pose proof (run_after_return cv2 _ _ _ _ Hbody eq_refl) as Hrun.
  unfold analyze_video. by rewrite Hrun.
Qed.

Lemma frame_count_not_positive_witness :
  analyze_video (counting_backend (S754_zero false)) (lit "clip.mp4") tt =
    (Returned DecodeFailure [LogOpenOk; LogNoFrameCount],
     release (counting_backend (S754_zero false))
       (release (counting_backend (S754_zero false)) tt)) /\
  calls (run_analyze_video (counting_backend (S754_zero false))
           (lit "clip.mp4") tt).2 =
    [CallVideoCapture (lit "clip.mp4"); CallIsOpened; CallGet;
     CallRelease; CallRelease].
Proof.
  apply (frame_count_not_positive (counting_backend (S754_zero false))
           (lit "clip.mp4") tt tt tt tt (S754_zero false) 0); try reflexivity.
  all: lia.
Defined.

(** X5: when the file opens but the frame count is not a number or is
    infinite, [int()] raises; the exception is caught, the probe returns
    DecodeFailure with the exception logged after "opened", nothing is
    sought or read, and the handle is released once. *)
Theorem frame_count_not_finite {W} (cv2 : Backend W) video_path
    (w w1 w2 w3 : W) count :
  VideoCapture cv2 video_path w = (Ok tt, w1) ->
  isOpened cv2 w1 = (Ok true, w2) ->
  get_frame_count cv2 w2 = (Ok count, w3) ->
  (count = S754_nan \/ exists s, count = S754_infinity s) ->
  exists e,
    PyFloat.to_int count = Err e /\
    analyze_video cv2 video_path w =
      (Returned DecodeFailure [LogOpenOk; LogException e], release cv2 w3) /\
    calls (run_analyze_video cv2 video_path w).2 =
      [CallVideoCapture video_path; CallIsOpened; CallGet; CallRelease].
Proof.
  intros Hopen Hopened Hget Hcount.
  pose proof (try_body_counted cv2 _ _ _ _ _ _ Hopen Hopened Hget) as Hbody.
  assert (exists e, PyFloat.to_int count = Err e) as [e He]
    by (destruct Hcount as [->|[s ->]]; by eexists).
  exists e. split; [done|]. rewrite He in Hbody.
  erewrite (bind_raise (lift (Err e))) in Hbody by done.
  pose proof (run_after_raise cv2 _ _ _ _ Hbody eq_refl) as Hrun.
  unfold analyze_video. by rewrite Hrun.
Qed.

Lemma frame_count_not_finite_witness :
  exists e,
    PyFloat.to_int S754_nan = Err e /\
    analyze_video (counting_backend S754_nan) (lit "clip.mp4") tt =
      (Returned DecodeFailure [LogOpenOk; LogException e],
       release (counting_backend S754_nan) tt) /\
    calls (run_analyze_video (counting_backend S754_nan) (lit "clip.mp4") tt).2 =
      [CallVideoCapture (lit "clip.mp4"); CallIsOpened; CallGet; CallRelease].
Proof.
  apply (frame_count_not_finite (counting_backend S754_nan)
           (lit "clip.mp4") tt tt tt tt S754_nan); try reflexivity.
  all: by left.
Defined.

(** X6: when the notices of line 55 can be printed (the base name has
    no lone surrogate), the windows of the checkpoints before [point] each
    yield a success and, in the window of [point], a frame raises on seek
    or read after the frames before it have failed, the exception is
    caught: the probe returns DecodeFailure, the log keeps what was logged
    and ends with the exception, no later frame is sought, and the handle
    is released once. *)
Theorem exception_in_window {W} (cv2 : Backend W) (live : W -> Prop)
    video_path (w w3 : W) total_frames before point after
    frames_before frame_idx frames_after e :
  opens_with cv2 video_path w total_frames w3 -> live w3 ->
  0 < total_frames ->
  check_points total_frames = Ok (before ++ point :: after) ->
  encodable (basename video_path) ->
  Forall (fun p => yields_success cv2 live (window total_frames p)) before ->
  window total_frames point = frames_before ++ frame_idx :: frames_after ->
  Forall (fails_to_decode cv2 live) frames_before ->
  raises_on cv2 live frame_idx e ->
  exists entries cs last w',
    let i := Z.of_nat (length before) in
    analyze_video cv2 video_path w =
      (Returned DecodeFailure
         ([LogOpenOk] ++ entries ++ failures i frames_before ++ [LogException e]),
       w') /\
    calls (run_analyze_video cv2 video_path w).2 =
      [CallVideoCapture video_path; CallIsOpened; CallGet] ++ cs ++
      attempts_calls frames_before ++ last ++ [CallRelease] /\
    (last = [CallSet frame_idx] \/ last = attempt_calls frame_idx) /\
    Forall (attempt_between 0 i) entries /\
    Forall is_probe_call cs.
Proof.
  intros Hopens Hlive Hpos Hpoints Hname Hbefore Hwin Hfail Hraises.
  pose proof (try_body_opened cv2 _ _ _ _ _ Hopens Hpos Hpoints) as Hbody.
  destruct (check_loop_passes cv2 live video_path
              (Z.of_nat (length (before ++ point :: after))) total_frames
              before 0 (opened_machine video_path w3) Hname Hbefore Hlive
              eq_refl)
    as (w4 & entries & cs & Hloop & Hlive4 & Hentries & Hcs).
  rewrite (check_loop_app cv2 _ _ _ _ _ _ _ _ Hloop) in Hbody.
  destruct (scan_frames_raises cv2 live (0 + Z.of_nat (length before))
              frames_before frame_idx frames_after e
              (advance (opened_machine video_path w3) w4 entries cs)
              Hfail Hraises Hlive4 eq_refl) as (w5 & last & Hscan & Hlast).
  simpl check_loop in Hbody.
  rewrite (bind_next _ _ _ _ _ (print_notice_ok video_path _ _ _ Hname))
    in Hbody.
  unfold check_window in Hbody. rewrite Hwin in Hbody.
  rewrite (bind_raise _ _ _ _ _ Hscan) in Hbody.
  pose proof (run_after_raise cv2 _ _ _ _ Hbody eq_refl) as Hrun.
  exists entries, cs, last, (release cv2 w5). cbv zeta.
  unfold analyze_video. rewrite Hrun. simpl.
  rewrite Z.add_0_l in *. repeat split; try done.
  - by rewrite <- !app_assoc.
  - by rewrite <- !app_assoc.
Qed.

Lemma exception_in_window_witness :
  exists entries cs last w',
    let i := Z.of_nat (length [0; 1; 2; 3; 4]) in
    analyze_video (throwing_backend 3) (lit "clip.mp4") 0 =
      (Returned DecodeFailure
         ([LogOpenOk] ++ entries ++ failures i [] ++
          [LogException (BackendError (lit "Unknown C++ exception"))]),
       w') /\
    calls (run_analyze_video (throwing_backend 3) (lit "clip.mp4") 0).2 =
      [CallVideoCapture (lit "clip.mp4"); CallIsOpened; CallGet] ++ cs ++
      attempts_calls [] ++ last ++ [CallRelease] /\
    (last = [CallSet 3] \/ last = attempt_calls 3) /\
    Forall (attempt_between 0 i) entries /\
    Forall is_probe_call cs.
Proof.
  apply (exception_in_window (throwing_backend 3) anywhere (lit "clip.mp4")
           0 0 10 [0; 1; 2; 3; 4] 5 [6; 7; 8; 9] [] 3 [4; 5; 6; 7]).
  - by exists 0, 0, ten_frames.
  - exact I.
  - lia.
  - vm_compute. reflexivity.
  - repeat constructor.
  - repeat apply Forall_cons_2; [..|apply Forall_nil_2].
    + exists [], 0, [1; 2; 3; 4]. split; [reflexivity|]. split; [constructor|].
      intros w _; eexists _, _, _; simpl; repeat split.
    + exists [], 0, [1; 2; 3]. split; [reflexivity|]. split; [constructor|].
      intros w _; eexists _, _, _; simpl; repeat split.
    + exists [], 0, [1; 2; 3; 4]. split; [reflexivity|]. split; [constructor|].
      intros w _; eexists _, _, _; simpl; repeat split.
    + exists [], 1, [2; 3; 4; 5]. split; [reflexivity|]. split; [constructor|].
      intros w _; eexists _, _, _; simpl; repeat split.
    + exists [], 2, [3; 4; 5; 6]. split; [reflexivity|]. split; [constructor|].
      intros w _; eexists _, _, _; simpl; repeat split.
  - reflexivity.
  - constructor.
  - intros w _. right. eexists _, _. simpl. split; reflexivity.
Defined.

(** ** Where the checkpoints lie *)

Module PyFloatBound.
Import PyFloat PyFloatAux PyFloatFacts.

(** No position [int(total_frames * (i/20))] lies beyond 96 percent of
    the frame count. *)
Lemma check_point_below count n i :
valid_binary prec emax count = true ->
to_int count = Ok n -> 0 < n -> 0 <= i < 20 ->
exists v, check_point n i = Ok v /\ 0 <= v /\ 100 * v <= 96 * n.
Proof.
intros Hvalid Hint Hpos Hi.
destruct (of_int_exact count n Hvalid Hint Hpos)
  as (mn & en & Hof & Hmn & Hen & Hval).
pose proof (fractions_ok i Hi) as Hfrac.
unfold check_point. destruct (int_truediv i 20) as [frac|]; [|done].
cbn [mbind result_bind]. unfold int_mul. rewrite Hof. cbn [mbind result_bind].
destruct frac as [[]| | |[] mi ei]; try done.
- exists 0. split; [done|lia].
- simpl in Hfrac.
  repeat (apply andb_prop in Hfrac as [Hfrac ?]).
  repeat match goal with
         | H : (_ <=? _) = true |- _ => apply Z.leb_le in H
         | H : (_ <? _) = true |- _ => apply Z.ltb_lt in H
         end.
  destruct (mul_bound mn mi en ei) as (m & e & Hmul & He & Hbound);
    try lia.
  unfold mul. rewrite Hmul. cbn [to_int cond_Zopp].
  eexists. split; [reflexivity|]. split; [apply Z.shiftl_nonneg; lia|].
  pose proof (shiftl_scaled (Z.pos m) e (52 - ei) ltac:(lia) ltac:(lia)
                ltac:(lia)) as Hsc.
  assert (100 * (Z.pos m * 2 ^ (e + (52 - ei))) <= 96 * (n * 2 ^ (52 - ei)))
    as Hle.
  { replace (e + (52 - ei)) with ((e - (en + ei)) + (en + 52)) by lia.
    rewrite Z.pow_add_r by lia.
    replace (52 - ei) with (52 + (- ei)) by lia.
    rewrite (Z.pow_add_r 2 52) by lia.
    assert (0 < 2 ^ (en + 52)) as HB by (apply Z.pow_pos_nonneg; lia).
    assert (100 * (Z.pos mn * Z.pos mi + 2 ^ 53) <= 96 * (Z.pos mn * 2 ^ (- ei)))
      as Hfrac'.
    { assert (ei = -57 \/ ei = -56 \/ ei = -55 \/ ei = -54 \/ ei = -53)
        as Hcases by lia.
      unfold m19 in *.
      destruct Hcases as [->|[->|[->|[->| ->]]]]; simpl in *; nia. }
    apply Z.le_trans
      with (100 * ((Z.pos mn * Z.pos mi + 2 ^ 53) * 2 ^ (en + 52))).
    - apply Z.mul_le_mono_nonneg_l; [lia|].
      rewrite Z.mul_assoc. apply Z.mul_le_mono_nonneg_r; lia.
    - replace (n * (2 ^ 52 * 2 ^ (- ei)))
        with (Z.pos mn * 2 ^ (- ei) * 2 ^ (en + 52))
        by (rewrite Z.mul_assoc, Hval; lia).
      rewrite !Z.mul_assoc. apply Z.mul_le_mono_nonneg_r; lia. }
  assert (0 < 2 ^ (52 - ei)) by (apply Z.pow_pos_nonneg; lia).
  nia.
Qed.

(** The first position, [int(total_frames * (0/20))], is frame 0. *)
Lemma check_point_first count n :
valid_binary prec emax count = true ->
to_int count = Ok n -> 0 < n -> check_point n 0 = Ok 0.
Proof.
intros Hvalid Hint Hpos.
destruct (of_int_exact count n Hvalid Hint Hpos)
  as (mn & en & Hof & Hmn & Hen & Hval).
unfold check_point.
change (int_truediv 0 20) with (Ok (S754_zero false) : result float).
cbn [mbind result_bind]. unfold int_mul. rewrite Hof. done.
Qed.
End PyFloatBound.

Lemma mapE_elem {A B} (f : A -> result B) l bs b :
  mapE f l = Ok bs -> b ∈ bs -> exists a, a ∈ l /\ f a = Ok b.
Proof.
  revert bs. induction l as [|a l IH]; intros bs H Hb; simpl in H.
  - injection H as <-. by apply elem_of_nil in Hb.
  - destruct (f a) as [b'|] eqn:Hfa; [|done]. cbn [mbind result_bind] in H.
    destruct (mapE f l) as [bs'|]; [|done]. cbn [mbind result_bind] in H.
    injection H as <-. apply elem_of_cons in Hb as [->|Hb].
    + exists a. split; [set_solver|done].
    + destruct (IH bs' eq_refl Hb) as (a' & Ha' & Hfa').
      exists a'. split; [set_solver|done].
Qed.

Lemma mapE_elem_of {A B} (f : A -> result B) l bs a b :
  mapE f l = Ok bs -> a ∈ l -> f a = Ok b -> b ∈ bs.
Proof.
  revert bs. induction l as [|a' l IH]; intros bs H Ha Hfa; simpl in H.
  - by apply elem_of_nil in Ha.
  - destruct (f a') as [b'|] eqn:Hfa'; [|done]. cbn [mbind result_bind] in H.
    destruct (mapE f l) as [bs'|]; [|done]. cbn [mbind result_bind] in H.
    injection H as <-. apply elem_of_cons in Ha as [->|Ha].
    + assert (b = b') as -> by congruence. set_solver.
    + apply elem_of_cons. right. by apply (IH bs').
Qed.

(** The checkpoints are exactly the values [int(total_frames * (i/20))]. *)
Lemma check_points_elem total_frames points point :
  check_points total_frames = Ok points ->
  point ∈ points <->
  exists i, 0 <= i < 20 /\ check_point total_frames i = Ok point.
Proof.
  unfold check_points. intros H.
  destruct (mapE (check_point total_frames) (py_range 0 20)) as [raw|] eqn:Hraw;
    [|done].
  cbn [mbind result_bind] in H. injection H as <-.
  rewrite merge_sort_Permutation, elem_of_elements, elem_of_list_to_set.
  split.
  - intros Hin. destruct (mapE_elem _ _ _ _ Hraw Hin) as (i & Hi & Hv).
    exists i. split; [by apply py_range_elem in Hi|done].
  - intros (i & Hi & Hv). apply (mapE_elem_of _ _ _ i _ Hraw); [|done].
    by apply py_range_elem.
Qed.

(** A strictly ascending list of naturals that holds 0 starts with it. *)
Lemma sorted_head (l : list Z) :
  StronglySorted Z.lt l -> Forall (fun x => 0 <= x) l -> 0 ∈ l ->
  exists rest, l = 0 :: rest.
Proof.
  intros Hsorted Hnn Hin. destruct l as [|x rest]; [by apply elem_of_nil in Hin|].
  exists rest. f_equal.
  apply StronglySorted_inv in Hsorted as [_ Hall].
  apply Forall_cons in Hnn as [Hx _].
  apply elem_of_cons in Hin as [->|Hin]; [done|].
  rewrite Forall_forall in Hall. specialize (Hall _ Hin). lia.
Qed.

(** X7: for every positive frame count the backend can report, the
    checkpoints start with frame 0, are at most twenty, and none lies
    beyond 96 percent of the frame count. *)
Theorem checkpoints_span count total_frames :
  valid_binary PyFloat.prec PyFloat.emax count = true ->
  PyFloat.to_int count = Ok total_frames -> 0 < total_frames ->
  exists rest,
    check_points total_frames = Ok (0 :: rest) /\
    (length rest < 20)%nat /\
    Forall (fun point => 0 < point /\ 100 * point <= 96 * total_frames) rest.
Proof.
  intros Hvalid Hint Hpos.
  destruct (check_points_total count total_frames Hvalid Hint Hpos)
    as (points & Hpoints & Hsorted & _ & Hrange).
  destruct (sorted_head points Hsorted) as (rest & ->).
  { eapply Forall_impl; [exact Hrange|]. simpl. lia. }
  { apply (check_points_elem _ _ _ Hpoints). exists 0. split; [lia|].
    by apply (PyFloatBound.check_point_first count). }
  exists rest. split; [done|]. split.
  - apply check_points_length in Hpoints. simpl in Hpoints. lia.
  - apply Forall_forall. intros point Hin. split.
    + apply StronglySorted_inv in Hsorted as [_ Hall].
      rewrite Forall_forall in Hall. by apply Hall.
    + assert (point ∈ 0 :: rest) as Hin' by set_solver.
      apply (check_points_elem _ _ _ Hpoints) in Hin' as (i & Hi & Hv).
      destruct (PyFloatBound.check_point_below count total_frames i)
        as (v & Hv' & _ & Hle); try done.
      congruence.
Qed.

Lemma checkpoints_span_witness :
  exists rest,
    check_points 90 = Ok (0 :: rest) /\
    (length rest < 20)%nat /\
    Forall (fun point => 0 < point /\ 100 * point <= 96 * 90) rest.
Proof.
  apply (checkpoints_span (S754_finite false 6333186975989760 (-46)) 90).
  - vm_compute. reflexivity.
  - vm_compute. reflexivity.
  - lia.
Defined.

(** X8: in a file that opens with at least a hundred frames, no frame
    beyond 96 percent of the video plus two is ever sought; the last frame
    in particular is never looked at, whatever the backend answers. *)
Theorem tail_never_sought {W} (cv2 : Backend W) video_path (w w3 : W)
    total_frames frame_idx :
  opens_with cv2 video_path w total_frames w3 -> 100 <= total_frames ->
  CallSet frame_idx ∈ calls (run_analyze_video cv2 video_path w).2 ->
  100 * frame_idx <= 96 * total_frames + 200 /\ frame_idx < total_frames - 1.
Proof.
  intros Hopens Hbig Hcall.
  pose proof Hopens as (w1 & w2 & count & _ & _ & _ & Hvalid & Hint).
  destruct (check_points_total count total_frames Hvalid Hint ltac:(lia))
    as (points & Hpoints & _ & _ & Hrange).
  destruct (run_seeks cv2 _ _ _ _ _ _ Hopens ltac:(lia) Hpoints Hcall)
    as (point & Hpoint & Hwin).
  apply (check_points_elem _ _ _ Hpoints) in Hpoint as (i & Hi & Hv).
  destruct (PyFloatBound.check_point_below count total_frames i)
    as (v & Hv' & Hnn & Hle); try done; [lia|].
  assert (v = point) as -> by congruence.
  apply window_elem in Hwin. revert Hwin. unfold frames_to_check.
  destruct (Z.eqb_spec point 0); [|destruct (Z.eqb_spec point (total_frames - 1))];
    simpl; lia.
Qed.

Lemma tail_never_sought_witness :
  100 * 93 <= 96 * 100 + 200 /\ 93 < 100 - 1.
Proof.
  apply (tail_never_sought
           (counting_backend (S754_finite false 7036874417766400 (-46)))
           (lit "clip.mp4") tt tt 100 93).
  - exists tt, tt, (S754_finite false 7036874417766400 (-46)).
    repeat split; vm_compute; reflexivity.
  - lia.
  - apply list_elem_of_In. vm_compute. tauto.
Defined.

(** ** What a verdict rests on *)

Section Verdict.
Context {W : Type} (cv2 : Backend W).

Lemma attempt_log i frame_idx (m : machine W) r m' :
  attempt cv2 i frame_idx m = (r, m') ->
  match r with
  | Next ok => step_log m' = step_log m ++ [LogAttempt i frame_idx ok]
  | Return_ _ => False
  | Raise _ => step_log m' = step_log m
  end.
Proof.
  unfold attempt, cap_set, cap_read, mbind, M_bind, cap, invoke, append,
    mret, M_ret.
  destruct m as [w0 et0 log0 [|] cs0]; simpl; [|by intros [= <- <-]].
  destruct (set_pos_frames cv2 frame_idx w0) as [[[]|e] w1]; simpl;
    [|by intros [= <- <-]].
  destruct (read cv2 w1) as [[[ret frame]|e] w2]; simpl;
    [|by intros [= <- <-]].
  destruct (ret && _); simpl; by intros [= <- <-].
Qed.

Lemma scan_frames_log i frames : forall (m : machine W) r m',
  scan_frames cv2 i frames m = (r, m') ->
  exists entries, step_log m' = step_log m ++ entries /\
    match r with
    | Next true =>
        exists before frame_idx after,
          frames = before ++ frame_idx :: after /\
          entries = failures i before ++ [LogAttempt i frame_idx true]
    | Next false => entries = failures i frames
    | Return_ _ => False
    | Raise _ => True
    end.
Proof.
  induction frames as [|f rest IH]; intros m r m' H; simpl in H.
  - injection H as <- <-. exists []. by rewrite app_nil_r.
  - unfold mbind, M_bind in H.
    destruct (attempt cv2 i f m) as [[ok|v|e] m1] eqn:Hatt;
      apply attempt_log in Hatt; [|done|].
    + destruct ok.
      * injection H as <- <-. exists [LogAttempt i f true]. split; [done|].
        by exists [], f, rest.
      * destruct (IH _ _ _ H) as (entries & Hlog & Hr).
        exists (LogAttempt i f false :: entries). split.
        { rewrite Hlog, Hatt. by rewrite <- app_assoc. }
        destruct r as [[|]|v|e]; try done.
        -- destruct Hr as (before & g & after & -> & ->).
           by exists (f :: before), g, after.
        -- by rewrite Hr.
    + injection H as <- <-. exists []. by rewrite app_nil_r.
Qed.

Lemma check_loop_log video_path n total_frames points :
  forall i (m : machine W) r m',
  check_loop cv2 video_path n total_frames i points m = (r, m') ->
  exists entries, step_log m' = step_log m ++ entries /\
    match r with
    | Next _ => passed total_frames i points entries
    | Return_ v =>
        v = (DecodeFailure, step_log m') /\
        exists front point, entries = front ++ [LogAllFailed point]
    | Raise _ => True
    end.
Proof.
  induction points as [|point rest IH]; intros i m r m' H; simpl in H.
  - injection H as <- <-. exists []. by rewrite app_nil_r.
  - unfold mbind at 1, M_bind at 1 in H.
    destruct (print_notice video_path i n m) as [r0 m0] eqn:Hprint.
    apply print_notice_cases in Hprint as [-> [-> |[e0 ->]]]; cycle 1.
    { injection H as <- <-. exists []. by rewrite app_nil_r. }
    unfold check_window in H. unfold mbind at 1, M_bind at 1 in H.
    destruct (scan_frames cv2 i (window total_frames point) m)
      as [[ok|v|e] m1] eqn:Hscan;
      apply scan_frames_log in Hscan as (entries1 & Hlog1 & Hr1); [|done|].
    + destruct ok.
      * destruct (IH _ _ _ _ H) as (entries & Hlog & Hr).
        destruct Hr1 as (before & f & after & Hwin & ->).
        exists ((failures i before ++ [LogAttempt i f true]) ++ entries). split.
        { rewrite Hlog, Hlog1. by rewrite <- !app_assoc. }
        destruct r as [a|v|e]; [|..|done].
        -- simpl. exists before, f, after, entries.
           split; [done|]. split; [by rewrite <- app_assoc|done].
        -- destruct Hr as (Hv & front & p & ->). split; [done|].
           exists ((failures i before ++ [LogAttempt i f true]) ++ front), p.
           by rewrite <- !app_assoc.
      * erewrite bind_next in H by apply set_error_type_classified.
        erewrite bind_next in H by apply append_advance.
        destruct (cap_bound m1) eqn:Hcap.
        -- erewrite bind_next in H by (by apply cap_release_bound).
           injection H as <- <-. simpl. rewrite Hlog1.
           exists (entries1 ++ [LogAllFailed point]).
           split; [by rewrite app_nil_r, <- app_assoc|]. split; [done|].
           by exists entries1, point.
        -- erewrite bind_raise in H by (by apply cap_release_unbound).
           injection H as <- <-. simpl. rewrite Hlog1.
           exists (entries1 ++ [LogAllFailed point]).
           split; [by rewrite ?app_nil_r, <- app_assoc|done].
    + injection H as <- <-. by exists entries1.
Qed.

(** Lines 32-83, read backwards from the way the [try] was left. *)
Lemma try_body_log video_path (w w1 : W) r m1 :
  VideoCapture cv2 video_path w = (Ok tt, w1) ->
  try_body cv2 video_path (initial w) = (r, m1) ->
  match r with
  | Next _ =>
      exists w2 w3 count total_frames points entries,
        isOpened cv2 w1 = (Ok true, w2) /\
        get_frame_count cv2 w2 = (Ok count, w3) /\
        PyFloat.to_int count = Ok total_frames /\ 0 < total_frames /\
        check_points total_frames = Ok points /\
        step_log m1 = LogOpenOk :: entries /\
        passed total_frames 0 points entries
  | Return_ v =>
      (exists w2,
         isOpened cv2 w1 = (Ok false, w2) /\
         v = (OpenFailure, [LogOpenFailed]) /\ world m1 = w2 /\
         calls m1 = [CallVideoCapture video_path; CallIsOpened]) \/
      (exists w2 front cause,
         isOpened cv2 w1 = (Ok true, w2) /\
         v = (DecodeFailure, LogOpenOk :: front ++ [cause]) /\
         names_cause cause = true)
  | Raise _ => True
  end.
Proof.
  intros Hopen Hbody.
  destruct (isOpened cv2 w1) as [[[|]|e] w2] eqn:Hopened.
  - destruct (get_frame_count cv2 w2) as [[count|e] w3] eqn:Hget.
    + rewrite (try_body_counted cv2 _ _ _ _ _ _ Hopen Hopened Hget) in Hbody.
      destruct (PyFloat.to_int count) as [total_frames|e] eqn:Hint.
      * erewrite (bind_next (lift (Ok total_frames))) in Hbody by done.
        destruct (Z.leb_spec total_frames 0) as [Hle|Hpos].
        -- erewrite bind_next in Hbody by apply set_error_type_classified.
           erewrite bind_next in Hbody by apply append_advance.
           erewrite bind_next in Hbody by (by apply cap_release_bound).
           injection Hbody as <- <-. right.
           by exists w2, [], LogNoFrameCount.
        -- destruct (check_points total_frames) as [points|e] eqn:Hpoints.
           ++ erewrite (bind_next (lift (Ok points))) in Hbody by done.
              apply check_loop_log in Hbody as (entries & Hlog & Hr).
              simpl in Hlog. destruct r as [a|v|e]; [| |done].
              ** by exists w2, w3, count, total_frames, points, entries.
              ** destruct Hr as (-> & front & point & ->). right.
                 exists w2, front, (LogAllFailed point). rewrite Hlog.
                 done.
           ++ erewrite (bind_raise (lift (Err e))) in Hbody by done.
              by injection Hbody as <- <-.
      * erewrite (bind_raise (lift (Err e))) in Hbody by done.
        by injection Hbody as <- <-.
    + unfold try_body in Hbody.
      erewrite bind_next in Hbody by (apply cap_assign_ok; exact Hopen).
      unfold cap_isOpened in Hbody.
      erewrite (bind_next (cap ≫= _)) in Hbody; cycle 1.
      { erewrite bind_next by (by apply cap_bound_ok).
        apply invoke_ok. exact Hopened. }
      change (negb true) with false in Hbody. cbv iota in Hbody.
      erewrite bind_next in Hbody by apply append_advance.
      unfold cap_get in Hbody.
      erewrite (bind_raise (cap ≫= _)) in Hbody; cycle 1.
      { erewrite bind_next by (by apply cap_bound_ok).
        apply invoke_err. exact Hget. }
      by injection Hbody as <- <-.
  - rewrite (try_body_not_opened cv2 video_path w w2) in Hbody
      by (by exists w1).
    injection Hbody as <- <-. left. by exists w2.
  - unfold try_body in Hbody.
    erewrite bind_next in Hbody by (apply cap_assign_ok; exact Hopen).
    unfold cap_isOpened in Hbody.
    erewrite (bind_raise (cap ≫= _)) in Hbody; cycle 1.
    { erewrite bind_next by (by apply cap_bound_ok).
      apply invoke_err. exact Hopened. }
    by injection Hbody as <- <-.
Qed.

(** Every way [analyze_video] returns, read backwards. *)
Lemma verdict_cases video_path (w : W) et log w' :
  analyze_video cv2 video_path w = (Returned et log, w') ->
  exists w1, VideoCapture cv2 video_path w = (Ok tt, w1) /\
  ((et = OK /\
    exists w2 w3 count total_frames points entries,
      isOpened cv2 w1 = (Ok true, w2) /\
      get_frame_count cv2 w2 = (Ok count, w3) /\
      PyFloat.to_int count = Ok total_frames /\ 0 < total_frames /\
      check_points total_frames = Ok points /\
      log = LogOpenOk :: entries /\
      passed total_frames 0 points entries) \/
   (et = OpenFailure /\
    exists w2,
      isOpened cv2 w1 = (Ok false, w2) /\ log = [LogOpenFailed] /\
      w' = release cv2 w2 /\
      calls (run_analyze_video cv2 video_path w).2 =
        [CallVideoCapture video_path; CallIsOpened; CallRelease]) \/
   (et = DecodeFailure /\
    exists front cause, log = front ++ [cause] /\
      names_cause cause = true)).
Proof.
  intros H.
  destruct (VideoCapture cv2 video_path w) as [[[]|e] w1] eqn:Hopen; cycle 1.
  { by rewrite (constructor_raises_propagates cv2 _ _ _ _ Hopen) in H. }
  exists w1. split; [done|].
  destruct (try_body cv2 video_path (initial w)) as [r m1] eqn:Hbody.
  assert (cap_bound m1 = true /\
          match r with Next _ => error_type m1 = 0 | _ => True end)
    as [Hcap Het].
  { pose proof Hbody as Hbody'. unfold try_body in Hbody'.
    erewrite bind_next in Hbody' by (apply cap_assign_ok; exact Hopen).
    pose proof (fun Hb => tame_after_assign cv2 _ _ _ _ Hb Hbody') as Ht.
    destruct (Ht eq_refl) as [? Hr].
    split; [done|]. by destruct r. }
  pose proof (try_body_log _ _ _ _ _ Hopen Hbody) as Hlog.
  unfold analyze_video in H.
  destruct r as [[]|v|e].
  - rewrite (run_after_next cv2 _ _ _ Hbody Hcap) in H. simpl in H.
    injection H as <- <- <-. left. split; [done|].
    destruct Hlog as (w2 & w3 & count & n & points & entries & ?).
    by exists w2, w3, count, n, points, entries.
  - rewrite (run_after_return cv2 _ _ _ _ Hbody Hcap) in H. simpl in H.
    destruct Hlog as [(w2 & Hopened & -> & Hw & Hcalls)
                     |(w2 & front & cause & Hopened & -> & Hcause)].
    + injection H as <- <- <-. right; left. split; [done|].
      exists w2. rewrite Hw. repeat split; try done.
      rewrite (run_after_return cv2 _ _ _ _ Hbody Hcap). simpl.
      by rewrite Hcalls.
    + injection H as <- <- <-. right; right. split; [done|].
      by exists (LogOpenOk :: front), cause.
  - rewrite (run_after_raise cv2 _ _ _ _ Hbody Hcap) in H. simpl in H.
    injection H as <- <- <-. right; right. split; [done|].
    by exists (step_log m1), (LogException e).
Qed.
End Verdict.

(** X9: a file is reported intact only if the constructor returned, the file
    opened, the backend reported a positive frame count, and every
    checkpoint gave a frame that decoded: the returned log is the "opened"
    entry followed, for each checkpoint in order, by the failed attempts
    on the frames of its window before the first that decoded and the
    successful attempt on that frame, and by nothing else. *)
Theorem ok_verdict_earned {W} (cv2 : Backend W) video_path (w : W) log w' :
  analyze_video cv2 video_path w = (Returned OK log, w') ->
  exists w1 w2 w3 count total_frames points entries,
    VideoCapture cv2 video_path w = (Ok tt, w1) /\
    isOpened cv2 w1 = (Ok true, w2) /\
    get_frame_count cv2 w2 = (Ok count, w3) /\
    PyFloat.to_int count = Ok total_frames /\ 0 < total_frames /\
    check_points total_frames = Ok points /\
    log = LogOpenOk :: entries /\
    passed total_frames 0 points entries.
Proof.
  intros H.
  destruct (verdict_cases cv2 _ _ _ _ _ H)
    as (w1 & Hopen & [(_ & Hok)|[(Het & _)|(Het & _)]]); try done.
  destruct Hok as (w2 & w3 & count & n & points & entries & ?).
  by exists w1, w2, w3, count, n, points, entries.
Qed.

Lemma ok_verdict_earned_witness :
  exists w1 w2 w3 count total_frames points entries,
    VideoCapture sound_backend (lit "clip.mp4") tt = (Ok tt, w1) /\
    isOpened sound_backend w1 = (Ok true, w2) /\
    get_frame_count sound_backend w2 = (Ok count, w3) /\
    PyFloat.to_int count = Ok total_frames /\ 0 < total_frames /\
    check_points total_frames = Ok points /\
    returned_log (analyze_video sound_backend (lit "clip.mp4") tt).1 =
      LogOpenOk :: entries /\
    passed total_frames 0 points entries.
Proof.
  apply (ok_verdict_earned sound_backend (lit "clip.mp4") tt
           (returned_log (analyze_video sound_backend (lit "clip.mp4") tt).1)
           tt).
  vm_compute. reflexivity.
Defined.

(** X10: a verdict other than intact comes with its cause.  OpenFailure is
    returned only when [isOpened()] answered false; the log is then the
    single "open failed" entry, nothing but the constructor, [isOpened] and
    one [release] was called.  DecodeFailure is returned only with a log
    whose last entry names the cause: no frame count, a window without a
    frame that decodes, or an exception. *)
Theorem failure_verdict_explained {W} (cv2 : Backend W) video_path (w : W)
    et log w' :
  analyze_video cv2 video_path w = (Returned et log, w') -> et <> OK ->
  (et = OpenFailure /\
   exists w1 w2,
     VideoCapture cv2 video_path w = (Ok tt, w1) /\
     isOpened cv2 w1 = (Ok false, w2) /\ log = [LogOpenFailed] /\
     w' = release cv2 w2 /\
     calls (run_analyze_video cv2 video_path w).2 =
       [CallVideoCapture video_path; CallIsOpened; CallRelease]) \/
  (et = DecodeFailure /\
   exists front cause, log = front ++ [cause] /\
     names_cause cause = true).
Proof.
  intros H Het.
  destruct (verdict_cases cv2 _ _ _ _ _ H)
    as (w1 & Hopen & [(? & _)|[(? & Hclosed)|(? & Hcause)]]); try done.
  - left. split; [done|]. destruct Hclosed as (w2 & ?). by exists w1, w2.
  - by right.
Qed.

Lemma failure_verdict_explained_witness :
  (DecodeFailure = OpenFailure /\
   exists w1 w2,
     VideoCapture (damaged_backend [0; 1; 2; 3; 4]) (lit "clip.mp4") 0 = (Ok tt, w1) /\
     isOpened (damaged_backend [0; 1; 2; 3; 4]) w1 = (Ok false, w2) /\
     returned_log (analyze_video (damaged_backend [0; 1; 2; 3; 4]) (lit "clip.mp4") 0).1 =
       [LogOpenFailed] /\
     (analyze_video (damaged_backend [0; 1; 2; 3; 4]) (lit "clip.mp4") 0).2 =
       release (damaged_backend [0; 1; 2; 3; 4]) w2 /\
     calls (run_analyze_video (damaged_backend [0; 1; 2; 3; 4]) (lit "clip.mp4") 0).2 =
       [CallVideoCapture (lit "clip.mp4"); CallIsOpened; CallRelease]) \/
  (DecodeFailure = DecodeFailure /\
   exists front cause,
     returned_log (analyze_video (damaged_backend [0; 1; 2; 3; 4]) (lit "clip.mp4") 0).1 =
       front ++ [cause] /\
     names_cause cause = true).
Proof.
  apply (failure_verdict_explained (damaged_backend [0; 1; 2; 3; 4]) (lit "clip.mp4") 0
           DecodeFailure
           (returned_log
              (analyze_video (damaged_backend [0; 1; 2; 3; 4]) (lit "clip.mp4") 0).1)
           (analyze_video (damaged_backend [0; 1; 2; 3; 4]) (lit "clip.mp4") 0).2).
  - vm_compute. reflexivity.
  - done.
Defined.

(** ** A name that cannot be printed *)



(** ** The loop of [main], file by file *)

Section LoopEffects.
Context {W : Type} (cv2 : Backend W) (h : Host).

(** Lines 136-158 for a path that can be written, with files that can
    be opened, on a backend that constructs a handle for it. *)
Lemma process_one_effect (log_filename progress_file video_path : str)
    (s : scan W) w1 :
  log_filename <> progress_file ->
  refuses h progress_file = None -> refuses h log_filename = None ->
  (forall path, path ∈ {[video_path]} ∪ processed_files s -> encodable path) ->
  VideoCapture cv2 video_path (backend s) = (Ok tt, w1) ->
  exists et log w' s',
    analyze_video cv2 video_path (backend s) = (Returned et log, w') /\
    process_one cv2 h log_filename progress_file video_path s = (Ok tt, s') /\
    backend s' = w' /\
    processed_files s' = {[video_path]} ∪ processed_files s /\
    processed_count s' = processed_count s + 1 /\
    corrupted_count s' =
      (if et =? 0 then corrupted_count s else corrupted_count s + 1) /\
    probed s' = probed s ++ [video_path] /\
    fs s' !! progress_file =
      Some (progress_text (set_order h ({[video_path]} ∪ processed_files s))) /\
    fs s' !! log_filename =
      (if et =? 0 then fs s !! log_filename
       else Some (default [] (fs s !! log_filename) ++ report_line video_path et)) /\
    forall name, name <> log_filename -> name <> progress_file ->
      fs s' !! name = fs s !! name.
Proof.
  intros Hnames Hprogress Hreport Henc Hopen.
  unfold process_one, save_progress. rewrite Hprogress.
  rewrite write_paths_encodable; cycle 1.
  { apply Forall_forall. intros path Hpath. apply set_order_elem in Hpath.
    by apply Henc. }
  simpl.
  destruct (probe_returns_once_constructed cv2 _ _ _ Hopen)
    as (et & log & w' & Hprobe & Het & _).
  rewrite Hprobe. exists et, log, w'.
  destruct (Z.eqb_spec et 0) as [->|Hne].
  - eexists. split; [done|]. split; [reflexivity|]. simpl.
    repeat split; try done.
    + by rewrite lookup_insert_eq.
    + by rewrite lookup_insert_ne.
    + intros name _ Hname. by rewrite lookup_insert_ne.
  - unfold append_text. rewrite Hreport.
    rewrite report_line_encodable; [|apply Henc; set_solver|done].
    eexists. split; [done|]. split; [reflexivity|]. simpl.
    repeat split; try done.
    + rewrite lookup_insert_ne by done. by rewrite lookup_insert_eq.
    + rewrite lookup_insert_eq. by rewrite lookup_insert_ne.
    + intros name Hlog Hname. by rewrite !lookup_insert_ne.
Qed.

Lemma report_text_cons v vs :
  report_text (v :: vs) = report_line v.1 v.2 ++ report_text vs.
Proof. done. Qed.

(** Lines 135-158 over paths that can be written, on a backend that
    constructs a handle for each. *)
Lemma process_all_effect (log_filename progress_file : str)
    (video_files : list str) :
  forall s : scan W,
  log_filename <> progress_file ->
  refuses h progress_file = None -> refuses h log_filename = None ->
  (forall path, path ∈ video_files \/ path ∈ processed_files s -> encodable path) ->
  (forall video_path w, video_path ∈ video_files ->
     exists w1, VideoCapture cv2 video_path w = (Ok tt, w1)) ->
  exists s',
    process_all cv2 h log_filename progress_file video_files s = (Ok tt, s') /\
    map fst (verdicts cv2 video_files (backend s)) = video_files /\
    processed_files s' = list_to_set video_files ∪ processed_files s /\
    processed_count s' = processed_count s + Z.of_nat (length video_files) /\
    corrupted_count s' =
      corrupted_count s +
      Z.of_nat (length (corrupted (verdicts cv2 video_files (backend s)))) /\
    probed s' = probed s ++ video_files /\
    fs s' !! log_filename =
      match corrupted (verdicts cv2 video_files (backend s)) with
      | [] => fs s !! log_filename
      | bad => Some (default [] (fs s !! log_filename) ++ report_text bad)
      end /\
    (video_files <> [] ->
     fs s' !! progress_file =
       Some (progress_text
               (set_order h (list_to_set video_files ∪ processed_files s)))) /\
    forall name, name <> log_filename -> name <> progress_file ->
      fs s' !! name = fs s !! name.
Proof.
  induction video_files as [|v rest IH];
    intros s Hnames Hprogress Hreport Henc Hcons.
  - exists s. simpl. rewrite app_nil_r, Z.add_0_r.
    repeat split; try done; [set_solver|lia].
  - destruct (Hcons v (backend s)) as [w1 Hopen]; [set_solver|].
    destruct (process_one_effect log_filename progress_file v s w1 Hnames
                Hprogress Hreport)
      as (et & log & w' & s1 & Hprobe & Hone & Hback & Hproc & Hcount & Hbad &
          Hprobed & Hrecord & Hline & Hother); [|done|].
    { intros path Hpath. apply Henc. set_solver. }
    destruct (IH s1 Hnames Hprogress Hreport)
      as (s' & Hall & Hfst & Hproc' & Hcount' & Hbad' &
          Hprobed' & Hreport' & Hrecord' & Hother').
    { intros path Hpath. apply Henc. rewrite Hproc in Hpath. set_solver. }
    { intros p w Hp. apply Hcons. set_solver. }
    exists s'. simpl process_all. rewrite Hone. split; [done|].
    simpl verdicts. rewrite Hprobe. rewrite Hback in *.
    split; [simpl; by rewrite Hfst|].
    split; [rewrite Hproc', Hproc; set_solver|].
    split; [rewrite Hcount', Hcount, length_cons; lia|].
    split; [|split; [|split; [|split]]].
    + rewrite Hbad', Hbad. unfold corrupted. simpl.
      destruct (et =? 0); simpl; lia.
    + rewrite Hprobed', Hprobed. by rewrite <- app_assoc.
    + rewrite Hreport', Hline. unfold corrupted. simpl.
      destruct (et =? 0); simpl; [done|].
      fold (corrupted (verdicts cv2 rest w')).
      destruct (corrupted (verdicts cv2 rest w')) as [|b bad].
      * unfold report_text. simpl. by rewrite app_nil_r.
      * rewrite !report_text_cons. simpl. by rewrite <- !app_assoc.
    + intros _. destruct rest as [|v' rest'].
      * simpl in Hall. injection Hall as <-. rewrite Hrecord.
        do 3 f_equal. set_solver.
      * rewrite Hrecord' by done. rewrite Hproc. do 3 f_equal. set_solver.
    + intros name Hlog Hname. rewrite Hother' by done. by apply Hother.
Qed.

(** Whatever happens in a turn of the loop, no file but the report and
    the progress record is touched, and the path is handed to the probe
    unless saving the record failed. *)
Lemma process_one_frame (log_filename progress_file video_path : str)
    (s s' : scan W) r :
  process_one cv2 h log_filename progress_file video_path s = (r, s') ->
  (forall name, name <> log_filename -> name <> progress_file ->
     fs s' !! name = fs s !! name) /\
  (probed s' = probed s ++ [video_path] \/
   probed s' = probed s /\ exists e, r = Err e).
Proof.
  unfold process_one, save_progress. intros H.
  destruct (refuses h progress_file) as [e0|].
  { injection H as <- <-. simpl. split; [done|]. right. by eauto. }
  destruct (write_paths _ _) as [[[]|e] text].
  - destruct (analyze_video _ _ _) as [[et log|e] w'].
    + destruct (et =? 0).
      * injection H as <- <-. simpl. split; [|by left].
        intros name _ Hname. by rewrite lookup_insert_ne.
      * unfold append_text in H.
        destruct (refuses h log_filename) as [e1|];
          [|destruct (encode _) as [[]|e]]; injection H as <- <-; simpl;
          (split; [|by left]); intros name Hlog Hname;
          by rewrite ?lookup_insert_ne.
    + injection H as <- <-. simpl. split; [|by left].
      intros name _ Hname. by rewrite lookup_insert_ne.
  - injection H as <- <-. simpl. split; [|right; split; [done|by exists e]].
    intros name _ Hname. by rewrite lookup_insert_ne.
Qed.

Lemma process_all_frame (log_filename progress_file : str)
    (video_files : list str) : forall (s s' : scan W) r,
  process_all cv2 h log_filename progress_file video_files s = (r, s') ->
  (forall name, name <> log_filename -> name <> progress_file ->
     fs s' !! name = fs s !! name) /\
  (exists k, probed s' = probed s ++ take k video_files) /\
  (r = Ok tt -> probed s' = probed s ++ video_files).
Proof.
  induction video_files as [|v rest IH]; intros s s' r H.
  - injection H as <- <-. split; [done|]. rewrite app_nil_r.
    split; [|done]. exists 0%nat. by rewrite app_nil_r.
  - simpl in H.
    destruct (process_one cv2 h log_filename progress_file v s)
      as [[[]|e] s1] eqn:Hone;
      apply process_one_frame in Hone as [Hother Hprobed].
    + destruct (IH _ _ _ H) as (Hother' & [k Hk] & Hdone).
      destruct Hprobed as [Hprobed|[_ [e He]]]; [|done].
      split; [|split].
      * intros name Hlog Hname. rewrite Hother' by done. by apply Hother.
      * exists (S k). rewrite Hk, Hprobed. by rewrite <- app_assoc.
      * intros Hr. rewrite (Hdone Hr), Hprobed. by rewrite <- app_assoc.
    + injection H as <- <-. split; [done|]. split; [|done].
      destruct Hprobed as [Hprobed|[Hprobed _]].
      * exists 1%nat. simpl. by rewrite take_0.
      * exists 0%nat. simpl. by rewrite app_nil_r.
Qed.
End LoopEffects.

(** X11: in a run in which the progress file and the report file can be
    opened for writing, no constructor raises and every path can be
    written as UTF-8, the run ends with status 0, every candidate is
    counted as processed, and the report gains exactly one line for each
    candidate whose class is not 0, in the order of discovery, after
    whatever the report file held; when every file is intact the report
    file is left as it was, so none is created.  The count of damaged files
    is the number of those lines. *)
Theorem report_contents {W} (cv2 : Backend W) (lower : str -> str)
    (h : Host) (lookup : str -> option node) (now : datetime)
    (args : arguments) (fs0 : files) (w : W) :
  let log_filename := log_filename_of args (strftime now) in
  let recorded := load_progress (progress_file_of args (strftime now)) fs0 in
  let video_files := pending lower lookup args recorded in
  refuses h (progress_file_of args (strftime now)) = None ->
  refuses h log_filename = None ->
  (forall video_path w, video_path ∈ video_files ->
     exists w1, VideoCapture cv2 video_path w = (Ok tt, w1)) ->
  (forall path, path ∈ video_files \/ path ∈ recorded -> encodable path) ->
  let r := main cv2 lower h lookup now args fs0 w in
  let bad := corrupted (verdicts cv2 video_files w) in
  exit_status r = 0 /\
  map fst (verdicts cv2 video_files w) = video_files /\
  processed_count (final r) = Z.of_nat (length video_files) /\
  corrupted_count (final r) = Z.of_nat (length bad) /\
  fs (final r) !! log_filename =
    match bad with
    | [] => fs0 !! log_filename
    | _ => Some (default [] (fs0 !! log_filename) ++ report_text bad)
    end.
Proof.
  intros log_filename recorded video_files Hprogress Hlog Hcons Henc r bad.
  destruct (process_all_effect cv2 h log_filename
              (progress_file_of args (strftime now)) video_files
              {| fs := fs0; backend := w; processed_files := recorded;
                 processed_count := 0; corrupted_count := 0;
                 probed := []; observed := [] |}
              (names_differ _ _) Hprogress Hlog Henc Hcons)
    as (s' & Hall & Hfst & _ & Hcount & Hbad & _ & Hreport & _).
  subst r. unfold main.
  fold log_filename. fold recorded. fold video_files. rewrite Hall.
  simpl in *. split; [done|]. split; [done|]. split; [lia|].
  split; [subst bad; lia|].
  rewrite lookup_delete_ne by (apply not_eq_sym, names_differ).
  etrans; [exact Hreport|]. subst bad.
  by destruct (corrupted (verdicts cv2 video_files w)).
Qed.

Lemma report_contents_witness :
  let log_filename := log_filename_of fresh_args (strftime morning) in
  let recorded :=
    load_progress (progress_file_of fresh_args (strftime morning)) ∅ in
  let video_files := pending ascii_lower disk fresh_args recorded in
  let r := main (mixed_backend path_B []) ascii_lower plain_host disk morning
             fresh_args ∅ [] in
  let bad := corrupted (verdicts (mixed_backend path_B []) video_files []) in
  exit_status r = 0 /\
  map fst (verdicts (mixed_backend path_B []) video_files []) = video_files /\
  processed_count (final r) = Z.of_nat (length video_files) /\
  corrupted_count (final r) = Z.of_nat (length bad) /\
  fs (final r) !! log_filename =
    match bad with
    | [] => (∅ : files) !! log_filename
    | _ => Some (default [] ((∅ : files) !! log_filename) ++ report_text bad)
    end.
Proof.
  apply (report_contents (mixed_backend path_B []) ascii_lower plain_host
           disk morning fresh_args ∅ []).
  - reflexivity.
  - reflexivity.
  - intros video_path w Hin. simpl.
    change (video_path ∈ [path_A; path_B; path_C; path_D]) in Hin.
    exists video_path. rewrite bool_decide_eq_false_2; [done|].
    intros ->.
    repeat (apply elem_of_cons in Hin as [Hin|Hin]; [discriminate Hin|]).
    by apply elem_of_nil in Hin.
  - intros path [Hpath|Hpath].
    + change (path ∈ [path_A; path_B; path_C; path_D]) in Hpath.
      repeat (apply elem_of_cons in Hpath as [->|Hpath]);
        [..|by apply elem_of_nil in Hpath]; repeat constructor.
    + by apply elem_of_empty in Hpath.
Defined.

(** X12: whatever the backend does and whatever the tree and the working
    directory hold, a run changes no file of the working directory but
    its own report file and progress file, and it hands to the probe a
    beginning of the list of candidates, in that order, each once: the
    whole list when it ends with status 0. *)
Theorem run_footprint {W} (cv2 : Backend W) (lower : str -> str)
    (h : Host) (lookup : str -> option node) (now : datetime)
    (args : arguments) (fs0 : files) (w : W) :
  let r := main cv2 lower h lookup now args fs0 w in
  let video_files :=
    pending lower lookup args
      (load_progress (progress_file_of args (strftime now)) fs0) in
  (forall name,
     name <> log_filename_of args (strftime now) ->
     name <> progress_file_of args (strftime now) ->
     fs (final r) !! name = fs0 !! name) /\
  (exists k, probed (final r) = take k video_files) /\
  (exit_status r = 0 -> probed (final r) = video_files) /\
  (exit_status r = 0 \/ exit_status r = 1).
Proof.
  intros r video_files. subst r. unfold main. fold video_files.
  destruct (process_all cv2 h _ _ video_files _) as [[[]|e] s'] eqn:Hall;
    apply process_all_frame in Hall as (Hother & Hprefix & Hdone); simpl in *.
  - split; [|split; [done|split; [auto|by left]]].
    intros name Hlog Hname. rewrite lookup_delete_ne by done. by apply Hother.
  - split; [done|]. split; [done|]. split; [done|by right].
Qed.

(** ** Runs that end in an exception *)

(** Lines 96-97 over a set that holds one path that cannot be encoded. *)
Lemma write_paths_unencodable (paths : list str) (video_path : str) :
  forall written,
  video_path ∈ paths -> ~ encodable video_path ->
  (forall path, path ∈ paths -> path <> video_path -> encodable path) ->
  exists c text,
    write_paths paths written = (Err (UnicodeEncodeError c), text) /\
    c ∈ video_path /\ is_surrogate c = true.
Proof.
  induction paths as [|p rest IH]; intros written Hin Hbad Hothers.
  - by apply elem_of_nil in Hin.
  - simpl. destruct (decide (p = video_path)) as [->|Hne].
    + destruct (first_surrogate _ Hbad) as (s1 & c & s2 & Hv & Hs1 & Hc).
      exists c, written. split; [|split; [rewrite Hv; set_solver|done]].
      rewrite Hv, <- app_assoc. simpl.
      by rewrite (encode_surrogate s1 c (s2 ++ [LF]) Hs1 Hc).
    + rewrite encode_encodable; cycle 1.
      { apply Forall_app. split; [apply Hothers; set_solver|].
        by apply Forall_singleton. }
      apply IH; [set_solver|done|].
      intros path Hpath. apply Hothers. set_solver.
Qed.

Section Crashes.
Context {W : Type} (cv2 : Backend W) (h : Host).

Lemma process_all_app (log_filename progress_file : str)
    (before rest : list str) : forall (s s1 : scan W),
  process_all cv2 h log_filename progress_file before s = (Ok tt, s1) ->
  process_all cv2 h log_filename progress_file (before ++ rest) s =
    process_all cv2 h log_filename progress_file rest s1.
Proof.
  induction before as [|v before IH]; intros s s1 H; simpl in *.
  - by injection H as <-.
  - destruct (process_one cv2 h log_filename progress_file v s) as [[[]|e] s2];
      [by apply IH|done].
Qed.

(** Lines 136-146 for a path for which the constructor raises. *)
Lemma process_one_unconstructed (log_filename progress_file video_path : str)
    (s : scan W) e w1 :
  refuses h progress_file = None ->
  (forall path, path ∈ {[video_path]} ∪ processed_files s -> encodable path) ->
  VideoCapture cv2 video_path (backend s) = (Err e, w1) ->
  exists s',
    process_one cv2 h log_filename progress_file video_path s =
      (Err (UnboundLocalError (lit "cap")), s') /\
    probed s' = probed s ++ [video_path] /\
    processed_count s' = processed_count s + 1 /\
    corrupted_count s' = corrupted_count s /\
    fs s' =
      <[progress_file :=
          progress_text (set_order h ({[video_path]} ∪ processed_files s))]>
        (fs s).
Proof.
  intros Hprogress Henc Hopen. unfold process_one, save_progress.
  rewrite Hprogress.
  rewrite write_paths_encodable; cycle 1.
  { apply Forall_forall. intros path Hpath. apply set_order_elem in Hpath.
    by apply Henc. }
  simpl. rewrite (constructor_raises_propagates cv2 _ _ _ _ Hopen).
  eexists. split; [reflexivity|]. done.
Qed.

(** Lines 136-138 for a path that cannot be encoded. *)
Lemma process_one_unencodable (log_filename progress_file video_path : str)
    (s : scan W) :
  log_filename <> progress_file ->
  refuses h progress_file = None ->
  (forall path, path ∈ processed_files s -> encodable path) ->
  ~ encodable video_path ->
  exists c s',
    process_one cv2 h log_filename progress_file video_path s =
      (Err (UnicodeEncodeError c), s') /\
    c ∈ video_path /\ is_surrogate c = true /\
    probed s' = probed s /\ backend s' = backend s /\
    processed_count s' = processed_count s + 1 /\
    is_Some (fs s' !! progress_file) /\
    fs s' !! log_filename = fs s !! log_filename.
Proof.
  intros Hnames Hprogress Henc Hbad. unfold process_one, save_progress.
  rewrite Hprogress.
  destruct (write_paths_unencodable
              (set_order h ({[video_path]} ∪ processed_files s)) video_path [])
    as (c & text & -> & Hc & Hsur).
  { apply set_order_elem. set_solver. }
  { done. }
  { intros path Hpath Hne. apply set_order_elem in Hpath. apply Henc.
    set_solver. }
  exists c. eexists. split; [reflexivity|]. simpl.
  repeat split; try done.
  - by rewrite lookup_insert_eq.
  - by rewrite lookup_insert_ne.
Qed.

(** Line 138 under a name that cannot be opened. *)
Lemma process_one_refused (log_filename progress_file video_path : str)
    (s : scan W) e :
  refuses h progress_file = Some e ->
  exists s',
    process_one cv2 h log_filename progress_file video_path s = (Err e, s') /\
    probed s' = probed s /\ backend s' = backend s /\ fs s' = fs s /\
    processed_count s' = processed_count s + 1.
Proof.
  intros Hrefused. unfold process_one, save_progress. rewrite Hrefused.
  eexists. split; [reflexivity|]. done.
Qed.
End Crashes.

(** X13: when the constructor of the backend raises for a candidate, the
    candidates before it having been dealt with (the progress file and
    the report file can be opened, the paths can be recorded), the run
    ends there with the [UnboundLocalError] of the probe and exit status
    1: the candidates after it are never probed, the progress record
    stays on disk and, read back, already holds the file as processed,
    and the report has no line for it. *)
Theorem constructor_failure_ends_run {W} (cv2 : Backend W)
    (lower : str -> str) (h : Host) (lookup : str -> option node)
    (now : datetime) (args : arguments) (fs0 : files) (w : W)
    before video_path after :
  let log_filename := log_filename_of args (strftime now) in
  let progress_file := progress_file_of args (strftime now) in
  let recorded := load_progress progress_file fs0 in
  pending lower lookup args recorded = before ++ video_path :: after ->
  refuses h progress_file = None -> refuses h log_filename = None ->
  (forall path w, path ∈ before ->
     exists w1, VideoCapture cv2 path w = (Ok tt, w1)) ->
  (forall w, exists e w1, VideoCapture cv2 video_path w = (Err e, w1)) ->
  (forall path, path ∈ before ++ [video_path] \/ path ∈ recorded ->
     storable path) ->
  let r := main cv2 lower h lookup now args fs0 w in
  let bad := corrupted (verdicts cv2 before w) in
  exit_status r = 1 /\
  uncaught r = Some (UnboundLocalError (lit "cap")) /\
  probed (final r) = before ++ [video_path] /\
  processed_count (final r) = Z.of_nat (length before) + 1 /\
  corrupted_count (final r) = Z.of_nat (length bad) /\
  load_progress progress_file (fs (final r)) =
    list_to_set (before ++ [video_path]) ∪ recorded /\
  fs (final r) !! log_filename =
    match bad with
    | [] => fs0 !! log_filename
    | _ => Some (default [] (fs0 !! log_filename) ++ report_text bad)
    end.
Proof.
  intros log_filename progress_file recorded Hfiles Hprogress Hlog Hcons
    Hraises Hstorable r bad.
  assert (forall path, path ∈ before ++ [video_path] \/ path ∈ recorded ->
            encodable path) as Henc
    by (intros path Hpath; by apply Hstorable).
  destruct (process_all_effect cv2 h log_filename progress_file before
              {| fs := fs0; backend := w; processed_files := recorded;
                 processed_count := 0; corrupted_count := 0;
                 probed := []; observed := [] |}
              (names_differ _ _) Hprogress Hlog)
    as (s1 & Hall & _ & Hproc & Hcount & Hbad & Hprobed & Hreport & _ & _);
    [intros path Hpath; apply Henc; set_solver|done|].
  destruct (Hraises (backend s1)) as (e & w1 & Hopen).
  destruct (process_one_unconstructed cv2 h log_filename progress_file
              video_path s1 e w1 Hprogress)
    as (s2 & Hone & Hprobed2 & Hcount2 & Hbad2 & Hfs2); [|done|].
  { intros path Hpath. apply Henc. rewrite Hproc in Hpath. set_solver. }
  subst r. unfold main.
  fold log_filename. fold progress_file. fold recorded. rewrite Hfiles.
  rewrite (process_all_app cv2 h _ _ _ _ _ _ Hall).
  simpl process_all. rewrite Hone. cbn [exit_status uncaught final].
  simpl in Hprobed, Hcount, Hbad, Hreport.
  split; [done|]. split; [done|]. split; [by rewrite Hprobed2, Hprobed|].
  split; [lia|]. split; [subst bad; lia|]. rewrite Hfs2. split.
  - rewrite load_progress_text.
    + rewrite list_to_set_set_order, Hproc. set_solver.
    + apply Forall_forall. intros path Hpath. apply set_order_elem in Hpath.
      apply Hstorable. rewrite Hproc in Hpath. set_solver.
  - rewrite lookup_insert_ne by (apply not_eq_sym, names_differ).
    etrans; [exact Hreport|]. subst bad.
    by destruct (corrupted (verdicts cv2 before w)).
Qed.

Lemma constructor_failure_ends_run_witness :
  let log_filename := log_filename_of fresh_args (strftime morning) in
  let progress_file := progress_file_of fresh_args (strftime morning) in
  let recorded := load_progress progress_file ∅ in
  let r := main (mixed_backend path_B path_C) ascii_lower plain_host disk
             morning fresh_args ∅ [] in
  let bad :=
    corrupted (verdicts (mixed_backend path_B path_C) [path_A; path_B] []) in
  exit_status r = 1 /\
  uncaught r = Some (UnboundLocalError (lit "cap")) /\
  probed (final r) = [path_A; path_B] ++ [path_C] /\
  processed_count (final r) = Z.of_nat (length [path_A; path_B]) + 1 /\
  corrupted_count (final r) = Z.of_nat (length bad) /\
  load_progress progress_file (fs (final r)) =
    list_to_set ([path_A; path_B] ++ [path_C]) ∪ recorded /\
  fs (final r) !! log_filename =
    match bad with
    | [] => (∅ : files) !! log_filename
    | _ => Some (default [] ((∅ : files) !! log_filename) ++ report_text bad)
    end.
Proof.
  apply (constructor_failure_ends_run (mixed_backend path_B path_C)
           ascii_lower plain_host disk morning fresh_args ∅ []
           [path_A; path_B] path_C [path_D]).
  - vm_compute. reflexivity.
  - reflexivity.
  - reflexivity.
  - intros path w Hin. simpl. exists path.
    rewrite bool_decide_eq_false_2; [done|]. intros ->.
    repeat (apply elem_of_cons in Hin as [Hin|Hin]; [discriminate Hin|]).
    by apply elem_of_nil in Hin.
  - intros w. eexists _, w. reflexivity.
  - intros path [Hpath|Hpath].
    + change (path ∈ [path_A; path_B; path_C]) in Hpath.
      repeat (apply elem_of_cons in Hpath as [->|Hpath]);
        [..|by apply elem_of_nil in Hpath];
        (split; [absent|]); (split; [absent|]);
        (split; [split; intros c [= <-]; reflexivity|]);
        repeat constructor.
    + by apply elem_of_empty in Hpath.
Defined.

(** X14: when a candidate's path cannot be encoded as UTF-8 (a file name
    the operating system could not decode reaches the program with a lone
    surrogate), the candidates before it having been dealt with (the
    progress file and the report file can be opened), saving the progress
    record raises [UnicodeEncodeError] and the run ends there with exit
    status 1: neither that file nor any after it is probed, and the
    progress file is left on disk. *)
Theorem unencodable_name_ends_run {W} (cv2 : Backend W)
    (lower : str -> str) (h : Host) (lookup : str -> option node)
    (now : datetime) (args : arguments) (fs0 : files) (w : W)
    before video_path after :
  let log_filename := log_filename_of args (strftime now) in
  let progress_file := progress_file_of args (strftime now) in
  let recorded := load_progress progress_file fs0 in
  pending lower lookup args recorded = before ++ video_path :: after ->
  refuses h progress_file = None -> refuses h log_filename = None ->
  (forall path w, path ∈ before ->
     exists w1, VideoCapture cv2 path w = (Ok tt, w1)) ->
  (forall path, path ∈ before \/ path ∈ recorded -> encodable path) ->
  ~ encodable video_path ->
  let r := main cv2 lower h lookup now args fs0 w in
  exit_status r = 1 /\
  (exists c, uncaught r = Some (UnicodeEncodeError c) /\
             c ∈ video_path /\ is_surrogate c = true) /\
  probed (final r) = before /\
  processed_count (final r) = Z.of_nat (length before) + 1 /\
  is_Some (fs (final r) !! progress_file).
Proof.
  intros log_filename progress_file recorded Hfiles Hprogress Hlog Hcons
    Henc Hbad r.
  destruct (process_all_effect cv2 h log_filename progress_file before
              {| fs := fs0; backend := w; processed_files := recorded;
                 processed_count := 0; corrupted_count := 0;
                 probed := []; observed := [] |}
              (names_differ _ _) Hprogress Hlog Henc Hcons)
    as (s1 & Hall & _ & Hproc & Hcount & _ & Hprobed & _).
  destruct (process_one_unencodable cv2 h log_filename progress_file
              video_path s1 (names_differ _ _) Hprogress)
    as (c & s2 & Hone & Hc & Hsur & Hprobed2 & _ & Hcount2 & Hrecord & _);
    [|done|].
  { intros path Hpath. apply Henc. rewrite Hproc in Hpath. set_solver. }
  subst r. unfold main.
  fold log_filename. fold progress_file. fold recorded. rewrite Hfiles.
  rewrite (process_all_app cv2 h _ _ _ _ _ _ Hall).
  simpl process_all. rewrite Hone. cbn [exit_status uncaught final].
  simpl in Hprobed, Hcount.
  split; [done|]. split; [by exists c|].
  split; [by rewrite Hprobed2, Hprobed|]. split; [lia|done].
Qed.

Lemma unencodable_name_ends_run_witness :
  let progress_file := progress_file_of fresh_args (strftime morning) in
  let r := main sound_backend ascii_lower plain_host odd_disk morning
             fresh_args ∅ tt in
  exit_status r = 1 /\
  (exists c, uncaught r = Some (UnicodeEncodeError c) /\
             c ∈ lit "/archive/" ++ odd_name /\ is_surrogate c = true) /\
  probed (final r) = [path_A] /\
  processed_count (final r) = Z.of_nat (length [path_A]) + 1 /\
  is_Some (fs (final r) !! progress_file).
Proof.
  apply (unencodable_name_ends_run sound_backend ascii_lower plain_host
           odd_disk morning fresh_args ∅ tt [path_A]
           (lit "/archive/" ++ odd_name) [lit "/archive/C.mp4"]).
  - vm_compute. reflexivity.
  - reflexivity.
  - reflexivity.
  - intros path w _. by exists w.
  - intros path [Hpath|Hpath].
    + apply elem_of_cons in Hpath as [->|Hpath];
        [repeat constructor|by apply elem_of_nil in Hpath].
    + by apply elem_of_empty in Hpath.
  - intros H. unfold encodable in H. rewrite Forall_forall in H.
    specialize (H 56553%N). discriminate H.
    apply list_elem_of_In. vm_compute. tauto.
Defined.

(** X21: when the progress file cannot be opened for writing (as for
    [--output /tmp/report] in a directory without a [tmp] below it, the
    name being [./tmp/report_progress_...]) and there is a candidate, the
    exception of the first save ends the run with exit status 1: nothing
    is probed and no file is written. *)
Theorem unopenable_progress_file_ends_run {W} (cv2 : Backend W)
    (lower : str -> str) (h : Host) (lookup : str -> option node)
    (now : datetime) (args : arguments) (fs0 : files) (w : W)
    e video_path rest :
  let recorded := load_progress (progress_file_of args (strftime now)) fs0 in
  refuses h (progress_file_of args (strftime now)) = Some e ->
  pending lower lookup args recorded = video_path :: rest ->
  let r := main cv2 lower h lookup now args fs0 w in
  exit_status r = 1 /\ uncaught r = Some e /\
  probed (final r) = [] /\ backend (final r) = w /\ fs (final r) = fs0 /\
  processed_count (final r) = 1.
Proof.
  intros recorded Hrefused Hfiles r. subst r. unfold main.
  fold recorded. rewrite Hfiles. simpl process_all.
  destruct (process_one_refused cv2 h
              (log_filename_of args (strftime now))
              (progress_file_of args (strftime now)) video_path
              {| fs := fs0; backend := w; processed_files := recorded;
                 processed_count := 0; corrupted_count := 0;
                 probed := []; observed := [] |} e Hrefused)
    as (s' & -> & Hprobed & Hbackend & Hfs & Hcount).
  done.
Qed.

Lemma unopenable_progress_file_ends_run_witness :
  let r := main sound_backend ascii_lower bare_host disk morning tmp_args
             ∅ tt in
  exit_status r = 1 /\
  uncaught r = Some (OSError (lit "[Errno 2] No such file or directory")) /\
  probed (final r) = [] /\ backend (final r) = tt /\ fs (final r) = ∅ /\
  processed_count (final r) = 1.
Proof.
  apply (unopenable_progress_file_ends_run sound_backend ascii_lower
           bare_host disk morning tmp_args ∅ tt
           (OSError (lit "[Errno 2] No such file or directory"))
           path_A [path_B; path_C; path_D]).
  - vm_compute. reflexivity.
  - vm_compute. reflexivity.
Defined.
(** ** What a loaded record can hold *)

Lemma lstrip_split s :
  exists pre, s = pre ++ lstrip s /\
    forall c, head (lstrip s) = Some c -> isspace c = false.
Proof.
  induction s as [|c s (pre & Hs & Hhead)]; [by exists []|].
  simpl. destruct (isspace c) eqn:Hc.
  - exists (c :: pre). split; [by rewrite Hs at 1|done].
  - exists []. split; [done|]. by intros c' [= <-].
Qed.

Lemma rstrip_split s :
  exists post, s = rstrip s ++ post /\
    forall c, last (rstrip s) = Some c -> isspace c = false.
Proof.
  unfold rstrip. destruct (lstrip_split (reverse s)) as (pre & Hs & Hhead).
  exists (reverse pre). split.
  - rewrite <- reverse_app, <- Hs. by rewrite reverse_involutive.
  - intros c. rewrite last_reverse. apply Hhead.
Qed.

Lemma strip_trimmed s : trimmed (strip s).
Proof.
  unfold strip. destruct (lstrip_split s) as (pre & _ & Hhead).
  destruct (rstrip_split (lstrip s)) as (post & Hs & Hlast).
  split; [|done]. intros c Hc. apply Hhead. rewrite Hs.
  destruct (rstrip (lstrip s)); [done|]. exact Hc.
Qed.

Lemma strip_elem s c : c ∈ strip s -> c ∈ s.
Proof.
  unfold strip. destruct (lstrip_split s) as (pre & Hs & _).
  destruct (rstrip_split (lstrip s)) as (post & Hl & _).
  intros Hc. rewrite Hs, Hl. set_solver.
Qed.

Lemma strip_LF s : strip (s ++ [LF]) = strip s.
Proof.
  induction s as [|c s IH]; [done|].
  unfold strip in *. simpl. destruct (isspace c) eqn:Hc; [done|].
  unfold rstrip. rewrite !reverse_cons, reverse_app. done.
Qed.

(** A line read in text mode is a stretch without line break, followed by
    a line feed unless the text ends there. *)
Lemma readlines_from_elem text : forall cur line,
  line ∈ readlines_from cur text -> (LF ∉ cur) -> (CR ∉ cur) ->
  exists body, (line = body ++ [LF] \/ line = body) /\
    (LF ∉ body) /\ (CR ∉ body).
Proof.
  assert (LF ∉ @nil char) as HnLF by apply not_elem_of_nil.
  assert (CR ∉ @nil char) as HnCR by apply not_elem_of_nil.
  induction text as [text IH] using (induction_ltof1 _ (@length char)).
  unfold ltof in IH. intros cur line Hin HLF HCR.
  destruct text as [|c rest]; simpl in Hin.
  - destruct cur; [by apply elem_of_nil in Hin|].
    apply elem_of_cons in Hin as [->|Hin]; [|by apply elem_of_nil in Hin].
    eexists. split; [by right|done].
  - destruct (N.eqb_spec c LF) as [->|HcLF].
    { apply elem_of_cons in Hin as [->|Hin].
      - exists cur. split; [by left|done].
      - apply (IH rest ltac:(simpl; lia) [] line Hin HnLF HnCR). }
    destruct (N.eqb_spec c CR) as [->|HcCR].
    { destruct rest as [|c' rest'].
      - apply elem_of_cons in Hin as [->|Hin];
          [|by apply elem_of_nil in Hin].
        exists cur. split; [by left|done].
      - destruct (N.eqb_spec c' LF) as [->|_];
          (apply elem_of_cons in Hin as [->|Hin];
             [exists cur; split; [by left|done]|]).
        + apply (IH rest' ltac:(simpl; lia) [] line Hin HnLF HnCR).
        + apply (IH (c' :: rest') ltac:(simpl; lia) [] line Hin HnLF HnCR). }
    apply (IH rest ltac:(simpl; lia) (cur ++ [c]) line Hin).
    + rewrite elem_of_app, list_elem_of_singleton. intros [?|?]; [done|by subst].
    + rewrite elem_of_app, list_elem_of_singleton. intros [?|?]; [done|by subst].
Qed.

(** Lines 99-105: what a loaded record holds. *)
Lemma load_progress_clean (progress_file : str) (fs0 : files) (path : str) :
  path ∈ load_progress progress_file fs0 ->
  (LF ∉ path) /\ (CR ∉ path) /\ trimmed path.
Proof.
  unfold load_progress. destruct (fs0 !! progress_file) as [text|]; [|set_solver].
  rewrite elem_of_list_to_set, list_elem_of_In, in_map_iff.
  intros (line & <- & Hline). apply list_elem_of_In in Hline.
  destruct (readlines_from_elem text [] line Hline)
    as (body & Hbody & HLF & HCR); [apply not_elem_of_nil..|].
  assert (strip line = strip body) as ->
    by (destruct Hbody as [-> | ->]; [apply strip_LF|done]).
  split; [|split; [|apply strip_trimmed]].
  - intros H. by apply HLF, strip_elem.
  - intros H. by apply HCR, strip_elem.
Qed.

(** X15: whatever the progress file holds, every path [load_progress]
    returns comes from an existing file, is without line feed and carriage
    return and without whitespace at either end, and is left as it is by
    [strip]. *)
Theorem loaded_paths_clean (progress_file : str) (fs0 : files) (path : str) :
  path ∈ load_progress progress_file fs0 ->
  is_Some (fs0 !! progress_file) /\
  (LF ∉ path) /\ (CR ∉ path) /\ trimmed path /\ strip path = path.
Proof.
  intros Hpath. split.
  - unfold load_progress in Hpath.
    destruct (fs0 !! progress_file) as [text|]; [by eexists|].
    by apply elem_of_empty in Hpath.
  - destruct (load_progress_clean _ _ _ Hpath) as (HLF & HCR & Htrim).
    split; [done|]. split; [done|]. split; [done|].
    rewrite <- strip_LF. by apply strip_line.
Qed.

Lemma loaded_paths_clean_witness :
  is_Some (interrupted !! progress_file_of fresh_args (strftime morning)) /\
  (LF ∉ path_A) /\ (CR ∉ path_A) /\ trimmed path_A /\ strip path_A = path_A.
Proof.
  apply (loaded_paths_clean (progress_file_of fresh_args (strftime morning))
           interrupted path_A).
  vm_compute. set_solver.
Defined.

(** X16: a record that was loaded is kept by saving it: when the
    progress file can be opened for writing and the paths [load_progress]
    returns can be encoded, saving them succeeds and loading again returns
    the same set, whatever the file held before (blank lines, whitespace
    around paths, lines ending in CR LF) and in whatever order the set
    hands over its elements. *)
Theorem loaded_record_stable (h : Host) (progress_file : str) (fs0 : files) :
  refuses h progress_file = None ->
  (forall path, path ∈ load_progress progress_file fs0 -> encodable path) ->
  exists fs1,
    save_progress h progress_file (load_progress progress_file fs0) fs0 =
      (Ok tt, fs1) /\
    load_progress progress_file fs1 = load_progress progress_file fs0.
Proof.
  intros Hopens Henc.
  destruct (load_save h progress_file (load_progress progress_file fs0) fs0
              Hopens)
    as (fs1 & Hsave & _ & Hload).
  { intros path Hpath.
    destruct (load_progress_clean _ _ _ Hpath) as (? & ? & ?).
    split; [done|]. split; [done|]. split; [done|]. by apply Henc. }
  by exists fs1.
Qed.

Lemma loaded_record_stable_witness :
  exists fs1,
    save_progress plain_host (lit "record")
      (load_progress (lit "record")
         {[ lit "record" := lit "  /archive/A.mp4 " ++ [CR; LF; LF] ++
                            lit "/archive/B.mp4" ]})
      {[ lit "record" := lit "  /archive/A.mp4 " ++ [CR; LF; LF] ++
                         lit "/archive/B.mp4" ]} = (Ok tt, fs1) /\
    load_progress (lit "record") fs1 =
      load_progress (lit "record")
        {[ lit "record" := lit "  /archive/A.mp4 " ++ [CR; LF; LF] ++
                           lit "/archive/B.mp4" ]}.
Proof.
  apply (loaded_record_stable plain_host (lit "record")
           {[ lit "record" := lit "  /archive/A.mp4 " ++ [CR; LF; LF] ++
                              lit "/archive/B.mp4" ]}).
  - reflexivity.
  - intros path Hpath.
    assert (load_progress (lit "record")
              {[ lit "record" := lit "  /archive/A.mp4 " ++ [CR; LF; LF] ++
                                 lit "/archive/B.mp4" ]} =
            {[ path_A; []; path_B ]}) as Heq by (vm_compute; reflexivity).
    rewrite Heq in Hpath.
    apply elem_of_union in Hpath as [Hpath|Hpath];
      [apply elem_of_union in Hpath as [Hpath|Hpath]|];
      apply elem_of_singleton in Hpath as ->; repeat constructor.
Defined.

(** X17: a candidate whose path holds a line feed or a carriage return, or
    has whitespace at either end, is never left out by [--resume],
    whatever the progress file holds: no loaded record can name it. *)
Theorem unclean_path_never_skipped (lower : str -> str)
    (lookup : str -> option node) (args : arguments)
    (progress_file : str) (fs0 : files) (path : str) :
  path ∈ get_video_files lower lookup (directory args) ->
  LF ∈ path \/ CR ∈ path \/ ~ trimmed path ->
  path ∈ pending lower lookup args (load_progress progress_file fs0).
Proof.
  intros Hpath Hunclean. destruct (resume args) eqn:Hresume.
  - apply pending_resume; [done|]. split; [done|]. intros Hin.
    destruct (load_progress_clean _ _ _ Hin) as (HLF & HCR & Htrim).
    destruct Hunclean as [?|[?|?]]; done.
  - unfold pending. by rewrite Hresume.
Qed.

Lemma unclean_path_never_skipped_witness :
  lit "/archive/" ++ cr_name ∈
    pending ascii_lower cr_disk resume_args
      (load_progress (lit "record")
         {[ lit "record" := lit "/archive/" ++ cr_name ++ [LF] ]}).
Proof.
  apply (unclean_path_never_skipped ascii_lower cr_disk resume_args
           (lit "record")
           {[ lit "record" := lit "/archive/" ++ cr_name ++ [LF] ]}
           (lit "/archive/" ++ cr_name)).
  - vm_compute. set_solver.
  - right; left. vm_compute. set_solver.
Defined.

(** ** Discovery *)

Lemma node_nested_ind (P : node -> Prop) :
  P File ->
  (forall entries, Forall (fun e => P e.2) entries -> P (Dir entries)) ->
  forall n, P n.
Proof.
  intros HF HD.
  refine (fix IH (n : node) : P n :=
            match n with
            | File => HF
            | Dir entries =>
                HD entries
                  ((fix go (es : list (str * node))
                      : Forall (fun e => P e.2) es :=
                      match es with
                      | [] => @List.Forall_nil _ (fun e0 => P e0.2)
                      | e :: es' =>
                          @List.Forall_cons _ (fun e0 => P e0.2) e es'
                            (match e as e0 return P e0.2 with
                             | (_, child) => IH child
                             end)
                            (go es')
                      end) entries)
            end).
Qed.

(** The plain files [os.walk] lists for a directory. *)
Lemma listed_files (entries : list (str * node)) (name : str) :
  name ∈ map fst (List.filter (fun e => negb (is_dir e.2)) entries) <->
  (name, File) ∈ entries.
Proof.
  rewrite list_elem_of_In, in_map_iff. split.
  - intros ([name' child] & <- & Hin). apply filter_In in Hin as [Hin Hfile].
    apply list_elem_of_In. by destruct child.
  - intros Hin. exists (name, File). split; [done|].
    apply filter_In. split; [by apply list_elem_of_In|done].
Qed.

(** The triples of [os.walk] below the first. *)
Lemma walk_dir top entries (x : str * list str * list str) :
  x ∈ walk top (Dir entries) <->
  x = (top,
       map fst (List.filter (fun e => is_dir e.2) entries),
       map fst (List.filter (fun e => negb (is_dir e.2)) entries)) \/
  exists dir child,
    (dir, child) ∈ entries /\ x ∈ walk (path_join top dir) child.
Proof.
  cbn [walk]. rewrite elem_of_cons.
  apply or_iff_compat_l.
  induction entries as [|[dir child] es IH].
  - split; [by intros ?%elem_of_nil|]. by intros (? & ? & ?%elem_of_nil & _).
  - rewrite elem_of_app, IH. split.
    + intros [Hin|(d & c & Hin & Hx)].
      * exists dir, child. split; [set_solver|].
        destruct child; [by apply elem_of_nil in Hin|done].
      * exists d, c. split; [set_solver|done].
    + intros (d & c & Hin & Hx). apply elem_of_cons in Hin as [[= -> ->]|Hin].
      * left. by destruct child.
      * right. by exists d, c.
Qed.

Lemma walk_files (n : node) : forall top root name,
  (exists dirs files, (root, dirs, files) ∈ walk top n /\ name ∈ files) <->
  file_in top n root name.
Proof.
  induction n as [|entries IH] using node_nested_ind; intros top root name.
  - split; [by intros (? & ? & ?%elem_of_nil & _)|]. inversion 1.
  - rewrite Forall_forall in IH. split.
    + intros (dirs & files & Hin & Hname).
      apply walk_dir in Hin as [[= -> -> ->]|(dir & child & Hin & Hx)].
      * apply file_here. by apply listed_files.
      * apply (file_below _ _ dir child); [done|].
        apply (IH (dir, child) Hin). by exists dirs, files.
    + inversion 1 as [? ? ? Hin|? ? dir child ? ? Hin Hbelow]; subst.
      * eexists _, _. split; [apply walk_dir; by left|].
        by apply listed_files.
      * apply (IH (dir, child) Hin) in Hbelow as (dirs & files & Hx & Hname).
        exists dirs, files. split; [|done].
        apply walk_dir. right. by exists dir, child.
Qed.

(** X18: [get_video_files] returns exactly the plain files at any depth
    below the directory whose lower-cased name ends with one of the video
    extensions, each under the path of its directory joined with its name;
    a directory is never a candidate, whatever its name, and its content
    is looked at all the same. *)
Theorem discovery_exact (lower : str -> str) (lookup : str -> option node)
    (directory path : str) :
  path ∈ get_video_files lower lookup directory <->
  exists n root name,
    lookup directory = Some n /\ file_in directory n root name /\
    is_video lower name = true /\ path = path_join root name.
Proof.
  unfold get_video_files, os_walk.
  rewrite list_elem_of_In, in_flat_map. split.
  - intros ([[root dirs] files] & Hin & Hpath).
    destruct (lookup directory) as [n|]; [|done].
    apply in_map_iff in Hpath as (name & <- & Hname).
    apply filter_In in Hname as [Hname Hvideo].
    exists n, root, name. split; [done|]. split; [|done].
    apply walk_files. exists dirs, files.
    split; by apply list_elem_of_In.
  - intros (n & root & name & -> & Hfile & Hvideo & ->).
    apply walk_files in Hfile as (dirs & files & Hin & Hname).
    exists (root, dirs, files). split; [by apply list_elem_of_In|].
    apply in_map_iff. exists name. split; [done|].
    apply filter_In. split; [by apply list_elem_of_In|done].
Qed.

(** ** The handle and its release *)

Section Handle.
Context {W : Type} (cv2 : Backend W).

Lemma attempt_trace i frame_idx (m : machine W) r m' :
  attempt cv2 i frame_idx m = (r, m') ->
  exists cs, calls m' = calls m ++ cs /\ Forall uses_handle cs.
Proof.
  unfold attempt, cap_set, cap_read, mbind, M_bind, cap, invoke, append,
    mret, M_ret.
  destruct m as [w0 et0 log0 [|] cs0]; simpl;
    [|intros [= <- <-]; exists []; by rewrite app_nil_r].
  destruct (set_pos_frames cv2 frame_idx w0) as [[[]|e] w1]; simpl;
    [|intros [= <- <-]; exists [CallSet frame_idx]; by repeat constructor].
  destruct (read cv2 w1) as [[[ret frame]|e] w2]; simpl;
    [destruct (ret && _); simpl|];
    intros [= <- <-]; exists [CallSet frame_idx; CallRead]; simpl;
    rewrite <- ?app_assoc; by repeat constructor.
Qed.

Lemma scan_frames_trace i frames : forall (m : machine W) r m',
  scan_frames cv2 i frames m = (r, m') ->
  exists cs, calls m' = calls m ++ cs /\ Forall uses_handle cs.
Proof.
  induction frames as [|f rest IH]; intros m r m' H; simpl in H.
  - injection H as <- <-. exists []. by rewrite app_nil_r.
  - unfold mbind, M_bind in H.
    destruct (attempt cv2 i f m) as [[ok|v|e] m1] eqn:Hatt;
      apply attempt_trace in Hatt as (cs1 & Hcs1 & Huses1).
    + destruct ok.
      * injection H as <- <-. by exists cs1.
      * destruct (IH _ _ _ H) as (cs2 & Hcs2 & Huses2).
        exists (cs1 ++ cs2). rewrite Hcs2, Hcs1, app_assoc.
        split; [done|by apply Forall_app].
    + injection H as <- <-. by exists cs1.
    + injection H as <- <-. by exists cs1.
Qed.

Lemma check_loop_trace video_path n total_frames points :
  forall i (m : machine W) r m',
  check_loop cv2 video_path n total_frames i points m = (r, m') ->
  exists cs, Forall uses_handle cs /\
    calls m' = calls m ++ cs ++
      match r with Return_ _ => [CallRelease] | _ => [] end.
Proof.
  induction points as [|point rest IH]; intros i m r m' H; simpl in H.
  - injection H as <- <-. exists []. by rewrite !app_nil_r.
  - unfold mbind at 1, M_bind at 1 in H.
    destruct (print_notice video_path i n m) as [r0 m0] eqn:Hprint.
    apply print_notice_cases in Hprint as [-> [-> |[e0 ->]]]; cycle 1.
    { injection H as <- <-. exists []. by rewrite !app_nil_r. }
    unfold check_window in H. unfold mbind at 1, M_bind at 1 in H.
    destruct (scan_frames cv2 i (window total_frames point) m)
      as [[ok|v|e] m1] eqn:Hscan;
      [| by apply scan_frames_log in Hscan as (? & _ & ?) |];
      apply scan_frames_trace in Hscan as (cs1 & Hcs1 & Huses1).
    + destruct ok.
      * destruct (IH _ _ _ _ H) as (cs2 & Huses2 & Hcs2).
        exists (cs1 ++ cs2). split; [by apply Forall_app|].
        rewrite Hcs2, Hcs1. by rewrite <- !app_assoc.
      * erewrite bind_next in H by apply set_error_type_classified.
        erewrite bind_next in H by apply append_advance.
        exists cs1. split; [done|].
        destruct (cap_bound m1) eqn:Hcap.
        -- erewrite bind_next in H by (by apply cap_release_bound).
           injection H as <- <-. simpl. rewrite Hcs1.
           by rewrite app_nil_r, <- app_assoc.
        -- erewrite bind_raise in H by (by apply cap_release_unbound).
           injection H as <- <-. simpl. rewrite Hcs1.
           by rewrite !app_nil_r.
    + injection H as <- <-. exists cs1. by rewrite app_nil_r.
Qed.

(** Lines 32-83: the calls made before the [finally]. *)
Lemma try_body_trace video_path (w w1 : W) r m1 :
  VideoCapture cv2 video_path w = (Ok tt, w1) ->
  try_body cv2 video_path (initial w) = (r, m1) ->
  exists uses, Forall uses_handle uses /\
    (calls m1 = CallVideoCapture video_path :: uses \/
     calls m1 = CallVideoCapture video_path :: uses ++ [CallRelease] /\
     exists log, r = Return_ (DecodeFailure, log)).
Proof.
  intros Hopen Hbody.
  destruct (isOpened cv2 w1) as [[[|]|e] w2] eqn:Hopened.
  - destruct (get_frame_count cv2 w2) as [[count|e] w3] eqn:Hget.
    + rewrite (try_body_counted cv2 _ _ _ _ _ _ Hopen Hopened Hget) in Hbody.
      destruct (PyFloat.to_int count) as [total_frames|e] eqn:Hint.
      * erewrite (bind_next (lift (Ok total_frames))) in Hbody by done.
        destruct (Z.leb_spec total_frames 0) as [Hle|Hpos].
        -- erewrite bind_next in Hbody by apply set_error_type_classified.
           erewrite bind_next in Hbody by apply append_advance.
           erewrite bind_next in Hbody by (by apply cap_release_bound).
           injection Hbody as <- <-. exists [CallIsOpened; CallGet].
           split; [by repeat constructor|]. right. split; [done|by eexists].
        -- destruct (check_points total_frames) as [points|e] eqn:Hpoints.
           ++ erewrite (bind_next (lift (Ok points))) in Hbody by done.
              pose proof Hbody as Hlog.
              apply check_loop_log in Hlog as (entries & _ & Hr).
              apply check_loop_trace in Hbody as (cs & Huses & Hcs).
              exists ([CallIsOpened; CallGet] ++ cs).
              split; [apply Forall_app; split; [by repeat constructor|done]|].
              rewrite Hcs. simpl. destruct r as [a|v|e].
              ** left. by rewrite app_nil_r.
              ** right. destruct Hr as (-> & _).
                 split; [done|by eexists].
              ** left. by rewrite app_nil_r.
           ++ erewrite (bind_raise (lift (Err e))) in Hbody by done.
              injection Hbody as <- <-. exists [CallIsOpened; CallGet].
              split; [by repeat constructor|by left].
      * erewrite (bind_raise (lift (Err e))) in Hbody by done.
        injection Hbody as <- <-. exists [CallIsOpened; CallGet].
        split; [by repeat constructor|by left].
    + unfold try_body in Hbody.
      erewrite bind_next in Hbody by (apply cap_assign_ok; exact Hopen).
      unfold cap_isOpened in Hbody.
      erewrite (bind_next (cap ≫= _)) in Hbody; cycle 1.
      { erewrite bind_next by (by apply cap_bound_ok).
        apply invoke_ok. exact Hopened. }
      change (negb true) with false in Hbody. cbv iota in Hbody.
      erewrite bind_next in Hbody by apply append_advance.
      unfold cap_get in Hbody.
      erewrite (bind_raise (cap ≫= _)) in Hbody; cycle 1.
      { erewrite bind_next by (by apply cap_bound_ok).
        apply invoke_err. exact Hget. }
      injection Hbody as <- <-. exists [CallIsOpened; CallGet].
      split; [by repeat constructor|by left].
  - rewrite (try_body_not_opened cv2 video_path w w2) in Hbody
      by (by exists w1).
    injection Hbody as <- <-. exists [CallIsOpened].
    split; [by repeat constructor|by left].
  - unfold try_body in Hbody.
    erewrite bind_next in Hbody by (apply cap_assign_ok; exact Hopen).
    unfold cap_isOpened in Hbody.
    erewrite (bind_raise (cap ≫= _)) in Hbody; cycle 1.
    { erewrite bind_next by (by apply cap_bound_ok).
      apply invoke_err. exact Hopened. }
    injection Hbody as <- <-. exists [CallIsOpened].
    split; [by repeat constructor|by left].
Qed.
End Handle.

(** X19: once the constructor has returned, whatever the backend does
    afterwards, the handle is constructed once, then queried, sought and
    read, and then released; nothing is called on it after a release but a
    second release, which happens only when the probe gives up on a file
    it cannot decode (lines 44 and 82 release, and the [finally] block
    releases again). *)
Theorem handle_discipline {W} (cv2 : Backend W) video_path (w w1 : W) :
  VideoCapture cv2 video_path w = (Ok tt, w1) ->
  exists uses,
    Forall uses_handle uses /\
    (calls (run_analyze_video cv2 video_path w).2 =
       CallVideoCapture video_path :: uses ++ [CallRelease] \/
     calls (run_analyze_video cv2 video_path w).2 =
       CallVideoCapture video_path :: uses ++ [CallRelease; CallRelease] /\
     exists log w',
       analyze_video cv2 video_path w = (Returned DecodeFailure log, w')).
Proof.
  intros Hopen.
  destruct (try_body cv2 video_path (initial w)) as [r m1] eqn:Hbody.
  assert (cap_bound m1 = true) as Hcap.
  { pose proof Hbody as Hbody'. unfold try_body in Hbody'.
    erewrite bind_next in Hbody' by (apply cap_assign_ok; exact Hopen).
    pose proof (fun Hb => tame_after_assign cv2 _ _ _ _ Hb Hbody') as Ht.
    by destruct (Ht eq_refl). }
  destruct (try_body_trace cv2 _ _ _ _ _ Hopen Hbody)
    as (uses & Huses & Hcalls).
  exists uses. split; [done|]. unfold analyze_video.
  destruct r as [[]|v|e].
  - rewrite (run_after_next cv2 _ _ _ Hbody Hcap). simpl.
    destruct Hcalls as [-> |(_ & ? & ?)]; [by left|done].
  - rewrite (run_after_return cv2 _ _ _ _ Hbody Hcap). simpl.
    destruct Hcalls as [-> |(-> & log & [= ->])]; [by left|].
    right. split; [simpl; by rewrite <- app_assoc|by eexists _, _].
  - rewrite (run_after_raise cv2 _ _ _ _ Hbody Hcap). simpl.
    destruct Hcalls as [-> |(_ & ? & ?)]; [by left|done].
Qed.

Lemma handle_discipline_witness :
  exists uses,
    Forall uses_handle uses /\
    (calls (run_analyze_video (damaged_backend [0; 1; 2; 3; 4])
              (lit "clip.mp4") 0).2 =
       CallVideoCapture (lit "clip.mp4") :: uses ++ [CallRelease] \/
     calls (run_analyze_video (damaged_backend [0; 1; 2; 3; 4])
              (lit "clip.mp4") 0).2 =
       CallVideoCapture (lit "clip.mp4") :: uses ++ [CallRelease; CallRelease] /\
     exists log w',
       analyze_video (damaged_backend [0; 1; 2; 3; 4]) (lit "clip.mp4") 0 =
         (Returned DecodeFailure log, w')).
Proof.
  apply (handle_discipline (damaged_backend [0; 1; 2; 3; 4]) (lit "clip.mp4")
           0 0).
  reflexivity.
Defined.

(** ** The resume flag *)

(** X20: when the working directory holds no progress file under the name
    the run makes from its own start time, the resume flag changes nothing:
    the run with the flag and the run without it are the same, both going
    through every file discovery finds. *)
Theorem resume_flag_idle {W} (cv2 : Backend W) (lower : str -> str)
    (h : Host) (lookup : str -> option node) (now : datetime)
    (args : arguments) (fs0 : files) (w : W) :
  fs0 !! progress_file_of args (strftime now) = None ->
  pending lower lookup args
    (load_progress (progress_file_of args (strftime now)) fs0) =
    get_video_files lower lookup (directory args) /\
  main cv2 lower h lookup now args fs0 w =
    main cv2 lower h lookup now
      {| directory := directory args; output := output args;
         resume := negb (resume args) |} fs0 w.
Proof.
  intros Hnone.
  pose proof (pending_without_own_record lower lookup now args fs0 Hnone)
    as Hpending.
  split; [done|].
  pose proof (pending_without_own_record lower lookup now
                {| directory := directory args; output := output args;
                   resume := negb (resume args) |} fs0 Hnone) as Hflipped.
  unfold main.
  change (progress_file_of
            {| directory := directory args; output := output args;
               resume := negb (resume args) |} (strftime now))
    with (progress_file_of args (strftime now)) in *.
  change (log_filename_of
            {| directory := directory args; output := output args;
               resume := negb (resume args) |} (strftime now))
    with (log_filename_of args (strftime now)).
  rewrite Hpending, Hflipped. done.
Qed.

Lemma resume_flag_idle_witness :
  pending ascii_lower disk resume_args
    (load_progress (progress_file_of resume_args (strftime later)) interrupted) =
    get_video_files ascii_lower disk (directory resume_args) /\
  main sound_backend ascii_lower plain_host disk later resume_args
    interrupted tt =
    main sound_backend ascii_lower plain_host disk later
      {| directory := directory resume_args; output := output resume_args;
         resume := negb (resume resume_args) |} interrupted tt.
Proof.
  apply (resume_flag_idle sound_backend ascii_lower plain_host disk later
           resume_args interrupted tt).
  vm_compute. reflexivity.
Defined.

